(** * GME symbolic derivation engine: a verification model of
    [Packages/gme/equations.py] (class [Equations]).

    The engine is a Python object whose attributes are SymPy equations,
    filled stage by stage.  The model has three layers:

    - [Sym]: SymPy expressions as a syntax tree, with the automatic
      evaluation done by SymPy's constructors, structural substitution,
      symbolic differentiation and a denotation in the real numbers;
    - [SymPy]: the interface of the computer-algebra routines the engine
      calls as black boxes ([simplify], [solve], [factor], ...);
    - [Engine]: the attribute store ([self.__dict__]) as a finite map and
      every method of the class as a state-passing function that can
      print diagnostics and raise. *)

From Stdlib Require Import Reals QArith Qreals Lra Lia ZArith String List Bool.
From stdpp Require Import base gmap strings.

Local Open Scope string_scope.

(** ** SymPy expressions *)

Module Sym.

Inductive func : Type :=
| Fsin | Fcos | Ftan | Fatan | Fexp | Flog | Fabs | Fsign | Ftanh | Fre | Fim.

Inductive expr : Type :=
| Num (q : Q)            (* Integer and Rational *)
| Flt (q : Q)            (* a Python float literal, such as 0.01 *)
| Sym (s : string)       (* Symbol, and the applied functions of gme.symbols *)
| Add (a b : expr)
| Mul (a b : expr)
| Pow (a b : expr)
| App (f : func) (a : expr)
| Deriv (a x : expr)     (* an unevaluated Derivative *)
| Root (a x : expr).     (* RootOf: a root in x of a = 0, left implicit *)

Definition func_eqb (f g : func) : bool :=
  match f, g with
  | Fsin, Fsin | Fcos, Fcos | Ftan, Ftan | Fatan, Fatan | Fexp, Fexp
  | Flog, Flog | Fabs, Fabs | Fsign, Fsign | Ftanh, Ftanh | Fre, Fre
  | Fim, Fim => true
  | _, _ => false
  end.

(** Python's [==] on expressions: structural, numbers by value. *)
Fixpoint expr_eqb (a b : expr) : bool :=
  match a, b with
  | Num p, Num q => Qeq_bool p q
  | Flt p, Flt q => Qeq_bool p q
  | Sym s, Sym t => String.eqb s t
  | Add a1 a2, Add b1 b2 => expr_eqb a1 b1 && expr_eqb a2 b2
  | Mul a1 a2, Mul b1 b2 => expr_eqb a1 b1 && expr_eqb a2 b2
  | Pow a1 a2, Pow b1 b2 => expr_eqb a1 b1 && expr_eqb a2 b2
  | App f a1, App g b1 => func_eqb f g && expr_eqb a1 b1
  | Deriv a1 a2, Deriv b1 b2 => expr_eqb a1 b1 && expr_eqb a2 b2
  | Root a1 a2, Root b1 b2 => expr_eqb a1 b1 && expr_eqb a2 b2
  | _, _ => false
  end.

(** The integer a rational literal stands for, if any. *)
Definition is_int (q : Q) : option Z :=
  let q' := Qred q in
  if (Qden q' =? 1)%positive then Some (Qnum q') else None.

(** *** Automatic evaluation
    SymPy's [Add], [Mul] and [Pow] constructors evaluate numeric
    arguments and identities on construction; in particular a zero
    coefficient absorbs a product of finite factors. *)

Definition add (a b : expr) : expr :=
  match a, b with
  | Num p, Num q => Num (Qred (p + q))
  | Num p, _ => if Qeq_bool p 0 then b else Add a b
  | _, Num q => if Qeq_bool q 0 then a else Add a b
  | _, _ => Add a b
  end.

Definition mul (a b : expr) : expr :=
  match a, b with
  | Num p, Num q => Num (Qred (p * q))
  | Num p, _ =>
      if Qeq_bool p 0 then Num 0 else if Qeq_bool p 1 then b else Mul a b
  | _, Num q =>
      if Qeq_bool q 0 then Num 0 else if Qeq_bool q 1 then a else Mul a b
  | _, _ => Mul a b
  end.

Definition pow (a b : expr) : expr :=
  match b with
  | Num q =>
      if Qeq_bool q 0 then Num 1
      else if Qeq_bool q 1 then a
      else match a, is_int q with
           | Num p, Some n =>
               if Qeq_bool p 0 then Pow a b else Num (Qred (Qpower p n))
           | _, _ => Pow a b
           end
  | _ => Pow a b
  end.

Definition neg (a : expr) : expr := mul (Num (-1)) a.
Definition sub (a b : expr) : expr := add a (neg b).
Definition div (a b : expr) : expr := mul a (pow b (Num (-1))).
Definition sqrt (a : expr) : expr := pow a (Num (1 # 2)).
Definition sin (a : expr) : expr := App Fsin a.
Definition cos (a : expr) : expr := App Fcos a.
Definition tan (a : expr) : expr := App Ftan a.
Definition atan (a : expr) : expr := App Fatan a.
Definition exp (a : expr) : expr := App Fexp a.
Definition log (a : expr) : expr := App Flog a.
Definition Abs (a : expr) : expr := App Fabs a.
Definition sign (a : expr) : expr := App Fsign a.
Definition tanh (a : expr) : expr := App Ftanh a.

(** *** Substitution: [expr.subs(mapping)] *)

Fixpoint assoc_expr (l : list (expr * expr)) (e : expr) : option expr :=
  match l with
  | [] => None
  | (o, n) :: l' => if expr_eqb o e then Some n else assoc_expr l' e
  end.

Fixpoint subs (l : list (expr * expr)) (e : expr) : expr :=
  match assoc_expr l e with
  | Some n => n
  | None =>
      match e with
      | Add a b => add (subs l a) (subs l b)
      | Mul a b => mul (subs l a) (subs l b)
      | Pow a b => pow (subs l a) (subs l b)
      | App f a => App f (subs l a)
      | Deriv a x => Deriv (subs l a) x
      | Root a x => Root (subs l a) x
      | _ => e
      end
  end.

(** *** Differentiation: [diff(expr, symbol)] *)

Fixpoint D (s : string) (e : expr) : expr :=
  match e with
  | Num _ | Flt _ => Num 0
  | Sym t => if String.eqb s t then Num 1 else Num 0
  | Add a b => add (D s a) (D s b)
  | Mul a b => add (mul (D s a) b) (mul a (D s b))
  | Pow a b =>
      mul (Pow a b)
          (add (mul (D s b) (log a)) (mul (mul (D s a) b) (pow a (Num (-1)))))
  | App f a =>
      match f with
      | Fsin => mul (cos a) (D s a)
      | Fcos => mul (neg (sin a)) (D s a)
      | Ftan => mul (add (Num 1) (pow (tan a) (Num 2))) (D s a)
      | Fatan => mul (pow (add (Num 1) (pow a (Num 2))) (Num (-1))) (D s a)
      | Fexp => mul (exp a) (D s a)
      | Flog => mul (pow a (Num (-1))) (D s a)
      | Fabs => mul (sign a) (D s a)
      | Ftanh => mul (sub (Num 1) (pow (tanh a) (Num 2))) (D s a)
      | Fsign | Fre | Fim => Deriv e (Sym s)
      end
  | Deriv _ _ | Root _ _ => Deriv e (Sym s)
  end.

Definition diff (e x : expr) : expr :=
  match x with
  | Sym s => D s e
  | _ => Deriv e x
  end.

(** *** Denotation in the reals *)

Definition env : Type := string -> R.

Definition upd (rho : env) (s : string) (v : R) : env :=
  fun t => if String.eqb s t then v else rho t.

Definition sgn (x : R) : R :=
  if Rlt_dec 0 x then 1%R else if Rlt_dec x 0 then (-1)%R else 0%R.

(** The integer exponent of a power, when it is an integer literal. *)
Definition int_exp (b : expr) : option Z :=
  match b with
  | Num q => is_int q
  | _ => None
  end.

(** A power with an integer literal exponent is an iterated product
    (defined for negative bases); any other power is [exp (y ln x)]. *)
Definition rpow (x : R) (b : expr) (y : R) : R :=
  match int_exp b with
  | Some n => powerRZ x n
  | None => Rpower x y
  end.

Definition eval_func (f : func) (x : R) : R :=
  match f with
  | Fsin => Rtrigo_def.sin x
  | Fcos => Rtrigo_def.cos x
  | Ftan => Rtrigo1.tan x
  | Fatan => Ratan.atan x
  | Fexp => Rtrigo_def.exp x
  | Flog => ln x
  | Fabs => Rabs x
  | Fsign => sgn x
  | Ftanh => Rtrigo_def.tanh x
  | Fre => x
  | Fim => 0%R
  end.

Fixpoint eval (rho : env) (e : expr) : R :=
  match e with
  | Num q | Flt q => Q2R q
  | Sym s => rho s
  | Add a b => (eval rho a + eval rho b)%R
  | Mul a b => (eval rho a * eval rho b)%R
  | Pow a b => rpow (eval rho a) b (eval rho b)
  | App f a => eval_func f (eval rho a)
  | Deriv _ _ | Root _ _ => 0%R
  end.

(** Where the differentiation rules are valid: no division by zero, a
    positive base under a real exponent, a logarithm of a positive
    number, an absolute value or a sign away from zero. *)
Fixpoint wd (rho : env) (e : expr) : Prop :=
  match e with
  | Num _ | Flt _ | Sym _ => True
  | Add a b | Mul a b => wd rho a /\ wd rho b
  | Pow a b =>
      wd rho a /\ wd rho b /\
      match int_exp b with
      | Some _ => eval rho a <> 0%R
      | None => (0 < eval rho a)%R
      end
  | App f a =>
      wd rho a /\
      match f with
      | Fsin | Fcos | Fexp | Fatan => True
      | Ftan => Rtrigo_def.cos (eval rho a) <> 0%R
      | Flog => (0 < eval rho a)%R
      | Fabs | Fsign => eval rho a <> 0%R
      | Ftanh | Fre | Fim => False
      end
  | Deriv _ _ | Root _ _ => False
  end.

End Sym.

Import Sym.

(** ** The symbol vocabulary *)

Module Symbols.

(** Modelled from the spec: the module [gme.symbols], which
    [equations.py] imports with [from gme.symbols import *], is not among
    the sources.  The spec (sections 1 and 3) describes it as a fixed
    vocabulary of opaque named symbols; only their names matter here.
    The applied function [varphi(r)] is an atom too: it does not depend
    on the slowness components. *)
Definition p : expr := Sym "p".
Definition px : expr := Sym "p_x".
Definition pz : expr := Sym "p_z".
Definition pz_0 : expr := Sym "p_z_0".
Definition pcovec : expr := Sym "pcovec".
Definition pdotx : expr := Sym "pdot_x".
Definition pdotz : expr := Sym "pdot_z".
Definition pdotcovec : expr := Sym "pdotcovec".
Definition r : expr := Sym "r".
Definition rx : expr := Sym "r^x".
Definition rz : expr := Sym "r^z".
Definition rdot : expr := Sym "v".
Definition rdotx : expr := Sym "v^x".
Definition rdotz : expr := Sym "v^z".
Definition rdotvec : expr := Sym "rdotvec".
Definition rdotx_true : expr := Sym "rdot^x".
Definition rdotz_true : expr := Sym "rdot^z".
Definition vdotx : expr := Sym "vdot^x".
Definition vdotz : expr := Sym "vdot^z".
Definition alpha : expr := Sym "alpha".
Definition beta : expr := Sym "beta".
Definition beta_at_alpha_extremum : expr := Sym "beta_at_alpha_extremum".
Definition ta : expr := Sym "a".
Definition xi : expr := Sym "xi".
Definition xiv : expr := Sym "xiv".
Definition xiv_0 : expr := Sym "xiv_0".
Definition eta : expr := Sym "eta".
Definition mu : expr := Sym "mu".
Definition varphi : expr := Sym "varphi".
Definition varphi_0 : expr := Sym "varphi_0".
Definition varphi_r : expr := Sym "varphi(r)".
Definition varphi_rx : expr := Sym "varphi(r^x)".
Definition varepsilon : expr := Sym "varepsilon".
Definition chi : expr := Sym "chi".
Definition x : expr := Sym "x".
Definition x_1 : expr := Sym "x_1".
Definition x_h : expr := Sym "x_h".
Definition x_sigma : expr := Sym "x_sigma".
Definition h : expr := Sym "h".
Definition h_0 : expr := Sym "h_0".
Definition h_fn : expr := Sym "h(x)".
Definition kappa_h : expr := Sym "kappa_h".
Definition Fstar : expr := Sym "Fstar".
Definition H : expr := Sym "H".
Definition g : expr := Sym "g".
Definition gstar : expr := Sym "gstar".
Definition det_gstar : expr := Sym "det_gstar".

End Symbols.

Import Symbols.

(** ** Equations, matrices and attribute values *)

Record eqn : Type := Eq { lhs : expr; rhs : expr }.

Definition matrix : Type := list (list expr).

(** [e2d] of [gmplib.utils]: an equation as a one-entry substitution. *)
Definition e2d (q : eqn) : list (expr * expr) := [(lhs q, rhs q)].

Definition subs_eq (l : list (expr * expr)) (q : eqn) : eqn :=
  Eq (subs l (lhs q)) (subs l (rhs q)).

Definition mat_map (f : expr -> expr) (m : matrix) : matrix :=
  map (map f) m.

Definition subs_mat (l : list (expr * expr)) : matrix -> matrix :=
  mat_map (subs l).

Definition diff_mat (m : matrix) (x : expr) : matrix :=
  mat_map (fun e => diff e x) m.

(** [Matrix.T] *)
Fixpoint transpose (m : matrix) : matrix :=
  match m with
  | [] => []
  | row :: rest =>
      match rest with
      | [] => map (fun e => [e]) row
      | _ => map (fun '(e, col) => e :: col) (combine row (transpose rest))
      end
  end.

(** [m[i, j]] and the flat [m[i]] *)
Definition mget (m : matrix) (i j : nat) : option expr :=
  match nth_error m i with
  | Some row => nth_error row j
  | None => None
  end.

Definition mflat (m : matrix) (i : nat) : option expr :=
  nth_error (concat m) i.

(** What an attribute of the engine can hold. *)
Inductive value : Type :=
| VNone
| VInt (n : Z)
| VEq (q : eqn)
| VMatEq (l : expr) (m : matrix)
| VEqs (l : list eqn)
| VMat (m : matrix)
| VMats (l : list matrix)
| VList (l : list expr)
| VEigen (l : list (expr * Z * list matrix))
| VArray (l : list (list matrix))
| VClosure (name : string)
| VLambda (args : list expr) (body : expr)
| VLambdaMat (args : list expr) (body : matrix)
| VLambdaTable (args : list expr) (t : list (list (list expr)))
| VPoly (e : expr) (gen : expr)
| VDict (d : list (string * list (string * eqn))).

(** ** The computer-algebra routines used as black boxes *)

Class SymPy : Type := {
  simplify : expr -> expr;
  trigsimp : expr -> expr;
  factor : expr -> expr;
  expand : expr -> expr;
  solve : eqn -> expr -> list expr;
  integrate : expr -> expr -> expr;
  numer : expr -> expr;
  denom : expr -> expr;
  im : expr -> expr;
  re : expr -> expr;
  N : expr -> expr;
  float : expr -> expr;
  is_lt : expr -> expr -> bool;       (* truth value of [a < b] *)
  is_gt : expr -> expr -> bool;       (* truth value of [a > b] *)
  is_ge : expr -> expr -> bool;       (* truth value of [a >= b] *)
  det : matrix -> expr;
  inverse : matrix -> matrix;
  eigenvects : matrix -> list (expr * Z * list matrix);
  poly : expr -> expr -> expr
}.

(** ** The engine state and its effects *)

(** The constructor arguments that are kept on the instance. *)
Record config : Type := {
  cfg_eta : Q;
  cfg_mu : Q;
  beta_type : string;
  varphi_type : string;
  ibc_type : string;
  do_raw : bool
}.

Inductive exn : Type :=
| IndexError
| TypeError
| KeyError (key : string)
| ValueError (msg : string)
| AttributeError (name : string).

(** The attributes set so far and what has been printed. *)
Record state : Type := mkState {
  attrs : gmap string value;
  stdout : list string
}.

Inductive res (A : Type) : Type :=
| Ret (a : A)
| Raise (e : exn).

Arguments Ret {A} a.
Arguments Raise {A} e.

(** A method body: it runs on the state, and either returns or raises;
    what it had assigned before raising stays assigned. *)
Definition M (A : Type) : Type := state -> res A * state.

#[global] Instance M_ret : MRet M := fun A a s => (Ret a, s).

#[global] Instance M_bind : MBind M := fun A B f m s =>
  match m s with
  | (Ret a, s') => f a s'
  | (Raise e, s') => (Raise e, s')
  end.

Definition raise {A : Type} (e : exn) : M A := fun s => (Raise e, s).

Definition print (msg : string) : M unit := fun s =>
  (Ret tt, mkState (attrs s) (stdout s ++ [msg])).

(** [self.k = v] *)
Definition setattr (k : string) (v : value) : M unit := fun s =>
  (Ret tt, mkState (<[k := v]> (attrs s)) (stdout s)).

(** [self.k] *)
Definition getattr (k : string) : M value := fun s =>
  match attrs s !! k with
  | Some v => (Ret v, s)
  | None => (Raise (AttributeError k), s)
  end.

(** [self.k] used as an equation ([.lhs], [.rhs], [.subs]): [None] has
    no such attribute. *)
Definition self_eq (k : string) : M eqn :=
  v ← getattr k;
  match v with
  | VEq q => mret q
  | _ => raise (AttributeError "rhs")
  end.

Definition self_mateq (k : string) : M matrix :=
  v ← getattr k;
  match v with
  | VMatEq _ m => mret m
  | _ => raise (AttributeError "rhs")
  end.

Definition self_mat (k : string) : M matrix :=
  v ← getattr k;
  match v with
  | VMat m => mret m
  | _ => raise TypeError
  end.

Definition self_int (k : string) : M Z :=
  v ← getattr k;
  match v with
  | VInt n => mret n
  | _ => raise TypeError
  end.

Definition self_dict (k : string) : M (list (string * list (string * eqn))) :=
  v ← getattr k;
  match v with
  | VDict d => mret d
  | _ => raise TypeError
  end.

(** [l[i]] *)
Definition index {A : Type} (l : list A) (i : nat) : M A :=
  match nth_error l i with
  | Some a => mret a
  | None => raise IndexError
  end.

Definition lift_index {A : Type} (o : option A) : M A :=
  match o with
  | Some a => mret a
  | None => raise IndexError
  end.

(** [d[k]] on a dict *)
Fixpoint assoc {A : Type} (k : string) (d : list (string * A)) : option A :=
  match d with
  | [] => None
  | (k', a) :: d' => if String.eqb k k' then Some a else assoc k d'
  end.

Definition item {A : Type} (d : list (string * A)) (k : string) : M A :=
  match assoc k d with
  | Some a => mret a
  | None => raise (KeyError k)
  end.

(** [expr.subs(parameters)]: a mapping substitutes; [None] is neither a
    mapping nor an iterable of pairs, and SymPy raises. *)
Definition subs_parameters (parameters : option (list (expr * expr)))
    (m : matrix) : M matrix :=
  match parameters with
  | Some l => mret (subs_mat l m)
  | None => raise TypeError
  end.

(** Rational comparisons of the configured exponents. *)
Definition Qeqb (a b : Q) : bool := Qeq_bool a b.
Definition Qleb (a b : Q) : bool := Qle_bool a b.

(** [str] of the two rationals the indicatrix notice can show. *)
Definition str_eta (q : Q) : string :=
  if Qeqb q (1 # 4) then "1/4" else "3/2".

(** ** The methods of [Equations] *)

Declare Scope sym_scope.
Delimit Scope sym_scope with E.
Bind Scope sym_scope with expr.
Notation "a + b" := (add a b) : sym_scope.
Notation "a - b" := (sub a b) : sym_scope.
Notation "a * b" := (mul a b) : sym_scope.
Notation "a / b" := (div a b) : sym_scope.
Notation "- a" := (neg a) : sym_scope.
Notation "a ^ b" := (pow a b) : sym_scope.

Section Engine.

Context {cas : SymPy}.
Variable self : config.

Local Open Scope sym_scope.

Definition simplify_eq (q : eqn) : eqn := Eq (simplify (lhs q)) (simplify (rhs q)).
Definition factor_eq (q : eqn) : eqn := Eq (factor (lhs q)) (factor (rhs q)).
Definition expand_eq (q : eqn) : eqn := Eq (expand (lhs q)) (expand (rhs q)).

(** [eta_sub = {eta: self.eta}] and [mu_eta_sub] *)
Definition eta_sub : list (expr * expr) := [(eta, Num (cfg_eta self))].
Definition mu_eta_sub : list (expr * expr) :=
  [(mu, Num (cfg_mu self)); (eta, Num (cfg_eta self))].

Definition define_p_eqns : M unit :=
  setattr "p_covec_eqn" (VMatEq pcovec (transpose [[px]; [pz]]));;
  let px_p_beta_eqn := Eq px (p * sin beta) in
  setattr "px_p_beta_eqn" (VEq px_p_beta_eqn);;
  let pz_p_beta_eqn := Eq pz (- p * cos beta) in
  setattr "pz_p_beta_eqn" (VEq pz_p_beta_eqn);;
  let p_norm_pxpz_eqn :=
    Eq (trigsimp (sqrt (rhs px_p_beta_eqn ^ Num 2 + rhs pz_p_beta_eqn ^ Num 2)))
       (sqrt (lhs px_p_beta_eqn ^ Num 2 + lhs pz_p_beta_eqn ^ Num 2)) in
  setattr "p_norm_pxpz_eqn" (VEq p_norm_pxpz_eqn);;
  let tanbeta_pxpz_eqn :=
    Eq (simplify (- rhs px_p_beta_eqn / rhs pz_p_beta_eqn))
       (- lhs px_p_beta_eqn / lhs pz_p_beta_eqn) in
  setattr "tanbeta_pxpz_eqn" (VEq tanbeta_pxpz_eqn);;
  s ← index (solve px_p_beta_eqn (sin beta)) 0;
  setattr "sinbeta_pxpz_eqn" (VEq (Eq (sin beta) (subs (e2d p_norm_pxpz_eqn) s)));;
  c ← index (solve pz_p_beta_eqn (cos beta)) 0;
  setattr "cosbeta_pxpz_eqn" (VEq (Eq (cos beta) (subs (e2d p_norm_pxpz_eqn) c)));;
  z ← index (solve tanbeta_pxpz_eqn pz) 0;
  setattr "pz_px_tanbeta_eqn" (VEq (Eq pz z));;
  x' ← index (solve tanbeta_pxpz_eqn px) 0;
  setattr "px_pz_tanbeta_eqn" (VEq (Eq px x'));;
  p' ← index (solve pz_p_beta_eqn p) 0;
  setattr "p_pz_cosbeta_eqn" (VEq (Eq p p')).

Definition define_r_eqns : M unit :=
  setattr "rx_r_alpha_eqn" (VEq (Eq rx (r * cos alpha)));;
  setattr "rz_r_alpha_eqn" (VEq (Eq rz (r * sin alpha))).

Definition define_xi_eqns : M unit :=
  let xi_p_eqn := Eq xi (Num 1 / p) in
  setattr "xi_p_eqn" (VEq xi_p_eqn);;
  let xiv_pz_eqn := Eq xiv (- Num 1 / pz) in
  setattr "xiv_pz_eqn" (VEq xiv_pz_eqn);;
  p' ← index (solve xi_p_eqn p) 0;
  setattr "p_xi_eqn" (VEq (Eq p p'));;
  z ← index (solve xiv_pz_eqn pz) 0;
  setattr "pz_xiv_eqn" (VEq (Eq pz z)).

Definition define_xi_model_eqn : M unit :=
  let xi_model :=
    if String.eqb (beta_type self) "sin"
    then varphi_r * Abs (sin beta) ^ eta
    else varphi_r * Abs (tan beta) ^ eta in
  if do_raw self
  then setattr "xi_varphi_beta_eqn" (VEq (Eq xi xi_model))
  else setattr "xi_varphi_beta_eqn" (VEq (Eq xi (subs eta_sub xi_model))).

Definition define_xi_related_eqns : M unit :=
  let eta_dbldenom := (2 * Zpos (Qden (Qred (cfg_eta self))))%Z in
  let dbl := Num (inject_Z eta_dbldenom) in
  xi_varphi_beta_eqn ← self_eq "xi_varphi_beta_eqn";
  tanbeta_pxpz_eqn ← self_eq "tanbeta_pxpz_eqn";
  cosbeta_pxpz_eqn ← self_eq "cosbeta_pxpz_eqn";
  sinbeta_pxpz_eqn ← self_eq "sinbeta_pxpz_eqn";
  let xiv_varphi_pxpz_eqn :=
    simplify_eq
      (Eq xiv (subs [(Abs px, px)]
                 (subs (e2d sinbeta_pxpz_eqn)
                    (subs (e2d cosbeta_pxpz_eqn)
                       (subs (e2d tanbeta_pxpz_eqn)
                          (rhs xi_varphi_beta_eqn / cos beta)))))) in
  setattr "xiv_varphi_pxpz_eqn" (VEq xiv_varphi_pxpz_eqn);;
  let xiv_eqn := xiv_varphi_pxpz_eqn in
  pz_xiv_eqn ← self_eq "pz_xiv_eqn";
  let px_xiv_varphi_eqn :=
    simplify_eq
      (subs_eq (e2d pz_xiv_eqn)
         (Eq (rhs (subs_eq [(Abs px, px)] xiv_eqn) ^ dbl - lhs xiv_eqn ^ dbl)
             (Num 0))) in
  setattr "px_xiv_varphi_eqn"
    (VEq (factor_eq (Eq (lhs px_xiv_varphi_eqn / xiv ^ Num 2) (Num 0))));;
  setattr "eta_dbldenom" (VInt eta_dbldenom).

(** The three flow closures of [define_varphi_model_eqn]. *)
Definition varphi_model_ramp_eqn : eqn :=
  subs_eq [(x, x_1 - rx)]
    (Eq varphi_r (varphi_0 * ((x / x_1) ^ (mu * Num 2) + varepsilon))).

Definition varphi_model_rampflat_eqn : eqn :=
  Eq varphi_r
     (simplify
        (varphi_0 *
         subs [(x, - rx + x_1)]
           ((chi / x_1) * integrate (Num 1 / (Num 1 + exp (- x / x_sigma))) x
            + Num 1))).

Definition varphi_model_rampflatmu_eqn : eqn :=
  let smooth_step_fn :=
    Num 1 / (Num 1 + exp (((x_1 - x_h) - x) / x_sigma)) in
  let smooth_break_fn :=
    simplify
      (((chi / x_1) * integrate smooth_step_fn x
        - chi * (Num 1 - x_h / x_1) + Num 1) ^ (mu * Num 2)) in
  Eq varphi_r
     (simplify
        (varphi_0 * subs [(x, rx)] (subs [(x, x_1 - x)] smooth_break_fn))).

Definition define_varphi_model_eqn : M unit :=
  setattr "varphi_model_ramp_eqn" (VEq varphi_model_ramp_eqn);;
  setattr "varphi_model_rampmu_chi0_eqn"
    (VEq (subs_eq [(x, x_1 - rx)]
            (Eq varphi_r (varphi_0 * ((x / x_1) ^ (mu * Num 2) + varepsilon)))));;
  setattr "varphi_model_rampflat_eqn" (VEq varphi_model_rampflat_eqn);;
  setattr "varphi_model_rampflatmu_eqn" (VEq varphi_model_rampflatmu_eqn);;
  varphi_model_eqn ←
    (if String.eqb (varphi_type self) "ramp" then mret varphi_model_ramp_eqn
     else if String.eqb (varphi_type self) "ramp-flat" then
       if Qeqb (cfg_mu self) (1 # 2) then mret varphi_model_rampflat_eqn
       else mret varphi_model_rampflatmu_eqn
     else raise (ValueError "Unknown flow model"));
  setattr "varphi_rx_eqn" (VEq varphi_model_eqn).

Definition define_varphi_related_eqns : M unit :=
  p_xi_eqn ← self_eq "p_xi_eqn";
  xi_varphi_beta_eqn ← self_eq "xi_varphi_beta_eqn";
  let p_varphi_beta_eqn := subs_eq (e2d xi_varphi_beta_eqn) p_xi_eqn in
  setattr "p_varphi_beta_eqn" (VEq p_varphi_beta_eqn);;
  tanbeta_pxpz_eqn ← self_eq "tanbeta_pxpz_eqn";
  sinbeta_pxpz_eqn ← self_eq "sinbeta_pxpz_eqn";
  p_norm_pxpz_eqn ← self_eq "p_norm_pxpz_eqn";
  (* Note force px >= 0 *)
  let p_varphi_pxpz_eqn :=
    subs_eq [(Abs px, px)]
      (subs_eq (e2d p_norm_pxpz_eqn)
         (subs_eq (e2d sinbeta_pxpz_eqn)
            (subs_eq (e2d tanbeta_pxpz_eqn) p_varphi_beta_eqn))) in
  setattr "p_varphi_pxpz_eqn" (VEq p_varphi_pxpz_eqn);;
  varphi_rx_eqn ← self_eq "varphi_rx_eqn";
  let p_rx_pxpz_eqn :=
    simplify_eq (subs_eq [(varphi_r, rhs varphi_rx_eqn)] p_varphi_pxpz_eqn) in
  setattr "p_rx_pxpz_eqn" (VEq p_rx_pxpz_eqn);;
  pz_px_tanbeta_eqn ← self_eq "pz_px_tanbeta_eqn";
  let p_rx_tanbeta_eqn :=
    subs_eq [(pz, rhs pz_px_tanbeta_eqn)] p_rx_pxpz_eqn in
  setattr "p_rx_tanbeta_eqn" (VEq p_rx_tanbeta_eqn);;
  setattr "px_beta_eqn" (VEq (Eq px (rhs p_rx_tanbeta_eqn * sin beta)));;
  setattr "pz_beta_eqn" (VEq (Eq pz (- rhs p_rx_tanbeta_eqn * cos beta)));;
  setattr "xiv_pxpz_eqn"
    (VEq (simplify_eq
            (subs_eq [(lhs p_norm_pxpz_eqn, rhs p_norm_pxpz_eqn)]
               (subs_eq [(lhs tanbeta_pxpz_eqn, rhs tanbeta_pxpz_eqn)]
                  (subs_eq [(cos beta, Num 1 / sqrt (Num 1 + tan beta ^ Num 2))]
                     (Eq xiv (- cos beta / p)))))));;
  xi_p_eqn ← self_eq "xi_p_eqn";
  p_pz_cosbeta_eqn ← self_eq "p_pz_cosbeta_eqn";
  let tmp :=
    subs_eq (e2d p_pz_cosbeta_eqn) (subs_eq (e2d xi_p_eqn) xi_varphi_beta_eqn) in
  z ← index (solve tmp pz) 0;
  let pz_varphi_beta_eqn := Eq pz z in
  setattr "pz_varphi_beta_eqn" (VEq pz_varphi_beta_eqn);;
  let tmp := subs_eq (e2d pz_px_tanbeta_eqn) pz_varphi_beta_eqn in
  x' ← index (solve tmp px) 0;
  let px_varphi_beta_eqn := Eq px x' in
  setattr "px_varphi_beta_eqn" (VEq px_varphi_beta_eqn);;
  setattr "pz_varphi_rx_beta_eqn"
    (VEq (subs_eq (e2d varphi_rx_eqn) pz_varphi_beta_eqn));;
  setattr "px_varphi_rx_beta_eqn"
    (VEq (subs_eq (e2d varphi_rx_eqn) px_varphi_beta_eqn)).

Definition define_Fstar_eqns : M unit :=
  p_norm_pxpz_eqn ← self_eq "p_norm_pxpz_eqn";
  p_varphi_pxpz_eqn ← self_eq "p_varphi_pxpz_eqn";
  (* Note force px >= 0 *)
  let Okubo_Fstar_eqn :=
    simplify_eq
      (subs_eq [(Abs px, px); (sign px, Num 1)]
         (Eq (rhs p_norm_pxpz_eqn / Fstar) (rhs p_varphi_pxpz_eqn))) in
  setattr "Okubo_Fstar_eqn" (VEq Okubo_Fstar_eqn);;
  f ← index (solve Okubo_Fstar_eqn Fstar) 0;
  setattr "Fstar_eqn"
    (VEq (subs_eq [(Abs px, px); (sign px, Num 1)]
            (Eq Fstar (subs [(varphi_rx, varphi)] f)))).

(** The right-hand side of [H_eqn]: [simplify(Fstar_eqn.rhs**2/2)]. *)
Definition hamiltonian (Fstar_eqn : eqn) : expr :=
  simplify (rhs Fstar_eqn ^ Num 2 / Num 2).

Definition define_H_eqns : M unit :=
  Fstar_eqn ← self_eq "Fstar_eqn";
  let H_eqn := Eq H (hamiltonian Fstar_eqn) in
  setattr "H_eqn" (VEq H_eqn);;
  varphi_rx_eqn ← self_eq "varphi_rx_eqn";
  setattr "H_varphi_rx_eqn"
    (VEq (simplify_eq (subs_eq [(varphi_r, rhs varphi_rx_eqn)] H_eqn))).

Definition define_rdot_eqns : M unit :=
  setattr "rdotx_rdot_alpha_eqn" (VEq (Eq rdotx (rdot * cos alpha)));;
  setattr "rdotz_rdot_alpha_eqn" (VEq (Eq rdotz (rdot * sin alpha)));;
  H_eqn ← self_eq "H_eqn";
  let rdotx_pxpz_eqn := simplify_eq (Eq rdotx (diff (rhs H_eqn) px)) in
  setattr "rdotx_pxpz_eqn" (VEq rdotx_pxpz_eqn);;
  let rdotz_pxpz_eqn := simplify_eq (Eq rdotz (diff (rhs H_eqn) pz)) in
  setattr "rdotz_pxpz_eqn" (VEq rdotz_pxpz_eqn);;
  let rdotz_on_rdotx_eqn :=
    factor_eq
      (subs_eq [(Abs px, px)]
         (Eq (rdotz / rdotx)
             (simplify (rhs rdotz_pxpz_eqn / rhs rdotx_pxpz_eqn)))) in
  setattr "rdotz_on_rdotx_eqn" (VEq rdotz_on_rdotx_eqn);;
  px_pz_tanbeta_eqn ← self_eq "px_pz_tanbeta_eqn";
  setattr "rdotz_on_rdotx_tanbeta_eqn"
    (VEq (factor_eq (subs_eq [(px, rhs px_pz_tanbeta_eqn)] rdotz_on_rdotx_eqn)));;
  setattr "rdot_vec_eqn"
    (VMatEq rdotvec [[rhs rdotx_pxpz_eqn]; [rhs rdotz_pxpz_eqn]]);;
  setattr "rdot_p_unity_eqn" (VEq (Eq (rdotx * px + rdotz * pz) (Num 1))).

Definition define_pdot_eqns : M unit :=
  H_varphi_rx_eqn ← self_eq "H_varphi_rx_eqn";
  let pdotx_pxpz_eqn :=
    subs_eq [(Abs pz, - pz); (Abs px, px); (Abs (px * pz), - px * pz);
             (Abs (px / pz), - px / pz)]
      (simplify_eq (Eq pdotx (- diff (rhs H_varphi_rx_eqn) rx))) in
  setattr "pdotx_pxpz_eqn" (VEq pdotx_pxpz_eqn);;
  varphi_rx_eqn ← self_eq "varphi_rx_eqn";
  tanbeta_pxpz_eqn ← self_eq "tanbeta_pxpz_eqn";
  H_eqn ← self_eq "H_eqn";
  let pdotz_pxpz_eqn :=
    simplify_eq
      (Eq pdotz
          (Num 0 * diff (rhs varphi_rx_eqn) rx * (- rhs tanbeta_pxpz_eqn)
           * rhs H_eqn / varphi_r)) in
  setattr "pdotz_pxpz_eqn" (VEq pdotz_pxpz_eqn);;
  setattr "pdot_covec_eqn"
    (VMatEq pdotcovec
       (transpose [[rhs pdotx_pxpz_eqn]; [rhs pdotz_pxpz_eqn]])).

Definition define_Hamiltons_eqns : M unit :=
  varphi_rx_eqn ← self_eq "varphi_rx_eqn";
  let hamilton (q : eqn) : eqn :=
    subs_eq [(Abs px, px)]
      (factor_eq
         (subs_eq [(rdotx, rdotx_true); (rdotz, rdotz_true)]
            (simplify_eq (subs_eq (e2d varphi_rx_eqn) q)))) in
  rdotx_pxpz_eqn ← self_eq "rdotx_pxpz_eqn";
  rdotz_pxpz_eqn ← self_eq "rdotz_pxpz_eqn";
  pdotx_pxpz_eqn ← self_eq "pdotx_pxpz_eqn";
  pdotz_pxpz_eqn ← self_eq "pdotz_pxpz_eqn";
  setattr "hamiltons_eqns"
    (VEqs [hamilton rdotx_pxpz_eqn; hamilton rdotz_pxpz_eqn;
           hamilton pdotx_pxpz_eqn; hamilton pdotz_pxpz_eqn]).

Definition define_tanalpha_eqns : M unit :=
  rdotz_rdot_alpha_eqn ← self_eq "rdotz_rdot_alpha_eqn";
  rdotx_rdot_alpha_eqn ← self_eq "rdotx_rdot_alpha_eqn";
  let tanalpha_rdot_eqn :=
    Eq (simplify (rhs rdotz_rdot_alpha_eqn / rhs rdotx_rdot_alpha_eqn))
       (rdotz / rdotx) in
  setattr "tanalpha_rdot_eqn" (VEq tanalpha_rdot_eqn);;
  rdotz_on_rdotx_eqn ← self_eq "rdotz_on_rdotx_eqn";
  setattr "tanalpha_pxpz_eqn"
    (VEq (subs_eq [(lhs rdotz_on_rdotx_eqn, rhs rdotz_on_rdotx_eqn)]
            tanalpha_rdot_eqn));;
  rdotz_on_rdotx_tanbeta_eqn ← self_eq "rdotz_on_rdotx_tanbeta_eqn";
  setattr "tanalpha_beta_eqn"
    (VEq (subs_eq [(lhs rdotz_on_rdotx_eqn, rhs rdotz_on_rdotx_tanbeta_eqn)]
            tanalpha_rdot_eqn)).

(** The probe of the [tan(beta)] roots: real at [tan(alpha) = 0], or at
    [0.01], or at [1], with the configured [eta]. *)
Definition real_at_probe (soln : expr) : bool :=
  expr_eqb (im (subs eta_sub (subs [(ta, Num 0)] soln))) (Num 0)
  || expr_eqb (im (subs eta_sub (subs [(ta, Flt (1 # 100))] soln))) (Num 0)
  || expr_eqb (im (subs eta_sub (subs [(ta, Num 1)] soln))) (Num 0).

Definition real_positive (extremum : expr) : bool :=
  expr_eqb (im (subs eta_sub extremum)) (Num 0)
  && is_gt (subs eta_sub extremum) (Num 0).

Definition define_tanbeta_eqns (do_find_extrema : bool) : M unit :=
  (* TODO: this is a stationary point, not a min, so change name to minmax *)
  setattr "beta_at_alpha_extremum_eqn" VNone;;
  setattr "beta_at_alpha_extremum_numerical_eqn" VNone;;
  setattr "tanbeta_alpha_eqn" VNone;;
  (if do_find_extrema then
     tanalpha_beta_eqn ← self_eq "tanalpha_beta_eqn";
     let alpha_extrema :=
       map simplify
         (solve (Eq (diff (rhs tanalpha_beta_eqn) beta) (Num 0)) beta) in
     let alpha_extrema_real_positive :=
       List.filter real_positive alpha_extrema in
     match alpha_extrema_real_positive, alpha_extrema with
     | extremum :: _, _ =>
         setattr "beta_at_alpha_extremum_eqn"
           (VEq (Eq beta_at_alpha_extremum extremum));;
         setattr "beta_at_alpha_extremum_numerical_eqn"
           (VEq (Eq beta_at_alpha_extremum
                    (float (N (subs eta_sub extremum)))))
     | [], extremum :: _ =>
         setattr "beta_at_alpha_extremum_eqn"
           (VEq (Eq beta_at_alpha_extremum extremum));;
         setattr "beta_at_alpha_extremum_numerical_eqn"
           (VEq (Eq beta_at_alpha_extremum (N (subs eta_sub extremum))));;
         print "Warning: real positive root for beta not found"
     | [], [] =>
         setattr "beta_at_alpha_extremum_eqn"
           (VEq (Eq beta_at_alpha_extremum (Num 0)));;
         setattr "beta_at_alpha_extremum_numerical_eqn"
           (VEq (Eq (subs eta_sub beta_at_alpha_extremum) (Num 0)))
     end
   else mret tt);;
  if Qeqb (cfg_eta self) 1 && String.eqb (beta_type self) "sin" then
    print "Cannot compute all $\beta$ equations for $\sin\beta$ model and $\eta=1$"
  else
    tanalpha_beta_eqn ← self_eq "tanalpha_beta_eqn";
    let solns :=
      solve (subs_eq [(tan alpha, ta)] tanalpha_beta_eqn) (tan beta) in
    (* We get multiple roots for tan(beta), so guess which is real by
       evaluating it at an fairly arbitrary tan(alpha) *)
    soln ← index (List.filter real_at_probe solns) 0;
    setattr "tanbeta_alpha_eqn"
      (VEq (subs_eq [(ta, tan alpha)] (Eq (tan beta) (simplify soln)))).

Definition define_g_eqns : M unit :=
  setattr "gstar_varphi_pxpz_eqn" VNone;;
  setattr "det_gstar_varphi_pxpz_eqn" VNone;;
  setattr "g_varphi_pxpz_eqn" VNone;;
  setattr "gstar_eigen_varphi_pxpz" VNone;;
  setattr "gstar_eigenvalues" VNone;;
  setattr "gstar_eigenvectors" VNone;;
  rdot_vec ← self_mateq "rdot_vec_eqn";
  p_covec ← self_mateq "p_covec_eqn";
  p0 ← lift_index (mflat p_covec 0);
  p1 ← lift_index (mflat p_covec 1);
  let gstar_rhs :=
    subs_mat eta_sub
      (mat_map factor
         (transpose (diff_mat rdot_vec p0)
            ++ transpose (diff_mat rdot_vec p1))%list) in
  setattr "gstar_varphi_pxpz_eqn" (VMatEq (subs eta_sub gstar) gstar_rhs);;
  setattr "det_gstar_varphi_pxpz_eqn"
    (VEq (Eq det_gstar (simplify (det (subs_mat eta_sub gstar_rhs)))));;
  if Qeqb (cfg_eta self) 1 && String.eqb (beta_type self) "sin" then
    print "Cannot compute all metric tensor $g^{ij}$ equations for $\sin\beta$ model and $\eta=1$"
  else
    setattr "g_varphi_pxpz_eqn"
      (VMatEq g (mat_map simplify (inverse (subs_mat eta_sub gstar_rhs))));;
    let gstar_eigen_varphi_pxpz := eigenvects gstar_rhs in
    setattr "gstar_eigen_varphi_pxpz" (VEigen gstar_eigen_varphi_pxpz);;
    e0 ← index gstar_eigen_varphi_pxpz 0;
    e1 ← index gstar_eigen_varphi_pxpz 1;
    varphi_rx_eqn ← self_eq "varphi_rx_eqn";
    let flow := [(varphi_r, rhs varphi_rx_eqn)] in
    setattr "gstar_eigenvalues"
      (VMat (mat_map simplify (subs_mat flow [[e0.1.1]; [e1.1.1]])));;
    v0 ← index e0.2 0;
    v1 ← index e1.2 0;
    setattr "gstar_eigenvectors"
      (VMats [mat_map simplify (subs_mat flow v0);
              mat_map simplify (subs_mat flow v1)]).

(** [find_cosbetasqrd_root(sub)]: the roots that are real and
    non-negative at a probe point. *)
Definition find_cosbetasqrd_root (solns : list expr)
    (sub : list (expr * expr)) : list expr :=
  List.filter
    (fun soln =>
       is_lt (Abs (im (N (subs sub soln)))) (Flt (1 # 100000000000000000000))
       && is_ge (re (N (subs sub soln))) (Num 0))
    solns.

(** [pz_cosbeta_varphi_eqn], from the two equations and the exponent
    it is built on. *)
Definition pz_cosbeta_varphi_eqn_of (pz_p_beta_eqn p_varphi_beta_eqn : eqn)
    (eta_dbldenom : Z) : eqn :=
  let pz_cosbeta_varphi_tmp_eqn :=
    subs_eq [(sin beta, sqrt (Num 1 - cos beta ^ Num 2))]
      (subs_eq [(Abs (cos beta), cos beta); (Abs (sin beta), sin beta)]
         (subs_eq [(Abs (tan beta), Abs (sin beta) / Abs (cos beta))]
            (subs_eq eta_sub
               (subs_eq [(varphi_r, varphi)]
                  (subs_eq [(p, rhs p_varphi_beta_eqn)] pz_p_beta_eqn))))) in
  let dbl := Num (inject_Z eta_dbldenom) in
  Eq (lhs pz_cosbeta_varphi_tmp_eqn ^ dbl)
     (rhs pz_cosbeta_varphi_tmp_eqn ^ dbl).

Definition define_idtx_fgtx_eqns : M unit :=
  pz_p_beta_eqn ← self_eq "pz_p_beta_eqn";
  p_varphi_beta_eqn ← self_eq "p_varphi_beta_eqn";
  eta_dbldenom ← self_int "eta_dbldenom";
  let pz_cosbeta_varphi_eqn :=
    pz_cosbeta_varphi_eqn_of pz_p_beta_eqn p_varphi_beta_eqn eta_dbldenom in
  setattr "pz_cosbeta_varphi_eqn" (VEq pz_cosbeta_varphi_eqn);;
  setattr "cosbetasqrd_pz_varphi_solns" VNone;;
  setattr "cosbetasqrd_pz_varphi_soln" VNone;;
  setattr "fgtx_cossqrdbeta_pz_varphi_eqn" VNone;;
  setattr "fgtx_tanbeta_pz_varphi_eqn" VNone;;
  setattr "fgtx_px_pz_varphi_eqn" VNone;;
  setattr "idtx_rdotx_pz_varphi_eqn" VNone;;
  setattr "idtx_rdotz_pz_varphi_eqn" VNone;;
  let cosbetasqrd_pz_varphi_solns :=
    solve pz_cosbeta_varphi_eqn (cos beta ^ Num 2) in
  setattr "cosbetasqrd_pz_varphi_solns" (VList cosbetasqrd_pz_varphi_solns);;
  if (Qeqb (cfg_eta self) (1 # 4) || Qeqb (cfg_eta self) (3 # 2))
     && String.eqb (beta_type self) "tan" then
    print ("Cannot compute all indicatrix equations for $\tan\beta$ model and $\eta=$"
           ++ str_eta (cfg_eta self))
  else
    let first_probe :=
      find_cosbetasqrd_root cosbetasqrd_pz_varphi_solns
        [(varphi, Num 1); (pz, Flt (- (1 # 100)))] in
    setattr "cosbetasqrd_pz_varphi_soln" (VList first_probe);;
    cosbetasqrd_pz_varphi_soln ←
      match first_probe with
      | [] =>
          let second_probe :=
            find_cosbetasqrd_root cosbetasqrd_pz_varphi_solns
              [(varphi, Num 10); (pz, Flt (- (1 # 2)))] in
          setattr "cosbetasqrd_pz_varphi_soln" (VList second_probe);;
          mret second_probe
      | _ => mret first_probe
      end;
    root ← index cosbetasqrd_pz_varphi_soln 0;
    let fgtx_cossqrdbeta_pz_varphi_eqn := Eq (cos beta ^ Num 2) root in
    setattr "fgtx_cossqrdbeta_pz_varphi_eqn" (VEq fgtx_cossqrdbeta_pz_varphi_eqn);;
    let fgtx_tanbeta_pz_varphi_eqn :=
      Eq (tan beta)
         (sqrt (Num 1 / rhs fgtx_cossqrdbeta_pz_varphi_eqn - Num 1)) in
    setattr "fgtx_tanbeta_pz_varphi_eqn" (VEq fgtx_tanbeta_pz_varphi_eqn);;
    let fgtx_px_pz_varphi_eqn :=
      factor_eq (Eq px (- pz * rhs fgtx_tanbeta_pz_varphi_eqn)) in
    setattr "fgtx_px_pz_varphi_eqn" (VEq fgtx_px_pz_varphi_eqn);;
    gstar_rhs ← self_mateq "gstar_varphi_pxpz_eqn";
    g_xx ← lift_index (mget gstar_rhs 0 0);
    g_zx ← lift_index (mget gstar_rhs 1 0);
    g_xz ← lift_index (mget gstar_rhs 0 1);
    g_zz ← lift_index (mget gstar_rhs 1 1);
    let on_curve := [(px, rhs fgtx_px_pz_varphi_eqn); (varphi_r, varphi)] in
    setattr "idtx_rdotx_pz_varphi_eqn"
      (VEq (factor_eq (Eq rx (subs on_curve (g_xx * px + g_xz * pz)))));;
    setattr "idtx_rdotz_pz_varphi_eqn"
      (VEq (factor_eq
              (factor_eq (Eq rz (subs on_curve (g_zx * px + g_zz * pz)))))).

Definition lambdify_args : list expr := [rx; rdotx; rdotz; varepsilon].

Definition prep_geodesic_eqns (parameters : option (list (expr * expr)))
  : M unit :=
  setattr "gstar_ij_tanbeta_mat" VNone;;
  setattr "g_ij_tanbeta_mat" VNone;;
  setattr "tanbeta_poly_eqn" VNone;;
  setattr "tanbeta_eqn" VNone;;
  setattr "gstar_ij_tanalpha_mat" VNone;;
  setattr "gstar_ij_mat" VNone;;
  setattr "g_ij_tanalpha_mat" VNone;;
  setattr "g_ij_mat" VNone;;
  setattr "g_ij_mat_lambdified" VNone;;
  setattr "gstar_ij_mat_lambdified" VNone;;
  if Qleb 1 (cfg_eta self) && String.eqb (beta_type self) "sin" then
    print "Cannot compute geodesic equations for $\sin\beta$ model and $\eta>=1$"
  else
    (* if parameters is None: return *)
    H_eqn ← self_eq "H_eqn";
    let H_ := subs mu_eta_sub (rhs H_eqn) in
    (* Assume indexing here ranges in [1,2] *)
    let p_i_lambda (i : nat) := nth (i - 1) [px; pz] pz in
    let gstar_ij_lambda (i j : nat) :=
      simplify (Num (2 # 2) * diff (diff H_ (p_i_lambda i)) (p_i_lambda j)) in
    let gstar_ij_mat :=
      [[gstar_ij_lambda 1 1; gstar_ij_lambda 2 1];
       [gstar_ij_lambda 1 2; gstar_ij_lambda 2 2]]%nat in
    let gstar_ij_pxpz_mat := subs_mat [(varphi_r, varphi_rx)] gstar_ij_mat in
    let g_ij_pxpz_mat :=
      subs_mat [(varphi_r, varphi_rx)] (inverse gstar_ij_mat) in
    (* FIX THIS *)
    px_pz_tanbeta_eqn ← self_eq "px_pz_tanbeta_eqn";
    let gstar_ij_tanbeta_mat :=
      mat_map simplify (subs_mat (e2d px_pz_tanbeta_eqn) gstar_ij_pxpz_mat) in
    setattr "gstar_ij_tanbeta_mat" (VMat gstar_ij_tanbeta_mat);;
    let g_ij_tanbeta_mat :=
      mat_map simplify (subs_mat (e2d px_pz_tanbeta_eqn) g_ij_pxpz_mat) in
    setattr "g_ij_tanbeta_mat" (VMat g_ij_tanbeta_mat);;
    tanalpha_beta_eqn ← self_eq "tanalpha_beta_eqn";
    let tanalpha_beta_eqn := subs_eq mu_eta_sub tanalpha_beta_eqn in
    let tanbeta_poly_eqn :=
      subs_eq [(tan alpha, ta)]
        (Eq (numer (rhs tanalpha_beta_eqn)
             - lhs tanalpha_beta_eqn * denom (rhs tanalpha_beta_eqn))
            (Num 0)) in
    (* HACK!!!  which of the (?) two roots should be chosen? *)
    t ← index (solve tanbeta_poly_eqn (tan beta)) 0;
    let tanbeta_eqn := Eq (tan beta) t in
    setattr "tanbeta_poly_eqn" (VEq tanbeta_poly_eqn);;
    setattr "tanbeta_eqn" (VEq tanbeta_eqn);;
    let cosbeta_eqn :=
      Eq (cos beta) (Num 1 / sqrt (Num 1 + tan beta ^ Num 2)) in
    let sinbeta_eqn :=
      Eq (sin beta) (sqrt (Num 1 - Num 1 / (Num 1 + tan beta ^ Num 2))) in
    let sintwobeta_eqn :=
      Eq (sin (Num 2 * beta)) (cos beta ^ Num 2 - sin beta ^ Num 2) in
    (* Replace all refs to beta with refs to alpha *)
    let to_alpha (m : matrix) : matrix :=
      subs_mat mu_eta_sub
        (subs_mat (e2d tanbeta_eqn)
           (subs_mat (e2d cosbeta_eqn)
              (subs_mat (e2d sinbeta_eqn)
                 (subs_mat (e2d sintwobeta_eqn) m)))) in
    let specialize (m : matrix) : M matrix :=
      varphi_rx_eqn ← self_eq "varphi_rx_eqn";
      m' ← subs_parameters parameters
             (subs_mat (e2d (subs_eq [(varphi_r, varphi_rx)] varphi_rx_eqn))
                (subs_mat [(ta, rdotz / rdotx)] m));
      mret (subs_mat mu_eta_sub m') in
    let gstar_ij_tanalpha_mat := to_alpha gstar_ij_tanbeta_mat in
    setattr "gstar_ij_tanalpha_mat" (VMat gstar_ij_tanalpha_mat);;
    (* Use tan(alpha) equation instead of hardwired sub here *)
    gstar_ij_mat' ← specialize gstar_ij_tanalpha_mat;
    setattr "gstar_ij_mat" (VMat gstar_ij_mat');;
    let g_ij_tanalpha_mat := to_alpha g_ij_tanbeta_mat in
    setattr "g_ij_tanalpha_mat" (VMat g_ij_tanalpha_mat);;
    g_ij_mat ← specialize g_ij_tanalpha_mat;
    setattr "g_ij_mat" (VMat g_ij_mat);;
    setattr "g_ij_mat_lambdified" (VLambdaMat lambdify_args g_ij_mat);;
    setattr "gstar_ij_mat_lambdified" (VLambdaMat lambdify_args gstar_ij_mat').

(** The Christoffel coefficient [christoffel_ij_k_rx_rdot_lambda(i, j, k)]
    over the stored [gstar_ij_mat] and [dg_rk_ij_mat]. *)
Definition christoffel_ij_k_rx_rdot (gstar_ij_mat : matrix)
    (dg_rk_ij_mat : list (list matrix)) (i_ j_ k_ : nat) : option expr :=
  let gstar_ij_lambda (i j : nat) := mget gstar_ij_mat i j in
  let dg_ij_rk_lambda (i j k : nat) : option expr :=
    plane ← nth_error dg_rk_ij_mat k;
    m ← nth_error plane 0;
    mget m i j in
  let christoffel_ij_k_raw (m_ : nat) : option expr :=
    gs ← gstar_ij_lambda k_ m_;
    a ← dg_ij_rk_lambda m_ i_ j_;
    b ← dg_ij_rk_lambda m_ j_ i_;
    c ← dg_ij_rk_lambda i_ j_ m_;
    Some (Num (1 # 2) * gs * (a + b - c)) in
  r0 ← christoffel_ij_k_raw 0%nat;
  r1 ← christoffel_ij_k_raw 1%nat;
  Some (r0 + r1).

Definition define_geodesic_eqns (parameters : option (list (expr * expr)))
  : M unit :=
  setattr "dg_rk_ij_mat" VNone;;
  setattr "christoffel_ij_k_rx_rdot_lambda" VNone;;
  setattr "christoffel_ij_k_lambda" VNone;;
  setattr "geodesic_eqns" VNone;;
  setattr "vdotx_lambdified" VNone;;
  setattr "vdotz_lambdified" VNone;;
  if Qleb 1 (cfg_eta self) && String.eqb (beta_type self) "sin" then
    print "Cannot compute geodesic equations for $\sin\beta$ model and $\eta>=1$"
  else
    (* Manipulate metric tensors *)
    g_ij_mat ← self_mat "g_ij_mat";
    let dg_rk_ij_mat := [[diff_mat g_ij_mat rx]; [diff_mat g_ij_mat rz]] in
    setattr "dg_rk_ij_mat" (VArray dg_rk_ij_mat);;
    (* Generate Christoffel "symbols" tensor *)
    setattr "christoffel_ij_k_rx_rdot_lambda"
      (VClosure "christoffel_ij_k_rx_rdot_lambda");;
    gstar_ij_mat ← self_mat "gstar_ij_mat";
    let gamma := christoffel_ij_k_rx_rdot gstar_ij_mat dg_rk_ij_mat in
    christoffel_ij_k_rx_rdot_list ←
      lift_index
        (mapM (fun k_ => mapM (fun j_ => mapM (fun i_ => gamma i_ j_ k_)
                                           [0; 1]%nat)
                           [0; 1]%nat)
              [0; 1]%nat);
    setattr "christoffel_ij_k_lambda"
      (VLambdaTable lambdify_args christoffel_ij_k_rx_rdot_list);;
    (* Obtain geodesic equations as a set of coupled 1st order ODEs *)
    g000 ← lift_index (gamma 0 0 0)%nat;
    g010 ← lift_index (gamma 0 1 0)%nat;
    g110 ← lift_index (gamma 1 1 0)%nat;
    g001 ← lift_index (gamma 0 0 1)%nat;
    g011 ← lift_index (gamma 0 1 1)%nat;
    g111 ← lift_index (gamma 1 1 1)%nat;
    let geodesic_eqns :=
      [Eq rdotx_true rdotx;
       Eq rdotz_true rdotz;
       (* Use symmetry to abbreviate sum of diagonal terms *)
       Eq vdotx (- g000 * rdotx * rdotx - Num 2 * g010 * rdotx * rdotz
                 - g110 * rdotz * rdotz);
       Eq vdotz (- g001 * rdotx * rdotx - Num 2 * g011 * rdotx * rdotz
                 - g111 * rdotz * rdotz)] in
    setattr "geodesic_eqns" (VEqs geodesic_eqns);;
    v2 ← index geodesic_eqns 2;
    setattr "vdotx_lambdified" (VLambda lambdify_args (rhs v2));;
    v3 ← index geodesic_eqns 3;
    setattr "vdotz_lambdified" (VLambda lambdify_args (rhs v3)).

Definition define_px_poly_eqn (eta_choice : option Q) : M unit :=
  let eta_ :=
    match eta_choice with
    | None => cfg_eta self
    | Some e => e
    end in
  px_xiv_varphi_eqn ← self_eq "px_xiv_varphi_eqn";
  let tmp_eqn := simplify_eq (subs_eq [(eta, Num eta_)] px_xiv_varphi_eqn) in
  let poly_px_xiv_varphi_eqn :=
    if Qleb eta_ 1 then poly (lhs tmp_eqn) px
    else poly (numer (lhs tmp_eqn)) px in
  setattr "poly_px_xiv_varphi_eqn" (VPoly poly_px_xiv_varphi_eqn px);;
  varphi_rx_eqn ← self_eq "varphi_rx_eqn";
  setattr "poly_px_xiv0_eqn"
    (VEq (Eq (subs [(xiv, xiv_0)]
                (subs (e2d varphi_rx_eqn) poly_px_xiv_varphi_eqn))
             (Num 0))).

Definition prep_ibc_eqns : M unit :=
  setattr "pz0_xiv0_eqn" (VEq (Eq pz_0 (- Num 1 / xiv_0)));; (* changed sign *)
  rdot_p_unity_eqn ← self_eq "rdot_p_unity_eqn";
  rdotx_pxpz_eqn ← self_eq "rdotx_pxpz_eqn";
  rdotz_pxpz_eqn ← self_eq "rdotz_pxpz_eqn";
  setattr "pzpx_unity_eqn"
    (VEq (subs_eq [(Abs pz, - pz)]
            (expand_eq
               (simplify_eq
                  (subs_eq [(varphi_r, varphi)]
                     (subs_eq [(rdotx, rhs rdotx_pxpz_eqn);
                               (rdotz, rhs rdotz_pxpz_eqn)]
                        rdot_p_unity_eqn)))))).

Definition boundary_h : list (string * eqn) :=
  [("planar", Eq h (h_0 * x / x_1));
   ("convex-up",
    simplify_eq
      (Eq h (h_0 * tanh (kappa_h * x / x_1) / tanh (kappa_h / x_1))));
   ("concave-up",
    simplify_eq
      (Eq h (h_0 + h_0 * tanh (- kappa_h * (x_1 - x) / x_1)
                   / tanh (kappa_h / x_1))))].

Definition define_ibc_eqns : M unit :=
  (* Math concave-up not geo concave-up, i.e., with minimum
     Math convex-up not geo convex-up, i.e., with maximum *)
  setattr "boundary_eqns"
    (VDict
       (map (fun '(ibc_type, h_eqn) =>
               (ibc_type,
                [("h", h_eqn);
                 ("gradh", Eq (Deriv h_fn x) (diff (rhs h_eqn) x))]))
            boundary_h)).

Definition set_ibc_eqns : M unit :=
  let cosbeta_eqn :=
    Eq (cos beta) (Num 1 / sqrt (Num 1 + tan beta ^ Num 2)) in
  let sinbeta_eqn :=
    Eq (sin beta) (sqrt (Num 1 - Num 1 / (Num 1 + tan beta ^ Num 2))) in
  boundary_eqns ← self_dict "boundary_eqns";
  profile ← item boundary_eqns (ibc_type self);
  h_eqn ← item profile "h";
  setattr "rz_initial_eqn" (VEq (subs_eq [(h, rz); (x, rx)] h_eqn));;
  gradh ← item profile "gradh";
  let tanbeta_initial_eqn := Eq (tan beta) (rhs gradh) in
  setattr "tanbeta_initial_eqn" (VEq tanbeta_initial_eqn);;
  p_varphi_beta_eqn ← self_eq "p_varphi_beta_eqn";
  varphi_rx_eqn ← self_eq "varphi_rx_eqn";
  let p_initial_eqn :=
    simplify_eq
      (subs_eq [(rx, x)]
         (subs_eq [(lhs tanbeta_initial_eqn, rhs tanbeta_initial_eqn)]
            (subs_eq (e2d varphi_rx_eqn) p_varphi_beta_eqn))) in
  setattr "p_initial_eqn" (VEq p_initial_eqn);;
  let at_boundary (e : expr) : expr :=
    simplify
      (subs [(tan beta, rhs tanbeta_initial_eqn); (rx, x)]
         (subs (e2d cosbeta_eqn) (subs (e2d sinbeta_eqn) e))) in
  setattr "px_initial_eqn"
    (VEq (Eq px (at_boundary (rhs p_initial_eqn * sin beta))));;
  setattr "pz_initial_eqn"
    (VEq (Eq pz (at_boundary (- rhs p_initial_eqn * cos beta)))).

(** [Equations.__init__]: the derivation pipeline. *)
Definition init (parameters : option (list (expr * expr)))
    (do_idtx do_geodesic do_nothing : bool) : M unit :=
  if do_nothing then mret tt
  else
    define_p_eqns;;
    define_r_eqns;;
    define_xi_eqns;;
    define_xi_model_eqn;;
    define_xi_related_eqns;;
    define_varphi_model_eqn;;
    define_varphi_related_eqns;;
    define_Fstar_eqns;;
    define_H_eqns;;
    define_rdot_eqns;;
    define_pdot_eqns;;
    define_Hamiltons_eqns;;
    define_tanalpha_eqns;;
    define_tanbeta_eqns true;;
    define_g_eqns;;
    (if do_idtx then define_idtx_fgtx_eqns else mret tt);;
    (if do_geodesic then
       prep_geodesic_eqns (if do_raw self then None else parameters);;
       define_geodesic_eqns (if do_raw self then None else parameters)
     else mret tt);;
    define_px_poly_eqn None;;
    prep_ibc_eqns;;
    define_ibc_eqns;;
    set_ibc_eqns.

End Engine.

(** A new instance: no derived attribute yet, nothing printed. *)
Definition fresh : state := mkState ∅ [].

(** [Equations(parameters, eta, mu, ...)]: the outcome of construction. *)
Definition Equations {cas : SymPy} (self : config)
    (parameters : option (list (expr * expr)))
    (do_idtx do_geodesic do_nothing : bool) : res unit * state :=
  init self parameters do_idtx do_geodesic do_nothing fresh.

(** ** Notions used to state the properties *)

(** What the engine relies on when it calls [simplify]: where an
    expression is well defined, rewriting changes neither its value nor
    its being well defined. *)
Class SymPySound (cas : SymPy) : Prop := {
  simplify_sound : forall rho e, wd rho e -> eval rho (simplify e) = eval rho e;
  simplify_wd : forall rho e, wd rho e -> wd rho (simplify e)
}.

(** A method leaves attribute [k] as it found it, whether it returns or
    raises. *)
Definition keeps {A : Type} (k : string) (m : M A) : Prop :=
  forall s, attrs (m s).2 !! k = attrs s !! k.

(** [k] is none of the attribute names in [ws]. *)
Definition not_among (k : string) (ws : list string) : bool :=
  forallb (fun w => negb (String.eqb k w)) ws.

(** An attribute that is set to [None]: the explicit "not available". *)
Definition unavailable (s : state) (k : string) : Prop :=
  attrs s !! k = Some VNone.

(** An attribute that holds a result. *)
Definition available (s : state) (k : string) : Prop :=
  exists v, attrs s !! k = Some v /\ v <> VNone.

(** The printed output of a method run from [s]. *)
Definition printed (s s' : state) (msgs : list string) : Prop :=
  stdout s' = (stdout s ++ msgs)%list.

(** A literal zero: what SymPy's [Mul] returns for a zero coefficient. *)
Definition is_zero (e : expr) : bool :=
  match e with
  | Num z => Qeq_bool z 0
  | _ => false
  end.

(** A method that raises from every state. *)
Definition never_returns {A : Type} (m : M A) : Prop :=
  forall s a, (m s).1 <> Ret a.

(** The attributes each method assigns. *)
Definition writes_define_p_eqns : list string :=
  ["p_covec_eqn"; "px_p_beta_eqn"; "pz_p_beta_eqn"; "p_norm_pxpz_eqn";
   "tanbeta_pxpz_eqn"; "sinbeta_pxpz_eqn"; "cosbeta_pxpz_eqn";
   "pz_px_tanbeta_eqn"; "px_pz_tanbeta_eqn"; "p_pz_cosbeta_eqn"].
Definition writes_define_r_eqns : list string :=
  ["rx_r_alpha_eqn"; "rz_r_alpha_eqn"].
Definition writes_define_xi_eqns : list string :=
  ["xi_p_eqn"; "xiv_pz_eqn"; "p_xi_eqn"; "pz_xiv_eqn"].
Definition writes_define_xi_model_eqn : list string :=
  ["xi_varphi_beta_eqn"].
Definition writes_define_xi_related_eqns : list string :=
  ["xiv_varphi_pxpz_eqn"; "px_xiv_varphi_eqn"; "eta_dbldenom"].
Definition writes_define_varphi_model_eqn : list string :=
  ["varphi_model_ramp_eqn"; "varphi_model_rampmu_chi0_eqn";
   "varphi_model_rampflat_eqn"; "varphi_model_rampflatmu_eqn";
   "varphi_rx_eqn"].
Definition writes_define_varphi_related_eqns : list string :=
  ["p_varphi_beta_eqn"; "p_varphi_pxpz_eqn"; "p_rx_pxpz_eqn";
   "p_rx_tanbeta_eqn"; "px_beta_eqn"; "pz_beta_eqn"; "xiv_pxpz_eqn";
   "pz_varphi_beta_eqn"; "px_varphi_beta_eqn"; "pz_varphi_rx_beta_eqn";
   "px_varphi_rx_beta_eqn"].
Definition writes_define_Fstar_eqns : list string :=
  ["Okubo_Fstar_eqn"; "Fstar_eqn"].
Definition writes_define_H_eqns : list string :=
  ["H_eqn"; "H_varphi_rx_eqn"].
Definition writes_define_rdot_eqns : list string :=
  ["rdotx_rdot_alpha_eqn"; "rdotz_rdot_alpha_eqn"; "rdotx_pxpz_eqn";
   "rdotz_pxpz_eqn"; "rdotz_on_rdotx_eqn"; "rdotz_on_rdotx_tanbeta_eqn";
   "rdot_vec_eqn"; "rdot_p_unity_eqn"].
Definition writes_define_pdot_eqns : list string :=
  ["pdotx_pxpz_eqn"; "pdotz_pxpz_eqn"; "pdot_covec_eqn"].
Definition writes_define_Hamiltons_eqns : list string :=
  ["hamiltons_eqns"].
Definition writes_define_tanalpha_eqns : list string :=
  ["tanalpha_rdot_eqn"; "tanalpha_pxpz_eqn"; "tanalpha_beta_eqn"].
Definition writes_define_tanbeta_eqns : list string :=
  ["beta_at_alpha_extremum_eqn"; "beta_at_alpha_extremum_numerical_eqn";
   "tanbeta_alpha_eqn"].
Definition writes_define_g_eqns : list string :=
  ["gstar_varphi_pxpz_eqn"; "det_gstar_varphi_pxpz_eqn"; "g_varphi_pxpz_eqn";
   "gstar_eigen_varphi_pxpz"; "gstar_eigenvalues"; "gstar_eigenvectors"].
Definition writes_define_idtx_fgtx_eqns : list string :=
  ["pz_cosbeta_varphi_eqn"; "cosbetasqrd_pz_varphi_solns";
   "cosbetasqrd_pz_varphi_soln"; "fgtx_cossqrdbeta_pz_varphi_eqn";
   "fgtx_tanbeta_pz_varphi_eqn"; "fgtx_px_pz_varphi_eqn";
   "idtx_rdotx_pz_varphi_eqn"; "idtx_rdotz_pz_varphi_eqn"].
Definition writes_prep_geodesic_eqns : list string :=
  ["gstar_ij_tanbeta_mat"; "g_ij_tanbeta_mat"; "tanbeta_poly_eqn";
   "tanbeta_eqn"; "gstar_ij_tanalpha_mat"; "gstar_ij_mat";
   "g_ij_tanalpha_mat"; "g_ij_mat"; "g_ij_mat_lambdified";
   "gstar_ij_mat_lambdified"].
Definition writes_define_geodesic_eqns : list string :=
  ["dg_rk_ij_mat"; "christoffel_ij_k_rx_rdot_lambda";
   "christoffel_ij_k_lambda"; "geodesic_eqns"; "vdotx_lambdified";
   "vdotz_lambdified"].
Definition writes_define_px_poly_eqn : list string :=
  ["poly_px_xiv_varphi_eqn"; "poly_px_xiv0_eqn"].
Definition writes_prep_ibc_eqns : list string :=
  ["pz0_xiv0_eqn"; "pzpx_unity_eqn"].
Definition writes_define_ibc_eqns : list string :=
  ["boundary_eqns"].
Definition writes_set_ibc_eqns : list string :=
  ["rz_initial_eqn"; "tanbeta_initial_eqn"; "p_initial_eqn";
   "px_initial_eqn"; "pz_initial_eqn"].

(** ** A reference computer-algebra instance and sample inputs

    The theorems hold for every [SymPy] instance; the examples run the
    engine on a small one.  It knows the two trigonometric identities
    of the slowness decomposition and rewrites nothing else.  Its
    solver lists no root for an equation whose two sides are already
    equal (an identically true equation has no solution set to list),
    isolates an unknown that occurs once, and otherwise answers with
    one implicit root. *)

Fixpoint occurs (t e : expr) : bool :=
  expr_eqb t e
  || match e with
     | Add a b | Mul a b | Pow a b => occurs t a || occurs t b
     | App _ a | Deriv a _ | Root a _ => occurs t a
     | _ => false
     end.

(** [isolate t e r]: the [t] with [e = r], for [t] occurring once in [e]. *)
Fixpoint isolate (t e r : expr) : option expr :=
  if expr_eqb t e then Some r
  else
    match e with
    | Add a b =>
        if occurs t a then if occurs t b then None else isolate t a (sub r b)
        else isolate t b (sub r a)
    | Mul a b =>
        if occurs t a then if occurs t b then None else isolate t a (div r b)
        else isolate t b (div r a)
    | Pow a b =>
        if occurs t a && negb (occurs t b)
        then isolate t a (pow r (pow b (Num (-1))))
        else None
    | _ => None
    end.

Definition reference_solve (q : eqn) (t : expr) : list expr :=
  if expr_eqb (lhs q) (rhs q) then []
  else
    let isolated :=
      if occurs t (lhs q)
      then if occurs t (rhs q) then None else isolate t (lhs q) (rhs q)
      else isolate t (rhs q) (lhs q) in
    match isolated with
    | Some r => [r]
    | None => [Root (sub (lhs q) (rhs q)) t]
    end.

(** [sqrt((p sin(beta))^2 + (-p cos(beta))^2) = p] *)
Definition reference_trigsimp (e : expr) : expr :=
  if expr_eqb e
       (sqrt (add (pow (mul p (sin beta)) (Num 2))
                  (pow (mul (neg p) (cos beta)) (Num 2))))
  then p else e.

(** [-(p sin(beta)) / (-p cos(beta)) = tan(beta)] *)
Definition reference_simplify (e : expr) : expr :=
  if expr_eqb e (div (neg (mul p (sin beta))) (mul (neg p) (cos beta)))
  then tan beta else e.

Definition reference_cas : SymPy := {|
  simplify := reference_simplify;
  trigsimp := reference_trigsimp;
  factor := fun e => e;
  expand := fun e => e;
  solve := reference_solve;
  integrate := fun e x => Mul e x;
  numer := fun e => e;
  denom := fun e => Num 1;
  im := fun e => Num 0;
  re := fun e => e;
  N := fun e => e;
  float := fun e => e;
  is_lt := fun a b => true;
  is_gt := fun a b => true;
  is_ge := fun a b => true;
  det := fun m => Num 0;
  inverse := fun m => m;
  eigenvects := fun m => [(Num 0, 1%Z, [m]); (Num 1, 1%Z, [m])];
  poly := fun e x => e
|}.

(** The documented default: [eta = 3/2], [mu = 3/4], sine tilt, ramp
    flow, convex-up boundary. *)
Definition default_config : config := {|
  cfg_eta := 3 # 2;
  cfg_mu := 3 # 4;
  beta_type := "sin";
  varphi_type := "ramp";
  ibc_type := "convex-up";
  do_raw := false
|}.

Definition with_eta (q : Q) (c : config) : config := {|
  cfg_eta := q;
  cfg_mu := cfg_mu c;
  beta_type := beta_type c;
  varphi_type := varphi_type c;
  ibc_type := ibc_type c;
  do_raw := do_raw c
|}.

Definition with_beta_type (b : string) (c : config) : config := {|
  cfg_eta := cfg_eta c;
  cfg_mu := cfg_mu c;
  beta_type := b;
  varphi_type := varphi_type c;
  ibc_type := ibc_type c;
  do_raw := do_raw c
|}.

Definition with_varphi_type (v : string) (c : config) : config := {|
  cfg_eta := cfg_eta c;
  cfg_mu := cfg_mu c;
  beta_type := beta_type c;
  varphi_type := v;
  ibc_type := ibc_type c;
  do_raw := do_raw c
|}.

Definition with_ibc_type (i : string) (c : config) : config := {|
  cfg_eta := cfg_eta c;
  cfg_mu := cfg_mu c;
  beta_type := beta_type c;
  varphi_type := varphi_type c;
  ibc_type := i;
  do_raw := do_raw c
|}.

Definition with_mu (q : Q) (c : config) : config := {|
  cfg_eta := cfg_eta c;
  cfg_mu := q;
  beta_type := beta_type c;
  varphi_type := varphi_type c;
  ibc_type := ibc_type c;
  do_raw := do_raw c
|}.

(** A state that holds just what the metric stage reads: the velocity
    vector and the slowness covector. *)
Definition velocity_state : state :=
  mkState
    (<["rdot_vec_eqn" := VMatEq rdotvec [[rdotx]; [rdotz]]]>
       (<["p_covec_eqn" := VMatEq pcovec (transpose [[px]; [pz]])]> ∅))
    [].

(** *** An instance that tells real roots from complex ones

    For the root selection of [define_tanbeta_eqns] the examples need
    more of the computer algebra: a solver that returns the two roots of
    a quadratic, and an imaginary part that is zero only on what is known
    to be a real number. *)

(** What is known of the value of a closed expression: an exact
    rational, a real number whose value is not tracked (a root of a
    non-negative rational), or nothing (a root of a negative number, a
    division by zero, a symbol). *)
Inductive realness : Type :=
| Exact (q : Q)
| SomeReal
| NotReal.

Fixpoint realness_of (e : expr) : realness :=
  match e with
  | Num q | Flt q => Exact q
  | Add a b =>
      match realness_of a, realness_of b with
      | Exact p, Exact q => Exact (Qred (p + q))
      | NotReal, _ | _, NotReal => NotReal
      | _, _ => SomeReal
      end
  | Mul a b =>
      match realness_of a, realness_of b with
      | Exact p, Exact q => Exact (Qred (p * q))
      | NotReal, _ | _, NotReal => NotReal
      | _, _ => SomeReal
      end
  | Pow a (Num q) =>
      match realness_of a, is_int q with
      | Exact p, Some n =>
          if Qeq_bool p 0 && (n <? 0)%Z then NotReal
          else Exact (Qred (Qpower p n))
      | Exact p, None => if Qle_bool 0 p then SomeReal else NotReal
      | SomeReal, Some n => if (0 <=? n)%Z then SomeReal else NotReal
      | _, _ => NotReal
      end
  | App Fatan a =>
      match realness_of a with
      | NotReal => NotReal
      | _ => SomeReal
      end
  | _ => NotReal
  end.

(** [im(e)]: zero on a real number, left unevaluated otherwise. *)
Definition probe_im (e : expr) : expr :=
  match realness_of e with
  | NotReal => App Fim e
  | _ => Num 0
  end.

(** An expression that is positive by its shape: a positive number, a
    sum or product of such, a power or an arctangent of one. *)
Fixpoint positive (e : expr) : bool :=
  match e with
  | Num q | Flt q => negb (Qle_bool q 0)
  | Add a b | Mul a b => positive a && positive b
  | Pow a (Num _) => positive a
  | App Fatan a => positive a
  | _ => false
  end.

(** [a > b] as far as the shape of [a - b] shows it. *)
Definition probe_gt (a b : expr) : bool := positive (sub a b).

(** Polynomials in the unknown, as lists of coefficients, the constant
    one first. *)
Fixpoint padd (a b : list expr) : list expr :=
  match a, b with
  | [], _ => b
  | _, [] => a
  | x :: a', y :: b' => add x y :: padd a' b'
  end.

Fixpoint pmul (a b : list expr) : list expr :=
  match a with
  | [] => []
  | x :: a' => padd (map (mul x) b) (Num 0 :: pmul a' b)
  end.

Fixpoint ppow (a : list expr) (n : nat) : list expr :=
  match n with
  | O => [Num 1]
  | S n' => pmul a (ppow a n')
  end.

(** [e] as a quotient of two polynomials in [t]. *)
Fixpoint as_quotient (t e : expr) : option (list expr * list expr) :=
  if expr_eqb t e then Some ([Num 0; Num 1], [Num 1])
  else if negb (occurs t e) then Some ([e], [Num 1])
  else
    match e with
    | Add a b =>
        match as_quotient t a, as_quotient t b with
        | Some (na, da), Some (nb, db) =>
            Some (padd (pmul na db) (pmul nb da), pmul da db)
        | _, _ => None
        end
    | Mul a b =>
        match as_quotient t a, as_quotient t b with
        | Some (na, da), Some (nb, db) => Some (pmul na nb, pmul da db)
        | _, _ => None
        end
    | Pow a (Num q) =>
        match as_quotient t a, is_int q with
        | Some (na, da), Some n =>
            if (0 <=? n)%Z then Some (ppow na (Z.to_nat n), ppow da (Z.to_nat n))
            else Some (ppow da (Z.to_nat (- n)), ppow na (Z.to_nat (- n)))
        | _, _ => None
        end
    | _ => None
    end.

(** Drops the leading coefficients that are zero. *)
Fixpoint trim (a : list expr) : list expr :=
  match a with
  | [] => []
  | x :: a' =>
      match trim a', x with
      | [], Num q => if Qeq_bool q 0 then [] else [x]
      | a'', _ => x :: a''
      end
  end.

(** The roots of [lhs = rhs] in [t] when it is, cleared of
    denominators, of degree one or two: for degree two the root with
    the minus sign first; the reference solver otherwise. *)
Definition quadratic_solve (q : eqn) (t : expr) : list expr :=
  match as_quotient t (sub (lhs q) (rhs q)) with
  | Some (n, _) =>
      match trim n with
      | [c0; c1] => [div (neg c0) c1]
      | [c0; c1; c2] =>
          let disc :=
            sqrt (sub (pow c1 (Num 2)) (mul (Num 4) (mul c2 c0))) in
          [div (sub (neg c1) disc) (mul (Num 2) c2);
           div (add (neg c1) disc) (mul (Num 2) c2)]
      | _ => reference_solve q t
      end
  | None => reference_solve q t
  end.

Definition quadratic_cas : SymPy := {|
  simplify := reference_simplify;
  trigsimp := reference_trigsimp;
  factor := fun e => e;
  expand := fun e => e;
  solve := quadratic_solve;
  integrate := fun e x => Mul e x;
  numer := fun e => e;
  denom := fun e => Num 1;
  im := probe_im;
  re := fun e => e;
  N := fun e => e;
  float := fun e => e;
  is_lt := fun a b => true;
  is_gt := probe_gt;
  is_ge := fun a b => true;
  det := fun m => Num 0;
  inverse := fun m => m;
  eigenvects := fun m => [(Num 0, 1%Z, [m]); (Num 1, 1%Z, [m])];
  poly := fun e x => e
|}.

(** The same, with a solver that answers with a given list of roots
    when asked for [unknown]: for lists of roots that the quadratic
    solver does not produce. *)
Definition listing_cas (unknown : expr) (roots : list expr) : SymPy := {|
  simplify := reference_simplify;
  trigsimp := reference_trigsimp;
  factor := fun e => e;
  expand := fun e => e;
  solve := fun q t =>
    if expr_eqb t unknown then roots else quadratic_solve q t;
  integrate := fun e x => Mul e x;
  numer := fun e => e;
  denom := fun e => Num 1;
  im := probe_im;
  re := fun e => e;
  N := fun e => e;
  float := fun e => e;
  is_lt := fun a b => true;
  is_gt := probe_gt;
  is_ge := fun a b => true;
  det := fun m => Num 0;
  inverse := fun m => m;
  eigenvects := fun m => [(Num 0, 1%Z, [m]); (Num 1, 1%Z, [m])];
  poly := fun e x => e
|}.

(** The forward relation between the angles for the sine tilt, as the
    docstring of [define_tanalpha_eqns] gives it,
    [tan(alpha) = (eta - 1) tan(beta) / (eta + tan(beta)^2)], with the
    configured [eta] in it; and a state that holds just this relation. *)
Definition documented_tanalpha_beta_eqn (self : config) : eqn :=
  subs_eq (eta_sub self)
    (Eq (tan alpha)
        (div (mul (sub eta (Num 1)) (tan beta))
             (add eta (pow (tan beta) (Num 2))))).

Definition documented_angle_state (self : config) : state :=
  mkState
    (<["tanalpha_beta_eqn" := VEq (documented_tanalpha_beta_eqn self)]> ∅)
    [].

(** A state that holds just what the indicatrix stage reads, for the
    sine tilt: the slowness decomposition [p_z = -p cos(beta)], the
    closure [p = 1 / (varphi(r) sin(beta)^eta)], the exponent
    denominator and a dual metric. *)
Definition indicatrix_state : state :=
  mkState
    (<["gstar_varphi_pxpz_eqn" :=
         VMatEq gstar [[Num 1; Num 0]; [Num 0; Num 1]]]>
       (<["eta_dbldenom" := VInt 4]>
          (<["p_varphi_beta_eqn" :=
               VEq (Eq p (Pow (Mul varphi_r (Pow (sin beta) eta)) (Num (-1))))]>
             (<["pz_p_beta_eqn" :=
                  VEq (Eq pz (Mul (Mul (Num (-1)) p) (cos beta)))]> ∅))))
    [].

(** The first root that the quadratic solver lists for the documented
    relation at the default [eta = 3/2], after [tan(alpha)] has been
    replaced by the symbol [a]: [(1/2 - sqrt(1/4 - 6 a^2)) / (2 a)], the
    root that the docstring of [define_tanbeta_eqns] shows. *)
Definition documented_root : expr :=
  Eval vm_compute in
    match
      quadratic_solve
        (subs_eq [(tan alpha, ta)] (documented_tanalpha_beta_eqn default_config))
        (tan beta)
    with
    | root :: _ => root
    | [] => Num 0
    end.

(** A root that is complex at every probe, [sqrt(-1 - a^2)], and one
    that is real at every probe, [a / 2]. *)
Definition complex_root : expr := sqrt (sub (Num (-1)) (pow ta (Num 2))).
Definition real_root : expr := div ta (Num 2).

(** The two stationary points of the documented relation at the default
    [eta = 3/2], [-atan(sqrt(3/2))] and [atan(sqrt(3/2))]: the docstring
    of [define_tanbeta_eqns] shows the second, [atan(sqrt(eta))]. *)
Definition documented_extrema : list expr :=
  [neg (atan (sqrt (Num (3 # 2)))); atan (sqrt (Num (3 # 2)))].

(** ** The pipeline in three parts

    [init] runs, in order: the derivation up to the ray-angle relations,
    the two stages that are skipped for [eta = 1] with the sine tilt, and
    the remaining stages.  [init] is their sequence. *)

Definition derivation_before {cas : SymPy} (self : config) : M unit :=
  define_p_eqns;;
  define_r_eqns;;
  define_xi_eqns;;
  define_xi_model_eqn self;;
  define_xi_related_eqns self;;
  define_varphi_model_eqn self;;
  define_varphi_related_eqns;;
  define_Fstar_eqns;;
  define_H_eqns;;
  define_rdot_eqns;;
  define_pdot_eqns;;
  define_Hamiltons_eqns;;
  define_tanalpha_eqns.

Definition later_stages {cas : SymPy} (self : config)
    (parameters : option (list (expr * expr)))
    (do_idtx do_geodesic : bool) : M unit :=
  (if do_idtx then define_idtx_fgtx_eqns self else mret tt);;
  (if do_geodesic then
     prep_geodesic_eqns self (if do_raw self then None else parameters);;
     define_geodesic_eqns self (if do_raw self then None else parameters)
   else mret tt);;
  define_px_poly_eqn self None;;
  prep_ibc_eqns;;
  define_ibc_eqns;;
  set_ibc_eqns self.

(** The two notices of the degenerate sine case, and the geodesic one. *)
Definition notice_beta : string :=
  "Cannot compute all $\beta$ equations for $\sin\beta$ model and $\eta=1$".
Definition notice_g : string :=
  "Cannot compute all metric tensor $g^{ij}$ equations for $\sin\beta$ model and $\eta=1$".
Definition notice_geodesic : string :=
  "Cannot compute geodesic equations for $\sin\beta$ model and $\eta>=1$".
Definition warning_beta : string :=
  "Warning: real positive root for beta not found".
Definition notice_idtx (self : config) : string :=
  "Cannot compute all indicatrix equations for $\tan\beta$ model and $\eta=$"
  ++ str_eta (cfg_eta self).

(** ** The slowness domain and the erosion model's fundamental function

    The derivation resolves absolute values with [p_x >= 0] and
    [Abs(p_z) = -p_z] (see [define_pdot_eqns], [prep_ibc_eqns]): the
    slowness covector points downstream and down.  The flow multiplier is
    positive. *)
Definition domain (rho : env) : Prop :=
  (0 < rho "p_x")%R /\ (rho "p_z" < 0)%R /\ (0 < rho "varphi(r)")%R.

(** The sign an expression keeps on the whole domain, when its shape
    shows one. *)
Inductive sg : Type := Positive | Negative.

Definition has_sign (x : R) (s : sg) : Prop :=
  match s with
  | Positive => (0 < x)%R
  | Negative => (x < 0)%R
  end.

Definition sg_mul (a b : sg) : sg :=
  match a, b with
  | Positive, Positive | Negative, Negative => Positive
  | _, _ => Negative
  end.

Definition sg_num (q : Q) : option sg :=
  if Qle_bool q 0 then if Qle_bool 0 q then None else Some Negative
  else Some Positive.

Fixpoint sign_of (e : expr) : option sg :=
  match e with
  | Num q | Flt q => sg_num q
  | Sym s =>
      if String.eqb s "p_x" then Some Positive
      else if String.eqb s "p_z" then Some Negative
      else if String.eqb s "varphi(r)" then Some Positive
      else None
  | Add a b =>
      match sign_of a, sign_of b with
      | Some Positive, Some Positive => Some Positive
      | Some Negative, Some Negative => Some Negative
      | _, _ => None
      end
  | Mul a b =>
      match sign_of a, sign_of b with
      | Some x, Some y => Some (sg_mul x y)
      | _, _ => None
      end
  | Pow a b =>
      match int_exp b, sign_of a with
      | Some n, Some Positive => Some Positive
      | Some n, Some Negative =>
          Some (if Z.even n then Positive else Negative)
      | None, Some Positive => Some Positive
      | _, _ => None
      end
  | App Fabs a =>
      match sign_of a with
      | Some _ => Some Positive
      | None => None
      end
  | App Fsign a => sign_of a
  | App Fexp _ => Some Positive
  | _ => None
  end.

(** A sufficient test for [wd] on the whole domain. *)
Fixpoint wd_on_domain (e : expr) : bool :=
  match e with
  | Num _ | Flt _ | Sym _ => true
  | Add a b | Mul a b => wd_on_domain a && wd_on_domain b
  | Pow a b =>
      wd_on_domain a && wd_on_domain b
      && match int_exp b, sign_of a with
         | Some _, Some _ => true
         | None, Some Positive => true
         | _, _ => false
         end
  | App f a =>
      wd_on_domain a
      && match f, sign_of a with
         | (Fsin | Fcos | Fexp | Fatan), _ => true
         | Flog, Some Positive => true
         | (Fabs | Fsign), Some _ => true
         | _, _ => false
         end
  | Deriv _ _ | Root _ _ => false
  end.

(** The fundamental function of the erosion model, as the docstring of
    [define_Fstar_eqns] gives it for the sine tilt,
    [F* = p_x^eta (p_x^2 + p_z^2)^(1/2 - eta/2) varphi(r)], and its
    counterpart for the tangent tilt ([xi = varphi |tan(beta)|^eta] with
    [tan(beta) = -p_x / p_z]),
    [F* = p_x^eta (-p_z)^(-eta) (p_x^2 + p_z^2)^(1/2) varphi(r)]. *)
Definition Fstar_model (self : config) : expr :=
  let norm2 := Add (Pow px (Num 2)) (Pow pz (Num 2)) in
  if String.eqb (beta_type self) "sin" then
    Mul (Mul (Pow px (Num (cfg_eta self)))
             (Pow norm2 (Num ((1 # 2) - cfg_eta self * (1 # 2)))))
        varphi_r
  else
    Mul (Mul (Mul (Pow px (Num (cfg_eta self)))
                  (Pow (Mul (Num (-1)) pz) (Num (- cfg_eta self))))
             (Pow norm2 (Num (1 # 2))))
        varphi_r.

(** The fundamental function the default construction derives on the
    reference instance. *)
Definition reference_Fstar_eqn : eqn :=
  Eval vm_compute in
    match
      attrs (@Equations reference_cas default_config None false false false).2
        !! "Fstar_eqn"
    with
    | Some (VEq q) => q
    | _ => Eq Fstar Fstar
    end.

(** A state that holds just what the Hamiltonian and ray-velocity stages
    read: that fundamental function, the ramp flow closure and the
    slowness decomposition [p_x = -p_z tan(beta)]. *)
Definition fundamental_state : state :=
  mkState
    (<["px_pz_tanbeta_eqn" := VEq (Eq px (Mul (Mul (Num (-1)) pz) (tan beta)))]>
       (<["varphi_rx_eqn" := VEq varphi_model_ramp_eqn]>
          (<["Fstar_eqn" := VEq reference_Fstar_eqn]> ∅)))
    [].

(** A point of the domain: [p_x = 1], [p_z = -1], every other symbol [1]. *)
Definition unit_point : env :=
  fun s => if String.eqb s "p_z" then (-1)%R else 1%R.

(** ** Notions for the properties of the stages *)

(** What the stages up to the metric stage assign, and what the stages
    after it assign. *)
Definition derivation_writes : list string :=
  (writes_define_p_eqns ++ writes_define_r_eqns ++ writes_define_xi_eqns
   ++ writes_define_xi_model_eqn ++ writes_define_xi_related_eqns
   ++ writes_define_varphi_model_eqn ++ writes_define_varphi_related_eqns
   ++ writes_define_Fstar_eqns ++ writes_define_H_eqns
   ++ writes_define_rdot_eqns ++ writes_define_pdot_eqns
   ++ writes_define_Hamiltons_eqns ++ writes_define_tanalpha_eqns
   ++ writes_define_tanbeta_eqns ++ writes_define_g_eqns)%list.

Definition later_writes : list string :=
  (writes_define_idtx_fgtx_eqns ++ writes_prep_geodesic_eqns
   ++ writes_define_geodesic_eqns ++ writes_define_px_poly_eqn
   ++ writes_prep_ibc_eqns ++ writes_define_ibc_eqns
   ++ writes_set_ibc_eqns)%list.

(** An attribute that holds an equation. *)
Definition has_eq (s : state) (k : string) : Prop :=
  exists q, attrs s !! k = Some (VEq q).

(** The boundary profiles of [define_ibc_eqns]. *)
Definition boundary_profiles : list string :=
  ["planar"; "convex-up"; "concave-up"].

(** The flow models of [define_varphi_model_eqn]. *)
Definition flow_models : list string := ["ramp"; "ramp-flat"].

(** How a run ends: in a state where [post] holds, or with an exception
    among [failures]. *)
Definition outcome (failures : exn -> Prop) (post : state -> Prop)
    (p : res unit * state) : Prop :=
  match p.1 with
  | Ret _ => post p.2
  | Raise e => failures e
  end.

(** The solver listed no root. *)
Definition no_root {cas : SymPy} (e : exn) : Prop :=
  e = IndexError /\ exists q t, solve q t = [].


(** What the derivation up to the ray-angle relations leaves for the
    stages after it. *)
Definition derived (s : state) : Prop :=
  attrs s !! "p_covec_eqn" = Some (VMatEq pcovec (transpose [[px]; [pz]]))
  /\ (exists n, attrs s !! "eta_dbldenom" = Some (VInt n))
  /\ (exists qx qz,
        attrs s !! "rdotx_pxpz_eqn" = Some (VEq qx)
        /\ attrs s !! "rdotz_pxpz_eqn" = Some (VEq qz)
        /\ attrs s !! "rdot_vec_eqn"
           = Some (VMatEq rdotvec [[rhs qx]; [rhs qz]]))
  /\ Forall (has_eq s)
       ["pz_p_beta_eqn"; "px_pz_tanbeta_eqn"; "px_xiv_varphi_eqn";
        "varphi_rx_eqn"; "p_varphi_beta_eqn"; "H_eqn"; "rdot_p_unity_eqn";
        "tanalpha_beta_eqn"].

(** The flow model is none of those the engine knows. *)
Definition unknown_flow_model (self : config) (e : exn) : Prop :=
  e = ValueError "Unknown flow model" /\ ~ In (varphi_type self) flow_models.


(** The case in which the geodesic stages print their notice and
    return. *)
Definition geodesic_skipped (self : config) : bool :=
  Qleb 1 (cfg_eta self) && String.eqb (beta_type self) "sin".

(** A point where [sin(beta) = 1]: [beta = pi/2], every other symbol
    [1]. *)
Definition quarter_turn_point : env :=
  fun s => if String.eqb s "beta" then (PI / 2)%R else 1%R.

(** A symmetric metric to differentiate, [[r^x, r^x r^z], [r^x r^z, r^z]],
    and its derivatives along [r^x] and [r^z], arranged as
    [define_geodesic_eqns] arranges them. *)
Definition sample_metric : matrix :=
  [[rx; mul rx rz]; [mul rx rz; rz]].

Definition sample_metric_derivatives : list (list matrix) :=
  [[diff_mat sample_metric rx]; [diff_mat sample_metric rz]].

(** A matrix of two rows of two entries. *)
Definition is_2x2 (m : matrix) : Prop :=
  exists a b c d, m = [[a; b]; [c; d]].

(** A state that holds just what the geodesic stages read: the
    Hamiltonian of the reference instance, the slowness decomposition,
    the documented forward relation between the angles and the ramp flow
    closure. *)
Definition geodesic_state : state :=
  mkState
    (<["varphi_rx_eqn" := VEq varphi_model_ramp_eqn]>
       (<["tanalpha_beta_eqn" :=
            VEq (documented_tanalpha_beta_eqn (with_eta (1 # 2) default_config))]>
          (<["px_pz_tanbeta_eqn" :=
               VEq (Eq px (Mul (Mul (Num (-1)) pz) (tan beta)))]>
             (<["H_eqn" :=
                  VEq (Eq H (@hamiltonian reference_cas reference_Fstar_eqn))]> ∅))))
    [].

(** * Facts about expressions *)

Section SymFacts.

Local Open Scope R_scope.

Lemma Qeq_bool_Q2R (p q : Q) : Qeq_bool p q = true -> Q2R p = Q2R q.
Proof. intros H. apply Qeq_eqR, Qeq_bool_eq, H. Qed.

Lemma Q2R_Qred (q : Q) : Q2R (Qred q) = Q2R q.
Proof. apply Qeq_eqR, Qred_correct. Qed.

Lemma is_int_Q2R (q : Q) (n : Z) : is_int q = Some n -> Q2R q = IZR n.
Proof.
  unfold is_int. destruct (Pos.eqb_spec (Qden (Qred q)) 1) as [E|]; [|discriminate].
  intros [= <-]. rewrite <- (Q2R_Qred q). unfold Q2R. rewrite E. simpl. field.
Qed.

Lemma Qred_inject_Z (n : Z) : Qred (inject_Z n) = inject_Z n.
Proof.
  unfold Qred, inject_Z.
  pose proof (Z.ggcd_gcd n 1) as Hg.
  pose proof (Z.ggcd_correct_divisors n 1) as Hd.
  destruct (Z.ggcd n 1) as [g [a b]]. simpl in *.
  rewrite Z.gcd_1_r in Hg. subst g. destruct Hd as [Ha Hb].
  rewrite Z.mul_1_l in Ha, Hb. subst. reflexivity.
Qed.

Lemma is_int_of_Qeq (q : Q) (n : Z) :
  Qeq_bool q (inject_Z n) = true -> is_int q = Some n.
Proof.
  intros H. apply Qeq_bool_eq, Qred_complete in H.
  unfold is_int. rewrite H, Qred_inject_Z. reflexivity.
Qed.

Lemma eval_add rho a b : eval rho (add a b) = eval rho a + eval rho b.
Proof.
  unfold add.
  destruct a, b; simpl; try reflexivity;
    repeat match goal with
    | |- context [Qeq_bool ?p ?q] =>
        let E := fresh in destruct (Qeq_bool p q) eqn:E;
        [apply Qeq_bool_Q2R in E|]
    end; simpl; rewrite ?Q2R_Qred, ?Q2R_plus; try lra;
    try (replace (Q2R 0) with 0 in * by (unfold Q2R; simpl; lra); lra).
Qed.

Lemma Q2R_0 : Q2R 0 = 0.
Proof. unfold Q2R; simpl; lra. Qed.

Lemma Q2R_1 : Q2R 1 = 1.
Proof. unfold Q2R; simpl; lra. Qed.

Lemma eval_mul rho a b : eval rho (mul a b) = eval rho a * eval rho b.
Proof.
  unfold mul.
  destruct a, b; simpl; try reflexivity;
    repeat match goal with
    | |- context [Qeq_bool ?p ?q] =>
        let E := fresh in destruct (Qeq_bool p q) eqn:E;
        [apply Qeq_bool_Q2R in E|]
    end; simpl; rewrite ?Q2R_Qred, ?Q2R_mult; try lra;
    rewrite ?Q2R_0, ?Q2R_1 in *;
    repeat match goal with H : Q2R _ = _ |- _ => rewrite H; clear H end; lra.
Qed.

Lemma eval_neg rho a : eval rho (neg a) = - eval rho a.
Proof.
  unfold neg. rewrite eval_mul. simpl.
  replace (Q2R (-1)) with (-1) by (unfold Q2R; simpl; lra). lra.
Qed.

Lemma eval_sub rho a b : eval rho (sub a b) = eval rho a - eval rho b.
Proof. unfold sub. rewrite eval_add, eval_neg. lra. Qed.

Lemma eval_pow rho a b : eval rho (pow a b) = eval rho (Pow a b).
Proof.
  unfold pow. destruct b; try reflexivity.
  destruct (Qeq_bool q 0) eqn:E0.
  { simpl. unfold rpow, int_exp. rewrite (is_int_of_Qeq q 0 E0). simpl. apply Q2R_1. }
  destruct (Qeq_bool q 1) eqn:E1.
  { simpl. unfold rpow, int_exp. rewrite (is_int_of_Qeq q 1 E1). simpl. lra. }
  destruct a; try reflexivity.
  destruct (is_int q) as [n|] eqn:En; try reflexivity.
  destruct (Qeq_bool q0 0) eqn:Ep; try reflexivity.
  simpl. unfold rpow, int_exp. rewrite En, Q2R_Qred.
  apply RMicromega.Q2RpowerRZ. left. intros Hq.
  apply Qeq_eq_bool in Hq. congruence.
Qed.

Lemma eval_pow_int rho a q n :
  is_int q = Some n -> eval rho (pow a (Num q)) = powerRZ (eval rho a) n.
Proof. intros H. rewrite eval_pow. simpl. unfold rpow, int_exp. now rewrite H. Qed.

Lemma eval_inv rho a : eval rho (pow a (Num (-1))) = / eval rho a.
Proof.
  rewrite (eval_pow_int rho a (-1) (-1)) by reflexivity.
  simpl. now rewrite Rmult_1_r.
Qed.

Lemma eval_div rho a b : eval rho (div a b) = eval rho a / eval rho b.
Proof. unfold div. rewrite eval_mul, eval_inv. reflexivity. Qed.

Lemma eval_sq rho a : eval rho (pow a (Num 2)) = eval rho a * eval rho a.
Proof.
  rewrite (eval_pow_int rho a 2 2) by reflexivity. simpl. lra.
Qed.

Lemma eval_ext rho rho' e :
  (forall s, rho s = rho' s) -> eval rho e = eval rho' e.
Proof.
  intros H. induction e; simpl; try congruence.
Qed.

Lemma upd_same rho s : forall t, upd rho s (rho s) t = rho t.
Proof.
  intros t. unfold upd. destruct (String.eqb_spec s t); congruence.
Qed.

End SymFacts.

Section DiffSound.

Local Open Scope R_scope.

Lemma derivable_pt_lim_ext (f g : R -> R) (x l : R) :
  (forall v, f v = g v) -> derivable_pt_lim f x l -> derivable_pt_lim g x l.
Proof.
  intros E H eps Heps. destruct (H eps Heps) as [d Hd]. exists d.
  intros h Hh Hlt. rewrite <- !E. now apply Hd.
Qed.

Lemma derivable_pt_lim_value (f : R -> R) (x l l' : R) :
  l = l' -> derivable_pt_lim f x l -> derivable_pt_lim f x l'.
Proof. now intros ->. Qed.

Lemma derivable_pt_lim_powerRZ (n : Z) (x : R) :
  x <> 0 ->
  derivable_pt_lim (fun y => powerRZ y n) x (powerRZ x n * (IZR n * / x)).
Proof.
  intros Hx. destruct n as [|p|p]; simpl.
  - apply (derivable_pt_lim_value (fct_cte 1) x 0); [lra|].
    apply derivable_pt_lim_const.
  - apply (derivable_pt_lim_value _ x
             (INR (Pos.to_nat p) * x ^ Init.Nat.pred (Pos.to_nat p))).
    + rewrite INR_IZR_INZ, positive_nat_Z.
      destruct (Pos2Nat.is_succ p) as [m ->]. simpl. field. exact Hx.
    + apply derivable_pt_lim_pow.
  - pose proof (derivable_pt_lim_div (fct_cte 1) (fun y => y ^ Pos.to_nat p) x 0
                  (INR (Pos.to_nat p) * x ^ Init.Nat.pred (Pos.to_nat p))
                  (derivable_pt_lim_const 1 x)
                  (derivable_pt_lim_pow x (Pos.to_nat p))
                  (pow_nonzero x _ Hx)) as H.
    eapply derivable_pt_lim_value; [|eapply derivable_pt_lim_ext; [|exact H]].
    + rewrite INR_IZR_INZ, positive_nat_Z.
      change (IZR (Z.neg p)) with (IZR (- Z.pos p)). rewrite opp_IZR.
      destruct (Pos2Nat.is_succ p) as [m ->]. unfold fct_cte, Rsqr. simpl.
      field. repeat split; first [exact Hx | apply pow_nonzero; exact Hx].
    + intros v. unfold div_fct, fct_cte. lra.
Qed.

Lemma derivable_pt_lim_Rpower_gen (f g : R -> R) (x lf lg : R) :
  0 < f x ->
  derivable_pt_lim f x lf -> derivable_pt_lim g x lg ->
  derivable_pt_lim (fun v => Rpower (f v) (g v)) x
    (Rpower (f x) (g x) * (lg * ln (f x) + lf * g x * / f x)).
Proof.
  intros Hpos Hf Hg. unfold Rpower.
  pose proof (derivable_pt_lim_comp f ln x lf (/ f x) Hf
                (derivable_pt_lim_ln (f x) Hpos)) as Hln.
  pose proof (derivable_pt_lim_mult g (comp ln f) x lg (/ f x * lf) Hg Hln) as Hm.
  pose proof (derivable_pt_lim_comp (g * comp ln f)%F Rtrigo_def.exp x _ _ Hm
                (derivable_pt_lim_exp ((g * comp ln f)%F x))) as He.
  eapply derivable_pt_lim_value; [|eapply derivable_pt_lim_ext; [|exact He]].
  - unfold mult_fct, comp. lra.
  - intros v. reflexivity.
Qed.

Lemma derivable_pt_lim_tan_gen (x : R) :
  Rtrigo_def.cos x <> 0 ->
  derivable_pt_lim Rtrigo1.tan x (1 + Rtrigo1.tan x * Rtrigo1.tan x).
Proof.
  intros Hc.
  pose proof (derivable_pt_lim_div Rtrigo_def.sin Rtrigo_def.cos x _ _
                (derivable_pt_lim_sin x) (derivable_pt_lim_cos x) Hc) as H.
  eapply derivable_pt_lim_value; [|eapply derivable_pt_lim_ext; [|exact H]].
  - unfold Rtrigo1.tan, Rsqr. pose proof (sin2_cos2 x) as E. unfold Rsqr in E.
    field_simplify_eq; [|exact Hc]. lra.
  - intros v. reflexivity.
Qed.

Lemma derivable_pt_lim_Rabs (x : R) :
  x <> 0 -> derivable_pt_lim Rabs x (sgn x).
Proof.
  intros Hx. unfold sgn.
  destruct (Rlt_dec 0 x); [now apply Rabs_derive_1|].
  destruct (Rlt_dec x 0); [now apply Rabs_derive_2|]. lra.
Qed.

Lemma derivable_pt_lim_sgn (x : R) :
  x <> 0 -> derivable_pt_lim sgn x 0.
Proof.
  intros Hx eps Heps.
  assert (Hpos : 0 < Rabs x) by now apply Rabs_pos_lt.
  exists (mkposreal (Rabs x) Hpos). intros h Hh Hlt. simpl in Hlt.
  assert (E : sgn (x + h) = sgn x).
  { unfold sgn. unfold Rabs in Hlt.
    destruct (Rcase_abs h), (Rcase_abs x), (Rlt_dec 0 (x + h)), (Rlt_dec 0 x),
      (Rlt_dec (x + h) 0), (Rlt_dec x 0); lra. }
  rewrite E. replace ((sgn x - sgn x) / h - 0) with 0 by (field; exact Hh).
  now rewrite Rabs_R0.
Qed.

Lemma eval_upd_same rho s e : eval (upd rho s (rho s)) e = eval rho e.
Proof. apply eval_ext, upd_same. Qed.

(** Composition with an expression's denotation. *)
Lemma derivable_pt_lim_eval_comp (h : R -> R) rho s a (la lh : R) :
  derivable_pt_lim (fun v => eval (upd rho s v) a) (rho s) la ->
  derivable_pt_lim h (eval rho a) lh ->
  derivable_pt_lim (fun v => h (eval (upd rho s v) a)) (rho s) (lh * la).
Proof.
  intros Ha Hh.
  apply (derivable_pt_lim_comp (fun v => eval (upd rho s v) a) h (rho s) la lh Ha).
  now rewrite eval_upd_same.
Qed.

(** Symbolic differentiation computes the partial derivative of the
    denotation, wherever the expression is well defined. *)
Lemma D_sound (s : string) (e : expr) (rho : env) :
  wd rho e ->
  derivable_pt_lim (fun v => eval (upd rho s v) e) (rho s) (eval rho (D s e)).
Proof.
  induction e as [q|q|t|a IHa b IHb|a IHa b IHb|a IHa b IHb|f a IHa|a _ x _|a _ x _];
    intros Hwd; cbn [D wd eval] in *.
  - rewrite Q2R_0. apply derivable_pt_lim_const.
  - rewrite Q2R_0. apply derivable_pt_lim_const.
  - unfold upd. destruct (String.eqb s t); simpl.
    + rewrite Q2R_1. apply derivable_pt_lim_id.
    + rewrite Q2R_0. apply derivable_pt_lim_const.
  - destruct Hwd as [Ha Hb]. rewrite eval_add.
    apply (derivable_pt_lim_plus _ _ _ _ _ (IHa Ha) (IHb Hb)).
  - destruct Hwd as [Ha Hb]. rewrite eval_add, !eval_mul.
    pose proof (derivable_pt_lim_mult _ _ _ _ _ (IHa Ha) (IHb Hb)) as H.
    unfold mult_fct in H. rewrite !eval_upd_same in H. exact H.
  - destruct Hwd as (Ha & Hb & Hbase).
    rewrite eval_mul, eval_add, !eval_mul, eval_inv. cbn [eval eval_func].
    unfold rpow in *. destruct (int_exp b) as [n|] eqn:En.
    + destruct b; try discriminate. cbn [int_exp] in En.
      cbn [D eval]. rewrite Q2R_0, (is_int_Q2R _ _ En).
      pose proof (derivable_pt_lim_eval_comp (fun y => powerRZ y n) rho s a _ _
                    (IHa Ha) (derivable_pt_lim_powerRZ n _ Hbase)) as H.
      eapply derivable_pt_lim_value; [|exact H]. 
      field. exact Hbase.
    + pose proof (derivable_pt_lim_Rpower_gen
                    (fun v => eval (upd rho s v) a) (fun v => eval (upd rho s v) b)
                    (rho s) (eval rho (D s a)) (eval rho (D s b))) as H.
      cbn beta in H. rewrite !eval_upd_same in H.
      exact (H Hbase (IHa Ha) (IHb Hb)).
  - destruct Hwd as [Ha Hf]. specialize (IHa Ha).
    destruct f; cbn [eval_func] in *; try contradiction.
    + rewrite eval_mul. simpl.
      apply (derivable_pt_lim_eval_comp Rtrigo_def.sin rho s a _ _ IHa).
      apply derivable_pt_lim_sin.
    + rewrite eval_mul, eval_neg. simpl.
      apply (derivable_pt_lim_eval_comp Rtrigo_def.cos rho s a _ _ IHa).
      apply derivable_pt_lim_cos.
    + rewrite eval_mul, eval_add, eval_sq. simpl. rewrite Q2R_1.
      apply (derivable_pt_lim_eval_comp Rtrigo1.tan rho s a _ _ IHa).
      now apply derivable_pt_lim_tan_gen.
    + rewrite eval_mul, eval_inv, eval_add, eval_sq. simpl. rewrite Q2R_1.
      apply (derivable_pt_lim_eval_comp Ratan.atan rho s a _ _ IHa).
      eapply derivable_pt_lim_value; [|apply derivable_pt_lim_atan].
      simpl. now rewrite Rmult_1_r.
    + rewrite eval_mul. simpl.
      apply (derivable_pt_lim_eval_comp Rtrigo_def.exp rho s a _ _ IHa).
      apply derivable_pt_lim_exp.
    + rewrite eval_mul, eval_inv.
      apply (derivable_pt_lim_eval_comp ln rho s a _ _ IHa).
      now apply derivable_pt_lim_ln.
    + rewrite eval_mul. simpl.
      apply (derivable_pt_lim_eval_comp Rabs rho s a _ _ IHa).
      now apply derivable_pt_lim_Rabs.
    + cbn [eval].
      eapply derivable_pt_lim_value;
        [|apply (derivable_pt_lim_eval_comp sgn rho s a _ 0 IHa);
          now apply derivable_pt_lim_sgn].
      ring.
  - contradiction.
  - contradiction.
Qed.

End DiffSound.

(** * Running methods: the frame of each stage *)

Section Frame.

Context {cas : SymPy}.

Lemma bind_unfold {A B : Type} (m : M A) (f : A -> M B) (s : state) :
  (m ≫= f) s =
  match m s with
  | (Ret a, s') => f a s'
  | (Raise e, s') => (Raise e, s')
  end.
Proof. reflexivity. Qed.

Lemma keeps_ret {A : Type} (k : string) (a : A) : keeps k (mret a).
Proof. intros s. reflexivity. Qed.

Lemma keeps_raise {A : Type} (k : string) (e : exn) : keeps k (@raise A e).
Proof. intros s. reflexivity. Qed.

Lemma keeps_print (k : string) (msg : string) : keeps k (print msg).
Proof. intros s. reflexivity. Qed.

Lemma keeps_setattr (k k' : string) (v : value) :
  k <> k' -> keeps k (setattr k' v).
Proof. intros Hne s. simpl. apply lookup_insert_ne. congruence. Qed.

Lemma keeps_getattr (k k' : string) : keeps k (getattr k').
Proof. intros s. unfold getattr. destruct (attrs s !! k'); reflexivity. Qed.

Lemma keeps_bind {A B : Type} (k : string) (m : M A) (f : A -> M B) :
  keeps k m -> (forall a, keeps k (f a)) -> keeps k (m ≫= f).
Proof.
  intros Hm Hf s. rewrite bind_unfold. specialize (Hm s).
  destruct (m s) as [[a|e] s1]; simpl in *; [|exact Hm].
  rewrite (Hf a s1). exact Hm.
Qed.

Lemma keeps_index {A : Type} (k : string) (l : list A) (i : nat) :
  keeps k (index l i).
Proof. intros s. unfold index. destruct (nth_error l i); reflexivity. Qed.

Lemma keeps_lift_index {A : Type} (k : string) (o : option A) :
  keeps k (lift_index o).
Proof. intros s. destruct o; reflexivity. Qed.

Lemma keeps_item {A : Type} (k : string) (d : list (string * A)) (key : string) :
  keeps k (item d key).
Proof. intros s. unfold item. destruct (assoc key d); reflexivity. Qed.

Lemma keeps_subs_parameters (k : string) p (m : matrix) :
  keeps k (subs_parameters p m).
Proof. intros s. destruct p; reflexivity. Qed.

Lemma not_among_cons (k w : string) (ws : list string) :
  not_among k (w :: ws) = true -> k <> w /\ not_among k ws = true.
Proof.
  unfold not_among. simpl. intros H. apply andb_prop in H as [H1 H2].
  split; [|exact H2]. apply negb_true_iff in H1. now apply String.eqb_neq.
Qed.

End Frame.

Ltac not_among_split H :=
  repeat (apply not_among_cons in H; let Hk := fresh "Hk" in destruct H as [Hk H]).

Ltac keeps_step :=
  lazymatch goal with
  | |- keeps _ (mret _) => apply keeps_ret
  | |- keeps _ (raise _) => apply keeps_raise
  | |- keeps _ (print _) => apply keeps_print
  | |- keeps _ (setattr _ _) => apply keeps_setattr; assumption
  | |- keeps _ (getattr _) => apply keeps_getattr
  | |- keeps _ (index _ _) => apply keeps_index
  | |- keeps _ (lift_index _) => apply keeps_lift_index
  | |- keeps _ (item _ _) => apply keeps_item
  | |- keeps _ (subs_parameters _ _) => apply keeps_subs_parameters
  | |- keeps _ (_ ≫= _) => apply keeps_bind; [|intros]
  | |- keeps _ (if ?b then _ else _) => destruct b
  | |- keeps _ (match ?x with _ => _ end) => destruct x
  | |- keeps _ (let _ := _ in _) => cbv zeta
  end.

Ltac keeps_stage H :=
  not_among_split H;
  cbv zeta; unfold self_eq, self_mateq, self_mat, self_int, self_dict;
  repeat keeps_step.

Section StageFrames.

Context {cas : SymPy}.
Variable self : config.

Lemma keeps_define_p_eqns k :
  not_among k writes_define_p_eqns = true -> keeps k define_p_eqns.
Proof. intros H. unfold define_p_eqns. keeps_stage H. Qed.

Lemma keeps_define_r_eqns k :
  not_among k writes_define_r_eqns = true -> keeps k define_r_eqns.
Proof. intros H. unfold define_r_eqns. keeps_stage H. Qed.

Lemma keeps_define_xi_eqns k :
  not_among k writes_define_xi_eqns = true -> keeps k define_xi_eqns.
Proof. intros H. unfold define_xi_eqns. keeps_stage H. Qed.

Lemma keeps_define_xi_model_eqn k :
  not_among k writes_define_xi_model_eqn = true -> keeps k (define_xi_model_eqn self).
Proof. intros H. unfold define_xi_model_eqn. keeps_stage H. Qed.

Lemma keeps_define_xi_related_eqns k :
  not_among k writes_define_xi_related_eqns = true -> keeps k (define_xi_related_eqns self).
Proof. intros H. unfold define_xi_related_eqns. keeps_stage H. Qed.

Lemma keeps_define_varphi_model_eqn k :
  not_among k writes_define_varphi_model_eqn = true -> keeps k (define_varphi_model_eqn self).
Proof. intros H. unfold define_varphi_model_eqn. keeps_stage H. Qed.

Lemma keeps_define_varphi_related_eqns k :
  not_among k writes_define_varphi_related_eqns = true -> keeps k define_varphi_related_eqns.
Proof. intros H. unfold define_varphi_related_eqns. keeps_stage H. Qed.

Lemma keeps_define_Fstar_eqns k :
  not_among k writes_define_Fstar_eqns = true -> keeps k define_Fstar_eqns.
Proof. intros H. unfold define_Fstar_eqns. keeps_stage H. Qed.

Lemma keeps_define_H_eqns k :
  not_among k writes_define_H_eqns = true -> keeps k define_H_eqns.
Proof. intros H. unfold define_H_eqns. keeps_stage H. Qed.

Lemma keeps_define_rdot_eqns k :
  not_among k writes_define_rdot_eqns = true -> keeps k define_rdot_eqns.
Proof. intros H. unfold define_rdot_eqns. keeps_stage H. Qed.

Lemma keeps_define_pdot_eqns k :
  not_among k writes_define_pdot_eqns = true -> keeps k define_pdot_eqns.
Proof. intros H. unfold define_pdot_eqns. keeps_stage H. Qed.

Lemma keeps_define_Hamiltons_eqns k :
  not_among k writes_define_Hamiltons_eqns = true -> keeps k define_Hamiltons_eqns.
Proof. intros H. unfold define_Hamiltons_eqns. keeps_stage H. Qed.

Lemma keeps_define_tanalpha_eqns k :
  not_among k writes_define_tanalpha_eqns = true -> keeps k define_tanalpha_eqns.
Proof. intros H. unfold define_tanalpha_eqns. keeps_stage H. Qed.

Lemma keeps_define_tanbeta_eqns k b :
  not_among k writes_define_tanbeta_eqns = true -> keeps k (define_tanbeta_eqns self b).
Proof. intros H. unfold define_tanbeta_eqns. keeps_stage H. Qed.

Lemma keeps_define_g_eqns k :
  not_among k writes_define_g_eqns = true -> keeps k (define_g_eqns self).
Proof. intros H. unfold define_g_eqns. keeps_stage H. Qed.

Lemma keeps_define_idtx_fgtx_eqns k :
  not_among k writes_define_idtx_fgtx_eqns = true -> keeps k (define_idtx_fgtx_eqns self).
Proof. intros H. unfold define_idtx_fgtx_eqns. keeps_stage H. Qed.

Lemma keeps_prep_geodesic_eqns k p :
  not_among k writes_prep_geodesic_eqns = true -> keeps k (prep_geodesic_eqns self p).
Proof. intros H. unfold prep_geodesic_eqns. keeps_stage H. Qed.

Lemma keeps_define_geodesic_eqns k p :
  not_among k writes_define_geodesic_eqns = true -> keeps k (define_geodesic_eqns self p).
Proof. intros H. unfold define_geodesic_eqns. keeps_stage H. Qed.

Lemma keeps_define_px_poly_eqn k c :
  not_among k writes_define_px_poly_eqn = true -> keeps k (define_px_poly_eqn self c).
Proof. intros H. unfold define_px_poly_eqn. keeps_stage H. Qed.

Lemma keeps_prep_ibc_eqns k :
  not_among k writes_prep_ibc_eqns = true -> keeps k prep_ibc_eqns.
Proof. intros H. unfold prep_ibc_eqns. keeps_stage H. Qed.

Lemma keeps_define_ibc_eqns k :
  not_among k writes_define_ibc_eqns = true -> keeps k define_ibc_eqns.
Proof. intros H. unfold define_ibc_eqns. keeps_stage H. Qed.

Lemma keeps_set_ibc_eqns k :
  not_among k writes_set_ibc_eqns = true -> keeps k (set_ibc_eqns self).
Proof. intros H. unfold set_ibc_eqns. keeps_stage H. Qed.

End StageFrames.

(** * Running methods: what a successful run tells *)

Section Runs.

Context {cas : SymPy}.

Lemma bind_Ret_inv {A B : Type} (m : M A) (f : A -> M B) s b s' :
  (m ≫= f) s = (Ret b, s') ->
  exists a s1, m s = (Ret a, s1) /\ f a s1 = (Ret b, s').
Proof.
  rewrite bind_unfold. destruct (m s) as [[a|e] s1]; [|discriminate].
  intros H. now exists a, s1.
Qed.

Lemma bind_Raise_l {A B : Type} (m : M A) (f : A -> M B) s e s' :
  m s = (Raise e, s') -> (m ≫= f) s = (Raise e, s').
Proof. intros H. now rewrite bind_unfold, H. Qed.

Lemma bind_Ret_l {A B : Type} (m : M A) (f : A -> M B) s a s1 :
  m s = (Ret a, s1) -> (m ≫= f) s = f a s1.
Proof. intros H. now rewrite bind_unfold, H. Qed.

Lemma bind_assoc {A B C : Type} (m : M A) (f : A -> M B) (g : B -> M C) s :
  ((m ≫= f) ≫= g) s = (m ≫= (fun a => f a ≫= g)) s.
Proof.
  rewrite !bind_unfold. destruct (m s) as [[a|e] s1]; reflexivity.
Qed.

Lemma getattr_Ret k s v s' :
  getattr k s = (Ret v, s') -> s' = s /\ attrs s !! k = Some v.
Proof.
  unfold getattr. destruct (attrs s !! k); [|discriminate].
  now intros [= <- <-].
Qed.

Lemma self_eq_Ret k s q s' :
  self_eq k s = (Ret q, s') -> s' = s /\ attrs s !! k = Some (VEq q).
Proof.
  intros H. apply bind_Ret_inv in H as (v & s1 & Hg & H).
  apply getattr_Ret in Hg as [-> Hv].
  destruct v; try discriminate. now injection H as <- <-.
Qed.

Lemma self_eq_ok k s q :
  attrs s !! k = Some (VEq q) -> self_eq k s = (Ret q, s).
Proof. intros H. unfold self_eq. rewrite bind_unfold. unfold getattr. now rewrite H. Qed.

Lemma self_mateq_Ret k s m s' :
  self_mateq k s = (Ret m, s') ->
  s' = s /\ exists l, attrs s !! k = Some (VMatEq l m).
Proof.
  intros H. apply bind_Ret_inv in H as (v & s1 & Hg & H).
  apply getattr_Ret in Hg as [-> Hv].
  destruct v; try discriminate. injection H as <- <-. eauto.
Qed.

Lemma self_mateq_ok k s l m :
  attrs s !! k = Some (VMatEq l m) -> self_mateq k s = (Ret m, s).
Proof. intros H. unfold self_mateq. rewrite bind_unfold. unfold getattr. now rewrite H. Qed.

Lemma index_Ret {A : Type} (l : list A) i s a s' :
  index l i s = (Ret a, s') -> s' = s /\ nth_error l i = Some a.
Proof.
  unfold index. destruct (nth_error l i); [|discriminate].
  now intros [= <- <-].
Qed.

Lemma lift_index_Ret {A : Type} (o : option A) s a s' :
  lift_index o s = (Ret a, s') -> s' = s /\ o = Some a.
Proof. destruct o; [|discriminate]. now intros [= <- <-]. Qed.

Lemma setattr_Ret k v s u s' :
  setattr k v s = (Ret u, s') ->
  s' = mkState (<[k := v]> (attrs s)) (stdout s).
Proof. unfold setattr. now intros [= <-]. Qed.

Lemma print_Ret msg s u s' :
  print msg s = (Ret u, s') ->
  s' = mkState (attrs s) (stdout s ++ [msg]).
Proof. unfold print. now intros [= <-]. Qed.

Lemma mret_Ret {A : Type} (a : A) s b s' :
  (mret a : M A) s = (Ret b, s') -> b = a /\ s' = s.
Proof. now intros [= <- <-]. Qed.

Lemma self_mat_Ret k s m s' :
  self_mat k s = (Ret m, s') -> s' = s /\ attrs s !! k = Some (VMat m).
Proof.
  intros H. apply bind_Ret_inv in H as (v & s1 & Hg & H).
  apply getattr_Ret in Hg as [-> Hv].
  destruct v; try discriminate. now injection H as <- <-.
Qed.

Lemma self_int_Ret k s n s' :
  self_int k s = (Ret n, s') -> s' = s /\ attrs s !! k = Some (VInt n).
Proof.
  intros H. apply bind_Ret_inv in H as (v & s1 & Hg & H).
  apply getattr_Ret in Hg as [-> Hv].
  destruct v; try discriminate. now injection H as <- <-.
Qed.

Lemma self_int_ok k s n :
  attrs s !! k = Some (VInt n) -> self_int k s = (Ret n, s).
Proof. intros H. unfold self_int. rewrite bind_unfold. unfold getattr. now rewrite H. Qed.

Lemma self_mat_ok k s m :
  attrs s !! k = Some (VMat m) -> self_mat k s = (Ret m, s).
Proof. intros H. unfold self_mat. rewrite bind_unfold. unfold getattr. now rewrite H. Qed.

Lemma self_dict_ok k s d :
  attrs s !! k = Some (VDict d) -> self_dict k s = (Ret d, s).
Proof. intros H. unfold self_dict. rewrite bind_unfold. unfold getattr. now rewrite H. Qed.

(** A method that keeps an attribute, run to any outcome. *)
Lemma keeps_run {A : Type} k (m : M A) s r s' :
  keeps k m -> m s = (r, s') -> attrs s' !! k = attrs s !! k.
Proof. intros Hk H. specialize (Hk s). now rewrite H in Hk. Qed.

(** Forward steps: the run of a statement followed by the rest. *)
Lemma bind_setattr {B : Type} k v (f : unit -> M B) s :
  (setattr k v ≫= f) s = f tt (mkState (<[k := v]> (attrs s)) (stdout s)).
Proof. reflexivity. Qed.

Lemma bind_print {B : Type} msg (f : unit -> M B) s :
  (print msg ≫= f) s = f tt (mkState (attrs s) (stdout s ++ [msg])).
Proof. reflexivity. Qed.

Lemma bind_mret {A B : Type} (a : A) (f : A -> M B) s :
  (mret a ≫= f) s = f a s.
Proof. reflexivity. Qed.

Lemma bind_raise {A B : Type} e (f : A -> M B) s :
  (raise e ≫= f) s = (Raise e, s).
Proof. reflexivity. Qed.

Lemma bind_self_eq {B : Type} k q (f : eqn -> M B) s :
  attrs s !! k = Some (VEq q) -> (self_eq k ≫= f) s = f q s.
Proof. intros H. now rewrite (bind_Ret_l _ _ _ _ _ (self_eq_ok _ _ _ H)). Qed.

Lemma bind_self_mateq {B : Type} k l m (f : matrix -> M B) s :
  attrs s !! k = Some (VMatEq l m) -> (self_mateq k ≫= f) s = f m s.
Proof. intros H. now rewrite (bind_Ret_l _ _ _ _ _ (self_mateq_ok _ _ _ _ H)). Qed.

Lemma bind_self_mat {B : Type} k m (f : matrix -> M B) s :
  attrs s !! k = Some (VMat m) -> (self_mat k ≫= f) s = f m s.
Proof. intros H. now rewrite (bind_Ret_l _ _ _ _ _ (self_mat_ok _ _ _ H)). Qed.

Lemma bind_self_int {B : Type} k n (f : Z -> M B) s :
  attrs s !! k = Some (VInt n) -> (self_int k ≫= f) s = f n s.
Proof. intros H. now rewrite (bind_Ret_l _ _ _ _ _ (self_int_ok _ _ _ H)). Qed.

Lemma bind_self_dict {B : Type} k d (f : _ -> M B) s :
  attrs s !! k = Some (VDict d) -> (self_dict k ≫= f) s = f d s.
Proof. intros H. now rewrite (bind_Ret_l _ _ _ _ _ (self_dict_ok _ _ _ H)). Qed.

Lemma bind_lift_index {A B : Type} (o : option A) a (f : A -> M B) s :
  o = Some a -> (lift_index o ≫= f) s = f a s.
Proof. now intros ->. Qed.

Lemma bind_index {A B : Type} (l : list A) i a (f : A -> M B) s :
  nth_error l i = Some a -> (index l i ≫= f) s = f a s.
Proof. intros H. rewrite bind_unfold. unfold index. now rewrite H. Qed.

Lemma bind_item {A B : Type} (d : list (string * A)) k a (f : A -> M B) s :
  assoc k d = Some a -> (item d k ≫= f) s = f a s.
Proof. intros H. rewrite bind_unfold. unfold item. now rewrite H. Qed.

Lemma bind_index_None {A B : Type} (l : list A) i (f : A -> M B) s :
  nth_error l i = None -> (index l i ≫= f) s = (Raise IndexError, s).
Proof. intros H. rewrite bind_unfold. unfold index. now rewrite H. Qed.

(** The outcome of a run, from its result. *)
Lemma run_Ret_eta {A : Type} (p : res A * state) a :
  p.1 = Ret a -> p = (Ret a, p.2).
Proof. destruct p as [r s]. simpl. now intros ->. Qed.

End Runs.

(** Steps a hypothesis [H : m s = (Ret b, s')] through the binds of [m]:
    one step for each statement of the method. *)
Ltac run_leaf H :=
  lazymatch type of H with
  | self_eq _ _ = _ => apply self_eq_Ret in H as [-> H]
  | self_mateq _ _ = _ => apply self_mateq_Ret in H as [-> [? H]]
  | self_mat _ _ = _ => apply self_mat_Ret in H as [-> H]
  | self_int _ _ = _ => apply self_int_Ret in H as [-> H]
  | index _ _ _ = _ => apply index_Ret in H as [-> H]
  | lift_index _ _ = _ => apply lift_index_Ret in H as [-> H]
  | setattr _ _ _ = _ => apply setattr_Ret in H; subst
  | print _ _ = _ => apply print_Ret in H; subst
  | @mret M _ _ _ _ = _ => apply mret_Ret in H as [-> ->]
  | _ => idtac
  end.

Ltac run_step H :=
  lazymatch type of H with
  | mbind _ _ _ = (Ret _, _) =>
      let a := fresh "a" in
      let s1 := fresh "s" in
      let H1 := fresh "Hrun" in
      apply bind_Ret_inv in H as (a & s1 & H1 & H);
      lazymatch type of H1 with
      | mbind _ _ _ = (Ret _, _) => repeat run_step H1; run_leaf H1
      | _ => run_leaf H1
      end
  end.

Ltac run_inv H := repeat run_step H; run_leaf H.

Ltac keeps_pipeline :=
  repeat first
    [ apply keeps_ret
    | apply keeps_bind; [|intros]
    | apply keeps_define_p_eqns; reflexivity
    | apply keeps_define_r_eqns; reflexivity
    | apply keeps_define_xi_eqns; reflexivity
    | apply keeps_define_xi_model_eqn; reflexivity
    | apply keeps_define_xi_related_eqns; reflexivity
    | apply keeps_define_varphi_model_eqn; reflexivity
    | apply keeps_define_varphi_related_eqns; reflexivity
    | apply keeps_define_Fstar_eqns; reflexivity
    | apply keeps_define_H_eqns; reflexivity
    | apply keeps_define_rdot_eqns; reflexivity
    | apply keeps_define_pdot_eqns; reflexivity
    | apply keeps_define_Hamiltons_eqns; reflexivity
    | apply keeps_define_tanalpha_eqns; reflexivity
    | apply keeps_define_tanbeta_eqns; reflexivity
    | apply keeps_define_g_eqns; reflexivity
    | apply keeps_define_idtx_fgtx_eqns; reflexivity
    | apply keeps_prep_geodesic_eqns; reflexivity
    | apply keeps_define_geodesic_eqns; reflexivity
    | apply keeps_define_px_poly_eqn; reflexivity
    | apply keeps_prep_ibc_eqns; reflexivity
    | apply keeps_define_ibc_eqns; reflexivity
    | apply keeps_set_ibc_eqns; reflexivity
    | match goal with |- keeps _ (if ?b then _ else _) => destruct b end ].

(** Splits [H : (m1;; m2;; ...) s = (Ret tt, s')] into the runs of the stages. *)
Ltac stages_inv H :=
  repeat
    (let u := fresh "u" in
     let s1 := fresh "s" in
     let H1 := fresh "Hstage" in
     apply bind_Ret_inv in H as (u & s1 & H1 & H); destruct u).

Section Pipeline.

Context {cas : SymPy}.
Variable self : config.

Lemma bind_cong {A B : Type} (m : M A) (f g : A -> M B) s :
  (forall a s1, f a s1 = g a s1) -> (m ≫= f) s = (m ≫= g) s.
Proof.
  intros H. rewrite !bind_unfold. destruct (m s) as [[a|e] s1]; [apply H|reflexivity].
Qed.

(** [init] is the three parts in sequence. *)
Lemma init_parts parameters do_idtx do_geodesic s :
  init self parameters do_idtx do_geodesic false s =
  (derivation_before self ≫= fun _ =>
   define_tanbeta_eqns self true ≫= fun _ =>
   define_g_eqns self ≫= fun _ =>
   later_stages self parameters do_idtx do_geodesic) s.
Proof.
  unfold init, derivation_before. symmetry.
  repeat (rewrite bind_assoc; apply bind_cong; clear s; intros [] s).
  reflexivity.
Qed.

(** A successful construction, stage by stage. *)
Lemma init_Ret_parts parameters do_idtx do_geodesic s st :
  init self parameters do_idtx do_geodesic false s = (Ret tt, st) ->
  exists s1 s2 s3,
    derivation_before self s = (Ret tt, s1)
    /\ define_tanbeta_eqns self true s1 = (Ret tt, s2)
    /\ define_g_eqns self s2 = (Ret tt, s3)
    /\ later_stages self parameters do_idtx do_geodesic s3 = (Ret tt, st).
Proof.
  rewrite init_parts. intros H.
  apply bind_Ret_inv in H as ([] & s1 & H1 & H).
  apply bind_Ret_inv in H as ([] & s2 & H2 & H).
  apply bind_Ret_inv in H as ([] & s3 & H3 & H).
  exists s1, s2, s3. repeat split; assumption.
Qed.

Lemma not_among_app k ws1 ws2 :
  not_among k (ws1 ++ ws2)%list = true ->
  not_among k ws1 = true /\ not_among k ws2 = true.
Proof. unfold not_among. rewrite forallb_app. apply andb_prop. Qed.

Lemma keeps_later_stages k parameters do_idtx do_geodesic :
  not_among k
    (writes_define_idtx_fgtx_eqns ++ writes_prep_geodesic_eqns
     ++ writes_define_geodesic_eqns ++ writes_define_px_poly_eqn
     ++ writes_prep_ibc_eqns ++ writes_define_ibc_eqns
     ++ writes_set_ibc_eqns)%list = true ->
  keeps k (later_stages self parameters do_idtx do_geodesic).
Proof.
  intros H.
  apply not_among_app in H as [H1 H].
  apply not_among_app in H as [H2 H].
  apply not_among_app in H as [H3 H].
  apply not_among_app in H as [H4 H].
  apply not_among_app in H as [H5 H].
  apply not_among_app in H as [H6 H7].
  unfold later_stages.
  apply keeps_bind.
  { destruct do_idtx; [exact (keeps_define_idtx_fgtx_eqns self k H1)|apply keeps_ret]. }
  intros _. apply keeps_bind.
  { destruct do_geodesic; [|apply keeps_ret].
    apply keeps_bind; [exact (keeps_prep_geodesic_eqns self k _ H2)|].
    intros _. exact (keeps_define_geodesic_eqns self k _ H3). }
  intros _. apply keeps_bind; [exact (keeps_define_px_poly_eqn self k _ H4)|].
  intros _. apply keeps_bind; [exact (keeps_prep_ibc_eqns k H5)|].
  intros _. apply keeps_bind; [exact (keeps_define_ibc_eqns k H6)|].
  intros _. exact (keeps_set_ibc_eqns self k H7).
Qed.

End Pipeline.

(** * The stages, one attribute at a time *)

(** The frame lemma of the stage at the head of the goal. *)
Ltac keeps_stage_lemma :=
  lazymatch goal with
  | |- keeps _ define_p_eqns => apply keeps_define_p_eqns
  | |- keeps _ define_r_eqns => apply keeps_define_r_eqns
  | |- keeps _ define_xi_eqns => apply keeps_define_xi_eqns
  | |- keeps _ (define_xi_model_eqn _) => apply keeps_define_xi_model_eqn
  | |- keeps _ (define_xi_related_eqns _) => apply keeps_define_xi_related_eqns
  | |- keeps _ (define_varphi_model_eqn _) => apply keeps_define_varphi_model_eqn
  | |- keeps _ define_varphi_related_eqns => apply keeps_define_varphi_related_eqns
  | |- keeps _ define_Fstar_eqns => apply keeps_define_Fstar_eqns
  | |- keeps _ define_H_eqns => apply keeps_define_H_eqns
  | |- keeps _ define_rdot_eqns => apply keeps_define_rdot_eqns
  | |- keeps _ define_pdot_eqns => apply keeps_define_pdot_eqns
  | |- keeps _ define_Hamiltons_eqns => apply keeps_define_Hamiltons_eqns
  | |- keeps _ define_tanalpha_eqns => apply keeps_define_tanalpha_eqns
  | |- keeps _ (define_tanbeta_eqns _ _) => apply keeps_define_tanbeta_eqns
  | |- keeps _ (define_g_eqns _) => apply keeps_define_g_eqns
  | |- keeps _ (define_idtx_fgtx_eqns _) => apply keeps_define_idtx_fgtx_eqns
  | |- keeps _ (prep_geodesic_eqns _ _) => apply keeps_prep_geodesic_eqns
  | |- keeps _ (define_geodesic_eqns _ _) => apply keeps_define_geodesic_eqns
  | |- keeps _ (define_px_poly_eqn _ _) => apply keeps_define_px_poly_eqn
  | |- keeps _ prep_ibc_eqns => apply keeps_prep_ibc_eqns
  | |- keeps _ define_ibc_eqns => apply keeps_define_ibc_eqns
  | |- keeps _ (set_ibc_eqns _) => apply keeps_set_ibc_eqns
  | |- keeps _ (later_stages _ _ _ _) => apply keeps_later_stages
  end; reflexivity.

(** Carries a lookup in the state after a stage back to the state
    before it, as long as the stage does not write the attribute. *)
Ltac frame_back :=
  repeat
    match goal with
    | H : ?m ?s = (_, ?s') |- context [attrs ?s' !! ?k] =>
        rewrite (keeps_run k m s _ s' ltac:(keeps_stage_lemma) H)
    end.

(** The lookup of a literal attribute name in a store built by
    assignments. *)
Ltac lookup_store :=
  cbn [attrs];
  repeat first
    [ rewrite lookup_insert_eq
    | rewrite lookup_insert_ne by discriminate ].

Section Derivation.

Context {cas : SymPy}.
Variable self : config.

Lemma derivation_before_Ret s st :
  derivation_before self s = (Ret tt, st) ->
  exists s1 s2 s3 s4 s5 s6 s7 s8 s9 s10 s11 s12,
    define_p_eqns s = (Ret tt, s1)
    /\ define_r_eqns s1 = (Ret tt, s2)
    /\ define_xi_eqns s2 = (Ret tt, s3)
    /\ define_xi_model_eqn self s3 = (Ret tt, s4)
    /\ define_xi_related_eqns self s4 = (Ret tt, s5)
    /\ define_varphi_model_eqn self s5 = (Ret tt, s6)
    /\ define_varphi_related_eqns s6 = (Ret tt, s7)
    /\ define_Fstar_eqns s7 = (Ret tt, s8)
    /\ define_H_eqns s8 = (Ret tt, s9)
    /\ define_rdot_eqns s9 = (Ret tt, s10)
    /\ define_pdot_eqns s10 = (Ret tt, s11)
    /\ define_Hamiltons_eqns s11 = (Ret tt, s12)
    /\ define_tanalpha_eqns s12 = (Ret tt, st).
Proof.
  unfold derivation_before. intros H.
  apply bind_Ret_inv in H as ([] & s1 & H1 & H).
  apply bind_Ret_inv in H as ([] & s2 & H2 & H).
  apply bind_Ret_inv in H as ([] & s3 & H3 & H).
  apply bind_Ret_inv in H as ([] & s4 & H4 & H).
  apply bind_Ret_inv in H as ([] & s5 & H5 & H).
  apply bind_Ret_inv in H as ([] & s6 & H6 & H).
  apply bind_Ret_inv in H as ([] & s7 & H7 & H).
  apply bind_Ret_inv in H as ([] & s8 & H8 & H).
  apply bind_Ret_inv in H as ([] & s9 & H9 & H).
  apply bind_Ret_inv in H as ([] & s10 & H10 & H).
  apply bind_Ret_inv in H as ([] & s11 & H11 & H).
  apply bind_Ret_inv in H as ([] & s12 & H12 & H).
  exists s1, s2, s3, s4, s5, s6, s7, s8, s9, s10, s11, s12.
  repeat split; assumption.
Qed.

(** ** Zero coefficients *)

Lemma mul_zero_l a b : is_zero a = true -> is_zero (mul a b) = true.
Proof.
  destruct a as [p| | | | | | | |]; try discriminate. simpl. intros Hp.
  destruct b as [q| | | | | | | |]; try (now rewrite Hp).
  simpl. apply Qeq_bool_iff. rewrite Qred_correct.
  apply Qeq_bool_iff in Hp. rewrite Hp. ring.
Qed.

Lemma eval_is_zero rho e : is_zero e = true -> eval rho e = 0%R.
Proof.
  destruct e; try discriminate. simpl. intros H.
  apply Qeq_bool_iff in H. rewrite (Qeq_eqR _ _ H). apply RMicromega.Q2R_0.
Qed.

Lemma define_pdot_eqns_pdotz s s' :
  define_pdot_eqns s = (Ret tt, s') ->
  exists e, is_zero e = true
    /\ attrs s' !! "pdotz_pxpz_eqn" = Some (VEq (simplify_eq (Eq pdotz e))).
Proof.
  intros H. unfold define_pdot_eqns in H. cbv zeta in H. run_inv H.
  eexists. split; [|lookup_store; reflexivity].
  repeat apply mul_zero_l. reflexivity.
Qed.

End Derivation.

(** ** The reference instance is sound *)

Lemma is_int_Qeq p q : Qeq p q -> is_int p = is_int q.
Proof. intros H. unfold is_int. now rewrite (Qred_complete _ _ H). Qed.

Lemma int_exp_eqb a b : expr_eqb a b = true -> int_exp a = int_exp b.
Proof.
  destruct a, b; try discriminate; try reflexivity.
  simpl. intros H. apply is_int_Qeq. now apply Qeq_bool_iff.
Qed.

Lemma func_eqb_eq f g : func_eqb f g = true -> f = g.
Proof. destruct f, g; (reflexivity || discriminate). Qed.

Lemma expr_eqb_eval rho a : forall b, expr_eqb a b = true -> eval rho a = eval rho b.
Proof.
  induction a as [p|p|s|a1 IH1 a2 IH2|a1 IH1 a2 IH2|a1 IH1 a2 IH2|f a1 IH1|a1 IH1 a2 IH2|a1 IH1 a2 IH2];
    intros [q|q|t|b1 b2|b1 b2|b1 b2|g b1|b1 b2|b1 b2]; try discriminate; simpl; intros H;
    try (apply andb_prop in H as [H1 H2]).
  - apply Qeq_eqR. now apply Qeq_bool_iff.
  - apply Qeq_eqR. now apply Qeq_bool_iff.
  - apply String.eqb_eq in H. now subst.
  - now rewrite (IH1 _ H1), (IH2 _ H2).
  - now rewrite (IH1 _ H1), (IH2 _ H2).
  - unfold rpow. now rewrite (IH1 _ H1), (IH2 _ H2), (int_exp_eqb _ _ H2).
  - apply func_eqb_eq in H1. subst. now rewrite (IH1 _ H2).
  - reflexivity.
  - reflexivity.
Qed.

Lemma expr_eqb_wd rho a : forall b, expr_eqb a b = true -> wd rho a -> wd rho b.
Proof.
  induction a as [p|p|s|a1 IH1 a2 IH2|a1 IH1 a2 IH2|a1 IH1 a2 IH2|f a1 IH1|a1 IH1 a2 IH2|a1 IH1 a2 IH2];
    intros [q|q|t|b1 b2|b1 b2|b1 b2|g b1|b1 b2|b1 b2]; try discriminate; simpl; intros H;
    try (apply andb_prop in H as [H1 H2]); try tauto.
  - intros [W1 W2]. split; eauto.
  - intros [W1 W2]. split; eauto.
  - intros (W1 & W2 & W3). split; [eauto|]. split; [eauto|].
    rewrite <- (int_exp_eqb _ _ H2), <- (expr_eqb_eval rho _ _ H1). exact W3.
  - apply func_eqb_eq in H1. subst g. intros [W1 W2]. split; [eauto|].
    rewrite <- (expr_eqb_eval rho _ _ H2). exact W2.
Qed.

Lemma reference_simplify_sound rho e :
  wd rho e ->
  eval rho (reference_simplify e) = eval rho e /\ wd rho (reference_simplify e).
Proof.
  intros W. unfold reference_simplify.
  destruct (expr_eqb e _) eqn:E; [|now split].
  change (div (neg (mul p (sin beta))) (mul (neg p) (cos beta)))
    with (Mul (Mul (Num (-1)) (Mul p (App Fsin beta)))
              (Pow (Mul (Mul (Num (-1)) p) (App Fcos beta)) (Num (-1)))) in E.
  pose proof (expr_eqb_wd rho _ _ E W) as W'.
  rewrite (expr_eqb_eval rho _ _ E).
  cbn [wd eval eval_func] in W'. destruct W' as (_ & (_ & _ & Hne)).
  change (int_exp (Num (-1))) with (Some (-1)%Z) in Hne.
  cbn [eval eval_func tan beta p]. unfold rpow.
  change (int_exp (Num (-1))) with (Some (-1)%Z).
  cbn [wd].
  replace (Q2R (-1)) with (-1)%R in * by (unfold Q2R; simpl; lra).
  assert (Hc : Rtrigo_def.cos (rho "beta") <> 0%R).
  { intros Hc. apply Hne. unfold beta. cbn [eval]. rewrite Hc. ring. }
  assert (Hp : rho "p" <> 0%R).
  { intros Hp. apply Hne. unfold p. cbn [eval]. rewrite Hp. ring. }
  split; [|now split].
  unfold Rtrigo1.tan. simpl powerRZ.
  field. split; [exact Hc|exact Hp].
Qed.

#[global] Instance reference_cas_sound : SymPySound reference_cas.
Proof.
  split; intros rho e W; apply (reference_simplify_sound rho e W).
Qed.

(** * The slowness rate along z *)

Section SlownessRate.

Context {cas : SymPy} {sound : SymPySound cas}.
Variable self : config.

(** C1: in every completed construction that derives the equations (any
    [eta], [mu], tilt model, flow model, boundary profile, with or
    without the indicatrix and geodesic stages), [pdotz_pxpz_eqn] is
    stored, its left-hand side denotes the slowness rate along z and its
    right-hand side is zero for every value of every symbol. *)
Theorem pdotz_identically_zero parameters do_idtx do_geodesic st :
  Equations self parameters do_idtx do_geodesic false = (Ret tt, st) ->
  exists q,
    attrs st !! "pdotz_pxpz_eqn" = Some (VEq q)
    /\ forall rho, eval rho (lhs q) = rho "pdot_z" /\ eval rho (rhs q) = 0%R.
Proof.
  unfold Equations. intros H.
  apply init_Ret_parts in H as (s13 & s14 & s15 & Hd & Ht & Hg & Hl).
  apply derivation_before_Ret in Hd
    as (s1 & s2 & s3 & s4 & s5 & s6 & s7 & s8 & s9 & s10 & s11 & s12
        & _ & _ & _ & _ & _ & _ & _ & _ & _ & _ & Hp & Hh & Ha).
  apply define_pdot_eqns_pdotz in Hp as (e & He & Hp).
  exists (simplify_eq (Eq pdotz e)). split.
  - frame_back. exact Hp.
  - intros rho. unfold simplify_eq. cbn [lhs rhs]. split.
    + now rewrite simplify_sound.
    + rewrite simplify_sound; [apply eval_is_zero; exact He|].
      destruct e; try discriminate. exact I.
Qed.

End SlownessRate.

(** The default construction on the reference instance. *)
Lemma pdotz_identically_zero_default :
  exists q,
    attrs (@Equations reference_cas default_config None false false false).2
      !! "pdotz_pxpz_eqn" = Some (VEq q)
    /\ forall rho, eval rho (lhs q) = rho "pdot_z" /\ eval rho (rhs q) = 0%R.
Proof.
  apply (@pdotz_identically_zero reference_cas reference_cas_sound
           default_config None false false).
  apply run_Ret_eta. vm_compute. reflexivity.
Defined.

(** * The flow model *)

(** Runs the statements at the head of the goal [m s = _]. *)
Ltac run_fwd :=
  repeat first
    [ rewrite bind_assoc
    | rewrite bind_setattr; cbn [attrs stdout]
    | rewrite bind_print; cbn [attrs stdout]
    | rewrite bind_mret
    | rewrite bind_raise
    | erewrite bind_self_eq by (lookup_store; first [eassumption | reflexivity])
    | erewrite bind_self_mateq by (lookup_store; first [eassumption | reflexivity])
    | erewrite bind_self_mat by (lookup_store; first [eassumption | reflexivity])
    | erewrite bind_self_int by (lookup_store; first [eassumption | reflexivity])
    | erewrite bind_self_dict by (lookup_store; first [eassumption | reflexivity])
    | erewrite bind_lift_index by eassumption
    | erewrite bind_index by eassumption ].

Section FlowModel.

Context {cas : SymPy}.
Variable self : config.

Lemma define_varphi_model_eqn_run s :
  define_varphi_model_eqn self s =
  let s' closure :=
    mkState
      (<["varphi_rx_eqn" := VEq closure]>
         (<["varphi_model_rampflatmu_eqn" := VEq varphi_model_rampflatmu_eqn]>
            (<["varphi_model_rampflat_eqn" := VEq varphi_model_rampflat_eqn]>
               (<["varphi_model_rampmu_chi0_eqn" := VEq varphi_model_ramp_eqn]>
                  (<["varphi_model_ramp_eqn" := VEq varphi_model_ramp_eqn]>
                     (attrs s))))))
      (stdout s) in
  if String.eqb (varphi_type self) "ramp" then (Ret tt, s' varphi_model_ramp_eqn)
  else if String.eqb (varphi_type self) "ramp-flat" then
    if Qeqb (cfg_mu self) (1 # 2) then (Ret tt, s' varphi_model_rampflat_eqn)
    else (Ret tt, s' varphi_model_rampflatmu_eqn)
  else
    (Raise (ValueError "Unknown flow model"),
     mkState
       (<["varphi_model_rampflatmu_eqn" := VEq varphi_model_rampflatmu_eqn]>
          (<["varphi_model_rampflat_eqn" := VEq varphi_model_rampflat_eqn]>
             (<["varphi_model_rampmu_chi0_eqn" := VEq varphi_model_ramp_eqn]>
                (<["varphi_model_ramp_eqn" := VEq varphi_model_ramp_eqn]>
                   (attrs s)))))
       (stdout s)).
Proof.
  unfold define_varphi_model_eqn.
  destruct (String.eqb (varphi_type self) "ramp");
    [|destruct (String.eqb (varphi_type self) "ramp-flat");
      [destruct (Qeqb (cfg_mu self) (1 # 2))|]];
    reflexivity.
Qed.

(** C5: the flow-model stage stores as [varphi_rx_eqn] the power-law
    ramp closure for ['ramp']; for ['ramp-flat'] the logistic-integral
    closure exactly when [mu = 1/2] and the smoothed-logistic closure for
    every other [mu]; for any other variant it raises
    [ValueError('Unknown flow model')], from any state, and construction
    does not complete. *)
Theorem flow_model_selection :
  (varphi_type self = "ramp" ->
   forall s, exists s',
     define_varphi_model_eqn self s = (Ret tt, s')
     /\ attrs s' !! "varphi_rx_eqn" = Some (VEq varphi_model_ramp_eqn))
  /\ (varphi_type self = "ramp-flat" -> cfg_mu self == 1 # 2 ->
      forall s, exists s',
        define_varphi_model_eqn self s = (Ret tt, s')
        /\ attrs s' !! "varphi_rx_eqn" = Some (VEq varphi_model_rampflat_eqn))
  /\ (varphi_type self = "ramp-flat" -> ~ cfg_mu self == 1 # 2 ->
      forall s, exists s',
        define_varphi_model_eqn self s = (Ret tt, s')
        /\ attrs s' !! "varphi_rx_eqn" = Some (VEq varphi_model_rampflatmu_eqn))
  /\ (varphi_type self <> "ramp" -> varphi_type self <> "ramp-flat" ->
      (forall s, exists s',
         define_varphi_model_eqn self s
         = (Raise (ValueError "Unknown flow model"), s')
         /\ attrs s' !! "varphi_rx_eqn" = attrs s !! "varphi_rx_eqn")
      /\ forall parameters do_idtx do_geodesic,
           (Equations self parameters do_idtx do_geodesic false).1 <> Ret tt).
Proof.
  split; [|split; [|split]]; [| | |intros H H0; split].
  - intros Hv s. rewrite define_varphi_model_eqn_run, Hv. cbn zeta.
    change (String.eqb "ramp" "ramp") with true. cbn iota.
    eexists. split; [reflexivity|]. lookup_store. reflexivity.
  - intros Hv Hmu s. rewrite define_varphi_model_eqn_run, Hv. cbn zeta.
    change (String.eqb "ramp-flat" "ramp") with false.
    change (String.eqb "ramp-flat" "ramp-flat") with true. cbn iota.
    unfold Qeqb. apply Qeq_bool_iff in Hmu. rewrite Hmu.
    eexists. split; [reflexivity|]. lookup_store. reflexivity.
  - intros Hv Hmu s. rewrite define_varphi_model_eqn_run, Hv. cbn zeta.
    change (String.eqb "ramp-flat" "ramp") with false.
    change (String.eqb "ramp-flat" "ramp-flat") with true. cbn iota.
    unfold Qeqb. destruct (Qeq_bool (cfg_mu self) (1 # 2)) eqn:E.
    { exfalso. apply Hmu. now apply Qeq_bool_iff. }
    eexists. split; [reflexivity|]. lookup_store. reflexivity.
  - intros s. rewrite define_varphi_model_eqn_run. cbn zeta.
    apply String.eqb_neq in H, H0. rewrite H, H0.
    eexists. split; [reflexivity|]. lookup_store. reflexivity.
  - intros parameters do_idtx do_geodesic Hret.
    apply run_Ret_eta in Hret. unfold Equations in Hret.
    apply init_Ret_parts in Hret as (s13 & s14 & s15 & Hd & _).
    apply derivation_before_Ret in Hd
      as (s1 & s2 & s3 & s4 & s5 & s6 & s7 & s8 & s9 & s10 & s11 & s12
          & _ & _ & _ & _ & _ & Hm & _).
    rewrite define_varphi_model_eqn_run in Hm. cbn zeta in Hm.
    apply String.eqb_neq in H, H0. rewrite H, H0 in Hm. discriminate.
Qed.

End FlowModel.

(** The four cases on the reference instance: the default ['ramp']; the
    two ['ramp-flat'] cases; and an unknown variant, for which the
    construction ends in the error. *)
Lemma flow_model_selection_cases :
  (exists s',
     @define_varphi_model_eqn reference_cas default_config fresh = (Ret tt, s')
     /\ attrs s' !! "varphi_rx_eqn" = Some (VEq varphi_model_ramp_eqn))
  /\ (exists s',
        @define_varphi_model_eqn reference_cas
          (with_mu (1 # 2) (with_varphi_type "ramp-flat" default_config)) fresh
        = (Ret tt, s')
        /\ attrs s' !! "varphi_rx_eqn" = Some (VEq (@varphi_model_rampflat_eqn reference_cas)))
  /\ (exists s',
        @define_varphi_model_eqn reference_cas
          (with_varphi_type "ramp-flat" default_config) fresh
        = (Ret tt, s')
        /\ attrs s' !! "varphi_rx_eqn" = Some (VEq (@varphi_model_rampflatmu_eqn reference_cas)))
  /\ (@Equations reference_cas (with_varphi_type "flat" default_config)
        None false false false).1 <> Ret tt
  /\ (@Equations reference_cas (with_varphi_type "flat" default_config)
        None false false false).1 = Raise (ValueError "Unknown flow model").
Proof.
  split; [|split; [|split; [|split]]].
  - apply (proj1 (@flow_model_selection reference_cas default_config)).
    reflexivity.
  - apply (proj1 (proj2 (@flow_model_selection reference_cas
             (with_mu (1 # 2) (with_varphi_type "ramp-flat" default_config)))));
      reflexivity.
  - apply (proj1 (proj2 (proj2 (@flow_model_selection reference_cas
             (with_varphi_type "ramp-flat" default_config))))).
    + reflexivity.
    + intros H. vm_compute in H. discriminate.
  - apply (proj2 (proj2 (proj2 (proj2 (@flow_model_selection reference_cas
             (with_varphi_type "flat" default_config)))) ltac:(discriminate) ltac:(discriminate))).
  - vm_compute. reflexivity.
Defined.

(** * What the derivation leaves for the later stages *)

Ltac stage_sets H :=
  cbv zeta in H; run_inv H; try eexists; lookup_store; reflexivity.

Section Outputs.

Context {cas : SymPy}.
Variable self : config.

Lemma define_p_eqns_sets s s' :
  define_p_eqns s = (Ret tt, s') ->
  attrs s' !! "p_covec_eqn" = Some (VMatEq pcovec (transpose [[px]; [pz]])).
Proof. intros H. unfold define_p_eqns in H. stage_sets H. Qed.

Lemma define_xi_related_eqns_sets s s' :
  define_xi_related_eqns self s = (Ret tt, s') ->
  exists q, attrs s' !! "px_xiv_varphi_eqn" = Some (VEq q).
Proof. intros H. unfold define_xi_related_eqns in H. stage_sets H. Qed.

Lemma define_varphi_model_eqn_sets s s' :
  define_varphi_model_eqn self s = (Ret tt, s') ->
  exists q, attrs s' !! "varphi_rx_eqn" = Some (VEq q).
Proof. intros H. unfold define_varphi_model_eqn in H. stage_sets H. Qed.

Lemma define_varphi_related_eqns_sets s s' :
  define_varphi_related_eqns s = (Ret tt, s') ->
  exists q, attrs s' !! "p_varphi_beta_eqn" = Some (VEq q).
Proof. intros H. unfold define_varphi_related_eqns in H. stage_sets H. Qed.

Lemma define_rdot_eqns_sets s s' :
  define_rdot_eqns s = (Ret tt, s') ->
  exists qx qz,
    attrs s' !! "rdotx_pxpz_eqn" = Some (VEq qx)
    /\ attrs s' !! "rdotz_pxpz_eqn" = Some (VEq qz)
    /\ attrs s' !! "rdot_vec_eqn" = Some (VMatEq rdotvec [[rhs qx]; [rhs qz]])
    /\ attrs s' !! "rdot_p_unity_eqn"
       = Some (VEq (Eq (add (mul rdotx px) (mul rdotz pz)) (Num 1))).
Proof.
  intros H. unfold define_rdot_eqns in H. cbv zeta in H. run_inv H.
  eexists _, _. repeat split; lookup_store; reflexivity.
Qed.

Lemma define_tanalpha_eqns_sets s s' :
  define_tanalpha_eqns s = (Ret tt, s') ->
  exists q, attrs s' !! "tanalpha_beta_eqn" = Some (VEq q).
Proof. intros H. unfold define_tanalpha_eqns in H. stage_sets H. Qed.

End Outputs.

(** * The degenerate sine case *)

Section Degenerate.

Context {cas : SymPy}.
Variable self : config.

Lemma derivation_before_attrs s st :
  derivation_before self s = (Ret tt, st) ->
  exists q1 q2 q3 qx qz q4,
    attrs st !! "p_covec_eqn" = Some (VMatEq pcovec (transpose [[px]; [pz]]))
    /\ attrs st !! "px_xiv_varphi_eqn" = Some (VEq q1)
    /\ attrs st !! "varphi_rx_eqn" = Some (VEq q2)
    /\ attrs st !! "p_varphi_beta_eqn" = Some (VEq q3)
    /\ attrs st !! "rdotx_pxpz_eqn" = Some (VEq qx)
    /\ attrs st !! "rdotz_pxpz_eqn" = Some (VEq qz)
    /\ attrs st !! "rdot_vec_eqn" = Some (VMatEq rdotvec [[rhs qx]; [rhs qz]])
    /\ attrs st !! "rdot_p_unity_eqn"
       = Some (VEq (Eq (add (mul rdotx px) (mul rdotz pz)) (Num 1)))
    /\ attrs st !! "tanalpha_beta_eqn" = Some (VEq q4).
Proof.
  intros H.
  apply derivation_before_Ret in H
    as (s1 & s2 & s3 & s4 & s5 & s6 & s7 & s8 & s9 & s10 & s11 & s12
        & H1 & H2 & H3 & H4 & H5 & H6 & H7 & H8 & H9 & H10 & H11 & H12 & H13).
  pose proof (define_p_eqns_sets _ _ H1) as A1.
  destruct (define_xi_related_eqns_sets _ _ _ H5) as (q1 & A2).
  destruct (define_varphi_model_eqn_sets _ _ _ H6) as (q2 & A3).
  destruct (define_varphi_related_eqns_sets _ _ H7) as (q3 & A4).
  destruct (define_rdot_eqns_sets _ _ H10) as (qx & qz & A5 & A6 & A7 & A8).
  destruct (define_tanalpha_eqns_sets _ _ H13) as (q4 & A9).
  exists q1, q2, q3, qx, qz, q4.
  repeat split; frame_back; assumption.
Qed.

Hypothesis eta_one : cfg_eta self == 1.
Hypothesis sine : beta_type self = "sin".

Lemma guard_eta_one :
  Qeqb (cfg_eta self) 1 && String.eqb (beta_type self) "sin" = true.
Proof.
  unfold Qeqb. rewrite sine. apply andb_true_intro. split; [|reflexivity].
  now apply Qeq_bool_iff.
Qed.

Lemma guard_eta_ge_one :
  Qleb 1 (cfg_eta self) && String.eqb (beta_type self) "sin" = true.
Proof.
  unfold Qleb. rewrite sine. apply andb_true_intro. split; [|reflexivity].
  apply Qle_bool_iff. rewrite eta_one. apply Qle_refl.
Qed.

Lemma define_tanbeta_eqns_skip b s q :
  attrs s !! "tanalpha_beta_eqn" = Some (VEq q) ->
  exists s' w,
    define_tanbeta_eqns self b s = (Ret tt, s')
    /\ (w = [] \/ w = [warning_beta])
    /\ stdout s' = (stdout s ++ w ++ [notice_beta])%list
    /\ attrs s' !! "tanbeta_alpha_eqn" = Some VNone.
Proof.
  intros Hq. unfold define_tanbeta_eqns. rewrite guard_eta_one. cbv zeta.
  run_fwd.
  destruct b.
  - run_fwd.
    destruct (@List.filter expr _ _) as [|e1 l1];
      [destruct (@map expr expr _ _) as [|e2 l2]|];
      run_fwd.
    + eexists _, []. split; [reflexivity|]. split; [now left|].
      split; [reflexivity|]. lookup_store. reflexivity.
    + eexists _, [warning_beta]. split; [reflexivity|]. split; [now right|].
      split; [cbn [stdout]; now rewrite <- app_assoc|]. lookup_store. reflexivity.
    + eexists _, []. split; [reflexivity|]. split; [now left|].
      split; [reflexivity|]. lookup_store. reflexivity.
  - run_fwd.
    eexists _, []. split; [reflexivity|]. split; [now left|].
    split; [reflexivity|]. lookup_store. reflexivity.
Qed.

Lemma define_g_eqns_skip s l1 rdot_vec l2 p_covec p0 p1 :
  attrs s !! "rdot_vec_eqn" = Some (VMatEq l1 rdot_vec) ->
  attrs s !! "p_covec_eqn" = Some (VMatEq l2 p_covec) ->
  mflat p_covec 0 = Some p0 ->
  mflat p_covec 1 = Some p1 ->
  exists s' gs d,
    define_g_eqns self s = (Ret tt, s')
    /\ stdout s' = (stdout s ++ [notice_g])%list
    /\ attrs s' !! "gstar_varphi_pxpz_eqn" = Some (VMatEq (subs (eta_sub self) gstar) gs)
    /\ attrs s' !! "det_gstar_varphi_pxpz_eqn" = Some (VEq d)
    /\ attrs s' !! "g_varphi_pxpz_eqn" = Some VNone
    /\ attrs s' !! "gstar_eigen_varphi_pxpz" = Some VNone
    /\ attrs s' !! "gstar_eigenvalues" = Some VNone
    /\ attrs s' !! "gstar_eigenvectors" = Some VNone.
Proof.
  intros Hr Hp H0 H1. unfold define_g_eqns. rewrite guard_eta_one. cbv zeta.
  run_fwd.
  eexists _, _, _. split; [reflexivity|]. split; [reflexivity|].
  repeat split; lookup_store; reflexivity.
Qed.

End Degenerate.

(** * The later stages *)

Section Later.

Context {cas : SymPy}.
Variable self : config.

Lemma prep_geodesic_eqns_skip parameters s :
  Qleb 1 (cfg_eta self) && String.eqb (beta_type self) "sin" = true ->
  exists s',
    prep_geodesic_eqns self parameters s = (Ret tt, s')
    /\ stdout s' = (stdout s ++ [notice_geodesic])%list
    /\ Forall (unavailable s') writes_prep_geodesic_eqns.
Proof.
  intros Hg. unfold prep_geodesic_eqns. rewrite Hg. run_fwd.
  eexists. split; [reflexivity|]. split; [reflexivity|].
  unfold writes_prep_geodesic_eqns, unavailable.
  repeat (apply Forall_cons; split; [lookup_store; reflexivity|]).
  apply Forall_nil_2.
Qed.

Lemma define_geodesic_eqns_skip parameters s :
  Qleb 1 (cfg_eta self) && String.eqb (beta_type self) "sin" = true ->
  exists s',
    define_geodesic_eqns self parameters s = (Ret tt, s')
    /\ stdout s' = (stdout s ++ [notice_geodesic])%list
    /\ Forall (unavailable s') writes_define_geodesic_eqns.
Proof.
  intros Hg. unfold define_geodesic_eqns. rewrite Hg. run_fwd.
  eexists. split; [reflexivity|]. split; [reflexivity|].
  unfold writes_define_geodesic_eqns, unavailable.
  repeat (apply Forall_cons; split; [lookup_store; reflexivity|]).
  apply Forall_nil_2.
Qed.

Lemma define_px_poly_eqn_Ret c s q1 q2 :
  attrs s !! "px_xiv_varphi_eqn" = Some (VEq q1) ->
  attrs s !! "varphi_rx_eqn" = Some (VEq q2) ->
  exists s' q,
    define_px_poly_eqn self c s = (Ret tt, s')
    /\ stdout s' = stdout s
    /\ attrs s' !! "poly_px_xiv0_eqn" = Some (VEq q).
Proof.
  intros H1 H2. unfold define_px_poly_eqn. cbv zeta. run_fwd.
  eexists _, _. split; [reflexivity|]. split; [reflexivity|].
  lookup_store. reflexivity.
Qed.

Lemma prep_ibc_eqns_Ret s q1 q2 q3 :
  attrs s !! "rdot_p_unity_eqn" = Some (VEq q1) ->
  attrs s !! "rdotx_pxpz_eqn" = Some (VEq q2) ->
  attrs s !! "rdotz_pxpz_eqn" = Some (VEq q3) ->
  exists s' q,
    prep_ibc_eqns s = (Ret tt, s')
    /\ stdout s' = stdout s
    /\ attrs s' !! "pzpx_unity_eqn" = Some (VEq q).
Proof.
  intros H1 H2 H3. unfold prep_ibc_eqns. run_fwd.
  eexists _, _. split; [reflexivity|]. split; [reflexivity|].
  lookup_store. reflexivity.
Qed.

Lemma define_ibc_eqns_Ret s :
  exists s' d,
    define_ibc_eqns s = (Ret tt, s')
    /\ stdout s' = stdout s
    /\ attrs s' !! "boundary_eqns" = Some (VDict d)
    /\ forall k, In k ["planar"; "convex-up"; "concave-up"] ->
         exists profile h_eqn gradh,
           assoc k d = Some profile
           /\ assoc "h" profile = Some h_eqn
           /\ assoc "gradh" profile = Some gradh.
Proof.
  unfold define_ibc_eqns.
  eexists _, _. split; [reflexivity|]. split; [reflexivity|].
  split; [lookup_store; reflexivity|].
  intros k [<-|[<-|[<-|[]]]]; eexists _, _, _; repeat split; reflexivity.
Qed.

Lemma set_ibc_eqns_Ret s d profile h_eqn gradh q1 q2 :
  attrs s !! "boundary_eqns" = Some (VDict d) ->
  assoc (ibc_type self) d = Some profile ->
  assoc "h" profile = Some h_eqn ->
  assoc "gradh" profile = Some gradh ->
  attrs s !! "p_varphi_beta_eqn" = Some (VEq q1) ->
  attrs s !! "varphi_rx_eqn" = Some (VEq q2) ->
  exists s' q,
    set_ibc_eqns self s = (Ret tt, s')
    /\ stdout s' = stdout s
    /\ attrs s' !! "pz_initial_eqn" = Some (VEq q).
Proof.
  intros Hd Hp Hh Hg H1 H2. unfold set_ibc_eqns. cbv zeta. run_fwd.
  erewrite bind_item by eassumption.
  erewrite bind_item by eassumption. run_fwd.
  erewrite bind_item by eassumption. run_fwd.
  eexists _, _. split; [reflexivity|]. split; [reflexivity|].
  lookup_store. reflexivity.
Qed.

End Later.

(** * Construction in the degenerate sine case *)

Section DegenerateConstruction.

Context {cas : SymPy}.
Variable self : config.
Hypothesis eta_one : cfg_eta self == 1.
Hypothesis sine : beta_type self = "sin".

(** C10: with [eta = 1] and the sine tilt, the metric stage, run on any
    state that holds the velocity vector and the slowness covector,
    returns after printing its notice; the dual metric
    [gstar_varphi_pxpz_eqn] and its determinant
    [det_gstar_varphi_pxpz_eqn] hold results, the primal metric and the
    eigen-decomposition outputs are [None]; and this is still so after
    the later stages, whatever their outcome. *)
Theorem dual_metric_computed_before_skip s l1 rdot_vec l2 p_covec p0 p1 :
  attrs s !! "rdot_vec_eqn" = Some (VMatEq l1 rdot_vec) ->
  attrs s !! "p_covec_eqn" = Some (VMatEq l2 p_covec) ->
  mflat p_covec 0 = Some p0 ->
  mflat p_covec 1 = Some p1 ->
  exists s',
    define_g_eqns self s = (Ret tt, s')
    /\ printed s s' [notice_g]
    /\ forall parameters do_idtx do_geodesic r st,
         st = s'
         \/ later_stages self parameters do_idtx do_geodesic s' = (r, st) ->
         available st "gstar_varphi_pxpz_eqn"
         /\ available st "det_gstar_varphi_pxpz_eqn"
         /\ Forall (unavailable st)
              ["g_varphi_pxpz_eqn"; "gstar_eigen_varphi_pxpz";
               "gstar_eigenvalues"; "gstar_eigenvectors"].
Proof.
  intros Hr Hp H0 H1.
  destruct (define_g_eqns_skip self eta_one sine s _ _ _ _ _ _ Hr Hp H0 H1)
    as (s' & gs & d & Hrun & Hout & A1 & A2 & A3 & A4 & A5 & A6).
  exists s'. split; [exact Hrun|]. split; [exact Hout|].
  intros parameters do_idtx do_geodesic r st [->|Hl].
  - split; [eexists; split; [exact A1|discriminate]|].
    split; [eexists; split; [exact A2|discriminate]|].
    repeat (apply Forall_cons; split; [assumption|]). apply Forall_nil_2.
  - unfold available, unavailable.
    split; [eexists; split; [frame_back; exact A1|discriminate]|].
    split; [eexists; split; [frame_back; exact A2|discriminate]|].
    repeat (apply Forall_cons; split; [frame_back; assumption|]).
    apply Forall_nil_2.
Qed.

(** C8: with [eta = 1] and the sine tilt, once the derivation up to the
    ray-angle relations has returned, construction (indicatrix stage not
    requested, a known boundary profile) returns: the angle and metric
    stages print their notices, as do the two geodesic stages when
    requested; the tan-beta inversion, the primal metric and the
    eigen-decomposition outputs are [None] in the final state, and so are
    all geodesic outputs when those stages ran; the polynomial and
    boundary-condition stages that follow have stored their results.
    With the indicatrix stage requested, construction equally goes on
    into the later stages. *)
Theorem degenerate_sine_construction_completes parameters do_geodesic s1 :
  In (ibc_type self) ["planar"; "convex-up"; "concave-up"] ->
  derivation_before self fresh = (Ret tt, s1) ->
  exists s3 st w,
    (forall do_idtx,
       Equations self parameters do_idtx do_geodesic false
       = later_stages self parameters do_idtx do_geodesic s3)
    /\ Equations self parameters false do_geodesic false = (Ret tt, st)
    /\ (w = [] \/ w = [warning_beta])
    /\ stdout st
       = (stdout s1 ++ w ++ [notice_beta; notice_g]
          ++ (if do_geodesic then [notice_geodesic; notice_geodesic] else []))%list
    /\ Forall (unavailable st)
         ["tanbeta_alpha_eqn"; "g_varphi_pxpz_eqn"; "gstar_eigen_varphi_pxpz";
          "gstar_eigenvalues"; "gstar_eigenvectors"]
    /\ (do_geodesic = true ->
        Forall (unavailable st)
          (writes_prep_geodesic_eqns ++ writes_define_geodesic_eqns))
    /\ Forall (available st)
         ["poly_px_xiv0_eqn"; "pzpx_unity_eqn"; "boundary_eqns";
          "pz_initial_eqn"].
Proof.
  intros Hibc Hd.
  destruct (derivation_before_attrs self _ _ Hd)
    as (q1 & q2 & q3 & qx & qz & q4
        & Ap & Axiv & Avarphi & Apvb & Ardx & Ardz & Ardv & Aunity & Ata).
  destruct (define_tanbeta_eqns_skip self eta_one sine true s1 q4 Ata)
    as (s2 & w & Ht & Hw & Ht_out & Ht_none).
  assert (Hr2 : attrs s2 !! "rdot_vec_eqn"
               = Some (VMatEq rdotvec [[rhs qx]; [rhs qz]])).
  { frame_back. exact Ardv. }
  assert (Hp2 : attrs s2 !! "p_covec_eqn"
               = Some (VMatEq pcovec (transpose [[px]; [pz]]))).
  { frame_back. exact Ap. }
  destruct (define_g_eqns_skip self eta_one sine s2 _ _ _ _ px pz Hr2 Hp2
              eq_refl eq_refl)
    as (s3 & gs & d & Hg & Hg_out & G1 & G2 & G3 & G4 & G5 & G6).
  assert (Hinit : forall do_idtx,
            Equations self parameters do_idtx do_geodesic false
            = later_stages self parameters do_idtx do_geodesic s3).
  { intros do_idtx. unfold Equations. rewrite init_parts.
    rewrite (bind_Ret_l _ _ _ _ _ Hd), (bind_Ret_l _ _ _ _ _ Ht).
    now rewrite (bind_Ret_l _ _ _ _ _ Hg). }
  (* the geodesic stages, if requested *)
  assert (Hgeo : exists s5,
            (if do_geodesic then
               prep_geodesic_eqns self (if do_raw self then None else parameters);;
               define_geodesic_eqns self (if do_raw self then None else parameters)
             else mret tt) s3 = (Ret tt, s5)
            /\ stdout s5
               = (stdout s3
                  ++ (if do_geodesic then [notice_geodesic; notice_geodesic]
                      else []))%list
            /\ (forall k, not_among k (writes_prep_geodesic_eqns
                                      ++ writes_define_geodesic_eqns) = true ->
                  attrs s5 !! k = attrs s3 !! k)
            /\ (do_geodesic = true ->
                Forall (unavailable s5)
                  (writes_prep_geodesic_eqns ++ writes_define_geodesic_eqns))).
  { destruct do_geodesic.
    - destruct (prep_geodesic_eqns_skip self
                  (if do_raw self then None else parameters) s3
                  (guard_eta_ge_one self eta_one sine))
        as (s4 & H4 & O4 & N4).
      destruct (define_geodesic_eqns_skip self
                  (if do_raw self then None else parameters) s4
                  (guard_eta_ge_one self eta_one sine))
        as (s5 & H5 & O5 & N5).
      exists s5. split; [now rewrite (bind_Ret_l _ _ _ _ _ H4)|].
      split; [rewrite O5, O4, <- app_assoc; reflexivity|].
      split.
      + intros k Hk. apply not_among_app in Hk as [Hk1 Hk2].
        rewrite (keeps_run k _ _ _ _ (keeps_define_geodesic_eqns self k _ Hk2) H5).
        apply (keeps_run k _ _ _ _ (keeps_prep_geodesic_eqns self k _ Hk1) H4).
      + intros _. apply Forall_app. split; [|exact N5].
        unfold writes_prep_geodesic_eqns in *. unfold unavailable in *.
        repeat match goal with
               | H : Forall _ (_ :: _) |- _ => apply Forall_cons in H as [? H]
               end.
        repeat (apply Forall_cons; split; [frame_back; assumption|]).
        apply Forall_nil_2.
    - exists s3. split; [reflexivity|]. split; [now rewrite app_nil_r|].
      split; [reflexivity|discriminate]. }
  destruct Hgeo as (s5 & H5 & O5 & K5 & N5).
  assert (Axiv5 : attrs s5 !! "px_xiv_varphi_eqn" = Some (VEq q1)).
  { rewrite K5 by reflexivity. frame_back. exact Axiv. }
  assert (Avarphi5 : attrs s5 !! "varphi_rx_eqn" = Some (VEq q2)).
  { rewrite K5 by reflexivity. frame_back. exact Avarphi. }
  destruct (define_px_poly_eqn_Ret self None s5 _ _ Axiv5 Avarphi5)
    as (s6 & qp & H6 & O6 & P6).
  assert (Aunity6 : attrs s6 !! "rdot_p_unity_eqn"
                    = Some (VEq (Eq (add (mul rdotx px) (mul rdotz pz)) (Num 1)))).
  { frame_back. rewrite K5 by reflexivity. frame_back. exact Aunity. }
  assert (Ardx6 : attrs s6 !! "rdotx_pxpz_eqn" = Some (VEq qx)).
  { frame_back. rewrite K5 by reflexivity. frame_back. exact Ardx. }
  assert (Ardz6 : attrs s6 !! "rdotz_pxpz_eqn" = Some (VEq qz)).
  { frame_back. rewrite K5 by reflexivity. frame_back. exact Ardz. }
  destruct (prep_ibc_eqns_Ret s6 _ _ _ Aunity6 Ardx6 Ardz6)
    as (s7 & qu & H7 & O7 & P7).
  destruct (define_ibc_eqns_Ret s7) as (s8 & dict & H8 & O8 & P8 & Hdict).
  destruct (Hdict _ Hibc) as (profile & h_eqn & gradh & D1 & D2 & D3).
  assert (Apvb8 : attrs s8 !! "p_varphi_beta_eqn" = Some (VEq q3)).
  { frame_back. rewrite K5 by reflexivity. frame_back. exact Apvb. }
  assert (Avarphi8 : attrs s8 !! "varphi_rx_eqn" = Some (VEq q2)).
  { frame_back. rewrite K5 by reflexivity. frame_back. exact Avarphi. }
  destruct (set_ibc_eqns_Ret self s8 _ _ _ _ _ _ P8 D1 D2 D3 Apvb8 Avarphi8)
    as (st & qi & H9 & O9 & P9).
  exists s3, st, w.
  split; [exact Hinit|].
  split.
  { rewrite Hinit. unfold later_stages. rewrite bind_mret.
    rewrite (bind_Ret_l _ _ _ _ _ H5), (bind_Ret_l _ _ _ _ _ H6).
    rewrite (bind_Ret_l _ _ _ _ _ H7), (bind_Ret_l _ _ _ _ _ H8).
    exact H9. }
  split; [exact Hw|].
  split.
  { rewrite O9, O8, O7, O6, O5, Hg_out, Ht_out.
    rewrite <- !app_assoc. reflexivity. }
  split.
  { unfold unavailable.
    repeat (apply Forall_cons; split;
            [frame_back; rewrite K5 by reflexivity; frame_back; assumption|]).
    apply Forall_nil_2. }
  split.
  { intros Hgd. specialize (N5 Hgd).
    unfold writes_prep_geodesic_eqns, writes_define_geodesic_eqns in *.
    unfold unavailable in *. cbn [app] in *.
    repeat match goal with
           | H : Forall _ (_ :: _) |- _ => apply Forall_cons in H as [? H]
           end.
    repeat (apply Forall_cons; split; [frame_back; assumption|]).
    apply Forall_nil_2. }
  unfold available.
  apply Forall_cons; split;
    [eexists; split; [frame_back; exact P6|discriminate]|].
  apply Forall_cons; split;
    [eexists; split; [frame_back; exact P7|discriminate]|].
  apply Forall_cons; split;
    [eexists; split; [frame_back; exact P8|discriminate]|].
  apply Forall_cons; split;
    [eexists; split; [exact P9|discriminate]|].
  apply Forall_nil_2.
Qed.

End DegenerateConstruction.

(** * The angle stage: stationary point and inversion *)

Lemma filter_first {A : Type} (f : A -> bool) before x after :
  Forall (fun r => f r = false) before ->
  f x = true ->
  List.filter f (before ++ x :: after) = x :: List.filter f after.
Proof.
  intros Hb Hx. induction Hb as [|r before Hr _ IH]; simpl.
  - now rewrite Hx.
  - now rewrite Hr.
Qed.

Section AngleStage.

Context {cas : SymPy}.
Variable self : config.

(** The first part of [define_tanbeta_eqns], up to the test for the
    degenerate case, always returns. *)
Lemma define_tanbeta_eqns_inversion b s q before soln after :
  Qeqb (cfg_eta self) 1 && String.eqb (beta_type self) "sin" = false ->
  attrs s !! "tanalpha_beta_eqn" = Some (VEq q) ->
  solve (subs_eq [(tan alpha, ta)] q) (tan beta) = (before ++ soln :: after)%list ->
  Forall (fun r => real_at_probe self r = false) before ->
  real_at_probe self soln = true ->
  exists s',
    define_tanbeta_eqns self b s = (Ret tt, s')
    /\ attrs s' !! "tanbeta_alpha_eqn"
       = Some (VEq (subs_eq [(ta, tan alpha)] (Eq (tan beta) (simplify soln)))).
Proof.
  intros Hg Hq Hsolve Hb Hx. unfold define_tanbeta_eqns. rewrite Hg. cbv zeta.
  assert (Hn : nth_error
                 (List.filter (real_at_probe self)
                    (solve (subs_eq [(tan alpha, ta)] q) (tan beta))) 0
               = Some soln).
  { rewrite Hsolve, (filter_first _ _ _ _ Hb Hx). reflexivity. }
  run_fwd.
  destruct b.
  - run_fwd. set (extrema := map simplify _).
    destruct (List.filter (real_positive self) extrema) as [|e1 l1];
      [destruct extrema as [|e2 l2]|];
      run_fwd; (eexists; split; [reflexivity|lookup_store; reflexivity]).
  - run_fwd. eexists; split; [reflexivity|lookup_store; reflexivity].
Qed.

(** C7 (amended): outside the degenerate case, with the forward
    relation [tanalpha_beta_eqn] stored, the stage solves it for
    [tan(beta)] (with [tan(alpha)] replaced by the symbol [a]) and goes
    through the roots in the order the solver lists them.  A root is
    passed over when its imaginary part is not zero at any of the three
    probes [tan(alpha) = 0], [0.01] and [1] (each substituted first, the
    configured [eta] after it); the first root whose imaginary part is
    zero at one probe at least is selected: it need not be real at the
    other probes.  The stage returns and stores
    [tan(beta) = simplify(root)], with [tan(alpha)] put back, as
    [tanbeta_alpha_eqn]. *)
Theorem tanbeta_first_real_root b s q before soln after :
  let im_at (probe root : expr) : expr :=
    im (subs [(eta, Num (cfg_eta self))] (subs [(ta, probe)] root)) in
  ~ (cfg_eta self == 1 /\ beta_type self = "sin") ->
  attrs s !! "tanalpha_beta_eqn" = Some (VEq q) ->
  solve (subs_eq [(tan alpha, ta)] q) (tan beta) = (before ++ soln :: after)%list ->
  Forall (fun root =>
            expr_eqb (im_at (Num 0) root) (Num 0) = false
            /\ expr_eqb (im_at (Flt (1 # 100)) root) (Num 0) = false
            /\ expr_eqb (im_at (Num 1) root) (Num 0) = false) before ->
  expr_eqb (im_at (Num 0) soln) (Num 0) = true
  \/ expr_eqb (im_at (Flt (1 # 100)) soln) (Num 0) = true
  \/ expr_eqb (im_at (Num 1) soln) (Num 0) = true ->
  exists s',
    define_tanbeta_eqns self b s = (Ret tt, s')
    /\ attrs s' !! "tanbeta_alpha_eqn"
       = Some (VEq (subs_eq [(ta, tan alpha)] (Eq (tan beta) (simplify soln)))).
Proof.
  intros im_at Hg Hq Hsolve Hbefore Hsoln.
  apply define_tanbeta_eqns_inversion
    with (q := q) (before := before) (after := after).
  - apply not_true_is_false. intros H. apply Hg.
    apply andb_prop in H as [H1 H2]. split.
    + now apply Qeq_bool_iff.
    + now apply String.eqb_eq.
  - exact Hq.
  - exact Hsolve.
  - eapply Forall_impl; [exact Hbefore|].
    intros root (H0 & H1 & H2). unfold real_at_probe, eta_sub.
    subst im_at. cbv beta in *. now rewrite H0, H1, H2.
  - unfold real_at_probe, eta_sub. subst im_at. cbv beta in *.
    destruct Hsoln as [H|[H|H]]; rewrite H;
      rewrite ?orb_true_r; reflexivity.
Qed.


End AngleStage.

(** C7 on two instances.  On the documented forward relation at the
    default [eta = 3/2] the quadratic solver lists two roots; the first
    has a zero denominator at [tan(alpha) = 0] and a negative
    discriminant at [1], and is real at [0.01]: it is selected.  On a
    list whose first root is complex at every probe, that root is passed
    over and the next one selected. *)
Lemma tanbeta_first_real_root_example :
  (exists s',
     @define_tanbeta_eqns quadratic_cas default_config false
       (documented_angle_state default_config) = (Ret tt, s')
     /\ attrs s' !! "tanbeta_alpha_eqn"
        = Some (VEq (subs_eq [(ta, tan alpha)]
                       (Eq (tan beta) documented_root))))
  /\ (exists s',
        @define_tanbeta_eqns (listing_cas (tan beta) [complex_root; real_root])
          default_config false (documented_angle_state default_config)
        = (Ret tt, s')
        /\ attrs s' !! "tanbeta_alpha_eqn"
           = Some (VEq (subs_eq [(ta, tan alpha)]
                          (Eq (tan beta) real_root)))).
Proof.
  split.
  - eapply (@tanbeta_first_real_root quadratic_cas default_config false
              (documented_angle_state default_config)
              (documented_tanalpha_beta_eqn default_config)
              [] documented_root).
    + intros [H _]. vm_compute in H. discriminate H.
    + reflexivity.
    + vm_compute. reflexivity.
    + constructor.
    + right. left. vm_compute. reflexivity.
  - eapply (@tanbeta_first_real_root (listing_cas (tan beta) [complex_root; real_root])
              default_config false
              (documented_angle_state default_config)
              (documented_tanalpha_beta_eqn default_config)
              [complex_root] real_root []).
    + intros [H _]. vm_compute in H. discriminate H.
    + reflexivity.
    + vm_compute. reflexivity.
    + apply Forall_cons. split; [|apply Forall_nil_2].
      repeat split; vm_compute; reflexivity.
    + left. vm_compute. reflexivity.
Defined.

(** C7, the claim as stated fails: on the documented forward relation
    at the default [eta = 3/2] the root that the stage selects and stores
    is not real at the probe values [0], [0.01], [1]: its imaginary part
    is not zero at [tan(alpha) = 0] nor at [tan(alpha) = 1], it is zero
    at [0.01] only. *)
Lemma selected_root_real_at_one_probe_only :
  let self := default_config in
  let out :=
    @define_tanbeta_eqns quadratic_cas self false (documented_angle_state self) in
  let im_at (probe root : expr) : expr :=
    @im quadratic_cas
      (subs [(eta, Num (cfg_eta self))] (subs [(ta, probe)] root)) in
  (exists rest,
     @solve quadratic_cas
       (subs_eq [(tan alpha, ta)] (documented_tanalpha_beta_eqn self))
       (tan beta) = documented_root :: rest)
  /\ out.1 = Ret tt
  /\ attrs out.2 !! "tanbeta_alpha_eqn"
     = Some (VEq (subs_eq [(ta, tan alpha)] (Eq (tan beta) documented_root)))
  /\ expr_eqb (im_at (Num 0) documented_root) (Num 0) = false
  /\ expr_eqb (im_at (Flt (1 # 100)) documented_root) (Num 0) = true
  /\ expr_eqb (im_at (Num 1) documented_root) (Num 0) = false.
Proof.
  cbv zeta. split; [eexists; vm_compute; reflexivity|].
  repeat split; vm_compute; reflexivity.
Qed.


(** C10 on the reference instance, from a state holding just the
    velocity vector and the slowness covector. *)
Lemma dual_metric_computed_before_skip_example :
  exists s',
    @define_g_eqns reference_cas (with_eta 1 default_config) velocity_state
    = (Ret tt, s')
    /\ stdout s' = [notice_g]
    /\ available s' "gstar_varphi_pxpz_eqn"
    /\ available s' "det_gstar_varphi_pxpz_eqn"
    /\ unavailable s' "g_varphi_pxpz_eqn".
Proof.
  destruct (@dual_metric_computed_before_skip reference_cas
              (with_eta 1 default_config) (Qeq_refl 1) eq_refl
              velocity_state rdotvec [[rdotx]; [rdotz]]
              pcovec (transpose [[px]; [pz]]) px pz
              eq_refl eq_refl eq_refl eq_refl)
    as (s' & Hrun & Hout & Hkeep).
  exists s'. split; [exact Hrun|]. split; [exact Hout|].
  destruct (Hkeep None false false (Ret tt) s' (or_introl eq_refl))
    as (A & B & C).
  split; [exact A|]. split; [exact B|].
  apply Forall_cons in C as [C _]. exact C.
Defined.

(** C8 on the reference instance: [eta = 1], sine tilt, geodesic stages
    requested, no parameters. *)
Lemma degenerate_sine_construction_example :
  exists st,
    @Equations reference_cas (with_eta 1 default_config) None false true false
    = (Ret tt, st)
    /\ stdout st = [notice_beta; notice_g; notice_geodesic; notice_geodesic]
    /\ Forall (unavailable st)
         ["tanbeta_alpha_eqn"; "g_varphi_pxpz_eqn"; "gstar_eigen_varphi_pxpz";
          "gstar_eigenvalues"; "gstar_eigenvectors"; "g_ij_mat"].
Proof.
  destruct (@degenerate_sine_construction_completes reference_cas
              (with_eta 1 default_config) (Qeq_refl 1) eq_refl
              None true
              (@derivation_before reference_cas (with_eta 1 default_config)
                 fresh).2)
    as (s3 & st & w & _ & Hrun & _ & _ & Hnone & Hgeo & _).
  - right. left. reflexivity.
  - apply run_Ret_eta. vm_compute. reflexivity.
  - exists st. split; [exact Hrun|].
    split.
    { apply (f_equal (fun p => stdout p.2)) in Hrun. cbn [snd] in Hrun.
      rewrite <- Hrun. vm_compute. reflexivity. }
    specialize (Hgeo eq_refl).
    repeat (apply Forall_cons in Hnone as [? Hnone]).
    unfold writes_prep_geodesic_eqns, writes_define_geodesic_eqns in Hgeo.
    cbn [app] in Hgeo.
    do 8 (apply Forall_cons in Hgeo as [? Hgeo]).
    repeat (apply Forall_cons; split; [assumption|]). apply Forall_nil_2.
Defined.

(** * The indicatrix stage *)

Section Indicatrix.

Context {cas : SymPy}.
Variable self : config.

(** C9 (amended): run on a state that holds what it reads, the
    indicatrix stage
    - for the tangent tilt with [eta] one of [1/4], [3/2]: prints its
      notice and returns, the root and the figuratrix and indicatrix
      equations left [None];
    - in every other configuration, the sine tilt with [eta >= 1]
      included, prints nothing: it takes the roots that are real and
      non-negative at [(varphi = 1, p_z = -0.01)], or, if there is none,
      those at [(varphi = 10, p_z = -0.5)]; with the first of them it
      returns, having stored it as [cos(beta)^2] and derived the other
      equations; with none it raises [IndexError]. *)
Theorem indicatrix_skip_and_root_selection s q1 q2 n gl gs g_xx g_zx g_xz g_zz :
  attrs s !! "pz_p_beta_eqn" = Some (VEq q1) ->
  attrs s !! "p_varphi_beta_eqn" = Some (VEq q2) ->
  attrs s !! "eta_dbldenom" = Some (VInt n) ->
  attrs s !! "gstar_varphi_pxpz_eqn" = Some (VMatEq gl gs) ->
  mget gs 0 0 = Some g_xx ->
  mget gs 1 0 = Some g_zx ->
  mget gs 0 1 = Some g_xz ->
  mget gs 1 1 = Some g_zz ->
  let solns :=
    solve (pz_cosbeta_varphi_eqn_of self q1 q2 n) (pow (cos beta) (Num 2)) in
  let first_probe :=
    find_cosbetasqrd_root solns [(varphi, Num 1); (pz, Flt (- (1 # 100)))] in
  let second_probe :=
    find_cosbetasqrd_root solns [(varphi, Num 10); (pz, Flt (- (1 # 2)))] in
  let chosen :=
    match first_probe with
    | [] => second_probe
    | _ => first_probe
    end in
  let out := define_idtx_fgtx_eqns self s in
  if (Qeqb (cfg_eta self) (1 # 4) || Qeqb (cfg_eta self) (3 # 2))
     && String.eqb (beta_type self) "tan"
  then
    out.1 = Ret tt
    /\ stdout out.2 = (stdout s ++ [notice_idtx self])%list
    /\ Forall (unavailable out.2)
         ["cosbetasqrd_pz_varphi_soln"; "fgtx_cossqrdbeta_pz_varphi_eqn";
          "fgtx_tanbeta_pz_varphi_eqn"; "fgtx_px_pz_varphi_eqn";
          "idtx_rdotx_pz_varphi_eqn"; "idtx_rdotz_pz_varphi_eqn"]
  else
    stdout out.2 = stdout s
    /\ attrs out.2 !! "cosbetasqrd_pz_varphi_soln" = Some (VList chosen)
    /\ match chosen with
       | root :: _ =>
           out.1 = Ret tt
           /\ attrs out.2 !! "fgtx_cossqrdbeta_pz_varphi_eqn"
              = Some (VEq (Eq (pow (cos beta) (Num 2)) root))
           /\ Forall (available out.2)
                ["fgtx_tanbeta_pz_varphi_eqn"; "fgtx_px_pz_varphi_eqn";
                 "idtx_rdotx_pz_varphi_eqn"; "idtx_rdotz_pz_varphi_eqn"]
       | [] =>
           out.1 = Raise IndexError
           /\ Forall (unavailable out.2)
                ["fgtx_cossqrdbeta_pz_varphi_eqn"; "fgtx_tanbeta_pz_varphi_eqn";
                 "fgtx_px_pz_varphi_eqn"; "idtx_rdotx_pz_varphi_eqn";
                 "idtx_rdotz_pz_varphi_eqn"]
       end.
Proof.
  intros H1 H2 Hn Hg Hxx Hzx Hxz Hzz. cbv zeta.
  unfold define_idtx_fgtx_eqns. cbv zeta. run_fwd.
  set (solns := solve _ _).
  set (guard := (Qeqb (cfg_eta self) (1 # 4) || Qeqb (cfg_eta self) (3 # 2))
                && String.eqb (beta_type self) "tan").
  destruct guard.
  - unfold print. cbn [fst snd attrs stdout].
    split; [reflexivity|]. split; [reflexivity|].
    unfold unavailable.
    repeat (apply Forall_cons; split; [lookup_store; reflexivity|]).
    apply Forall_nil_2.
  - run_fwd.
    set (first_probe := find_cosbetasqrd_root solns [(varphi, Num 1); _]).
    set (second_probe := find_cosbetasqrd_root solns [(varphi, Num 10); _]).
    destruct first_probe as [|r1 l1] eqn:E1.
    + run_fwd.
      destruct second_probe as [|r2 l2] eqn:E2.
      * rewrite bind_index_None by reflexivity. cbn [fst snd attrs stdout].
        split; [reflexivity|]. split; [lookup_store; reflexivity|].
        split; [reflexivity|]. unfold unavailable.
        repeat (apply Forall_cons; split; [lookup_store; reflexivity|]).
        apply Forall_nil_2.
      * rewrite (bind_index _ 0 r2) by reflexivity. run_fwd.
        unfold setattr. cbn [fst snd attrs stdout].
        split; [reflexivity|]. split; [lookup_store; reflexivity|].
        split; [reflexivity|]. split; [lookup_store; reflexivity|].
        unfold available.
        repeat (apply Forall_cons; split;
                [eexists; split; [lookup_store; reflexivity|discriminate]|]).
        apply Forall_nil_2.
    + run_fwd. rewrite (bind_index _ 0 r1) by reflexivity. run_fwd.
      unfold setattr. cbn [fst snd attrs stdout].
      split; [reflexivity|]. split; [lookup_store; reflexivity|].
      split; [reflexivity|]. split; [lookup_store; reflexivity|].
      unfold available.
      repeat (apply Forall_cons; split;
              [eexists; split; [lookup_store; reflexivity|discriminate]|]).
      apply Forall_nil_2.
Qed.

End Indicatrix.

(** C9 on the reference instance: the default configuration (sine tilt,
    [eta = 3/2]) on a state holding what the stage reads. *)
Lemma indicatrix_root_selection_example :
  let out :=
    @define_idtx_fgtx_eqns reference_cas default_config indicatrix_state in
  out.1 = Ret tt
  /\ stdout out.2 = []
  /\ available out.2 "idtx_rdotx_pz_varphi_eqn".
Proof.
  pose proof (@indicatrix_skip_and_root_selection reference_cas default_config
                indicatrix_state
                (Eq pz (Mul (Mul (Num (-1)) p) (cos beta)))
                (Eq p (Pow (Mul varphi_r (Pow (sin beta) eta)) (Num (-1))))
                4%Z gstar [[Num 1; Num 0]; [Num 0; Num 1]]
                (Num 1) (Num 0) (Num 0) (Num 1)
                eq_refl eq_refl eq_refl eq_refl eq_refl eq_refl eq_refl eq_refl)
    as W.
  cbv zeta in W.
  change ((Qeqb (cfg_eta default_config) (1 # 4)
           || Qeqb (cfg_eta default_config) (3 # 2))
          && String.eqb (beta_type default_config) "tan") with false in W.
  cbv iota in W. destruct W as (Hout & _ & W).
  destruct (match find_cosbetasqrd_root _ _ with [] => _ | _ => _ end)
    as [|root rest] eqn:E in W.
  { exfalso. revert E. vm_compute. discriminate. }
  destruct W as (Hret & _ & Hav).
  cbv zeta. split; [exact Hret|]. split; [exact Hout|].
  do 2 (apply Forall_cons in Hav as [_ Hav]).
  apply Forall_cons in Hav as [Hav _]. exact Hav.
Defined.

(** C9, the claim as stated fails: the default construction has the
    sine tilt and [eta = 3/2 >= 1]; with the indicatrix stage requested it
    completes, prints nothing, and the stage's outputs are defined. *)
Lemma indicatrix_runs_for_sine_eta_ge_one :
  beta_type default_config = "sin"
  /\ (1 <= cfg_eta default_config)%Q
  /\ (@Equations reference_cas default_config None true false false).1 = Ret tt
  /\ stdout (@Equations reference_cas default_config None true false false).2 = []
  /\ Forall
       (fun k =>
          match attrs (@Equations reference_cas default_config
                         None true false false).2 !! k with
          | Some VNone | None => False
          | Some _ => True
          end)
       ["fgtx_cossqrdbeta_pz_varphi_eqn"; "fgtx_tanbeta_pz_varphi_eqn";
        "fgtx_px_pz_varphi_eqn"; "idtx_rdotx_pz_varphi_eqn";
        "idtx_rdotz_pz_varphi_eqn"].
Proof.
  split; [reflexivity|]. split; [discriminate|].
  split; [vm_compute; reflexivity|]. split; [vm_compute; reflexivity|].
  repeat (apply Forall_cons; split; [vm_compute; exact I|]).
  apply Forall_nil_2.
Qed.

(** * The geodesic stages without parameters *)

Section GeodesicParameters.

Context {cas : SymPy}.
Variable self : config.

Lemma never_returns_raise {A : Type} (e : exn) : never_returns (@raise A e).
Proof. intros s a. discriminate. Qed.

Lemma never_returns_subs_None (m : matrix) :
  never_returns (subs_parameters None m).
Proof. intros s a. discriminate. Qed.

Lemma never_returns_bind_l {A B : Type} (m : M A) (f : A -> M B) :
  never_returns m -> never_returns (m ≫= f).
Proof.
  intros Hm s b. rewrite bind_unfold. specialize (Hm s).
  destruct (m s) as [[a|e] s1]; [now destruct (Hm a)|discriminate].
Qed.

Lemma never_returns_bind_r {A B : Type} (m : M A) (f : A -> M B) :
  (forall a, never_returns (f a)) -> never_returns (m ≫= f).
Proof.
  intros Hf s b. rewrite bind_unfold.
  destruct (m s) as [[a|e] s1]; [apply Hf|discriminate].
Qed.

(** Finds the statement that raises. *)
Ltac find_raise :=
  lazymatch goal with
  | |- never_returns (raise _) => apply never_returns_raise
  | |- never_returns (subs_parameters None _) => apply never_returns_subs_None
  | |- never_returns (mbind _ _) =>
      first [ apply never_returns_bind_l; find_raise
            | apply never_returns_bind_r; intros ?; find_raise ]
  end.

Lemma prep_geodesic_eqns_None :
  Qleb 1 (cfg_eta self) && String.eqb (beta_type self) "sin" = false ->
  never_returns (prep_geodesic_eqns self None).
Proof.
  intros Hg. unfold prep_geodesic_eqns. rewrite Hg. cbv zeta.
  find_raise.
Qed.

(** C4: outside the case that the stage skips ([eta >= 1] with the sine
    tilt), the geodesic preparation called without parameters never
    returns: the substitution of [None] raises.  So a construction that
    requests the geodesic stages without parameters, or with [do_raw],
    does not complete. *)
Theorem geodesic_without_parameters_raises parameters do_idtx :
  ~ ((1 <= cfg_eta self)%Q /\ beta_type self = "sin") ->
  do_raw self = true \/ parameters = None ->
  (forall s, (prep_geodesic_eqns self None s).1 <> Ret tt)
  /\ (Equations self parameters do_idtx true false).1 <> Ret tt.
Proof.
  intros Hg Hp.
  assert (Hg' : Qleb 1 (cfg_eta self) && String.eqb (beta_type self) "sin"
                = false).
  { apply not_true_is_false. intros H. apply Hg.
    apply andb_prop in H as [H1 H2]. split.
    - now apply Qle_bool_iff.
    - now apply String.eqb_eq. }
  split; [intros s; exact (prep_geodesic_eqns_None Hg' s tt)|].
  intros Hret. apply run_Ret_eta in Hret. unfold Equations in Hret.
  apply init_Ret_parts in Hret as (s1 & s2 & s3 & _ & _ & _ & Hl).
  unfold later_stages in Hl.
  apply bind_Ret_inv in Hl as ([] & s4 & _ & Hl).
  apply bind_Ret_inv in Hl as ([] & s5 & Hgeo & _).
  apply bind_Ret_inv in Hgeo as ([] & s6 & Hprep & _).
  assert (Hnone : (if do_raw self then None else parameters) = None).
  { destruct Hp as [-> | ->]; [reflexivity|now destruct (do_raw self)]. }
  rewrite Hnone in Hprep.
  apply (prep_geodesic_eqns_None Hg' s4 tt). now rewrite Hprep.
Qed.

End GeodesicParameters.

(** C4 on the reference instance: [eta = 1/2], sine tilt, geodesic stages
    requested, no parameters.  The construction ends in the error raised
    by the substitution, the metric left [None]. *)
Lemma geodesic_without_parameters_example :
  (@Equations reference_cas (with_eta (1 # 2) default_config)
     None false true false).1 <> Ret tt
  /\ (@Equations reference_cas (with_eta (1 # 2) default_config)
        None false true false).1 = Raise TypeError
  /\ attrs (@Equations reference_cas (with_eta (1 # 2) default_config)
              None false true false).2 !! "gstar_ij_mat" = Some VNone.
Proof.
  split; [|split; vm_compute; reflexivity].
  apply (@geodesic_without_parameters_raises reference_cas
           (with_eta (1 # 2) default_config) None false).
  - intros [H _]. vm_compute in H. apply H. reflexivity.
  - right. reflexivity.
Defined.

(** * Signs on the slowness domain *)

Open Scope R_scope.

Lemma powerRZ_minus_one (n : Z) :
  powerRZ (-1) n = if Z.even n then 1 else -1.
Proof.
  destruct n as [|p|p]; [reflexivity| |];
    destruct p as [p|p|]; cbn [Z.even powerRZ];
    rewrite ?Pos2Nat.inj_xI, ?Pos2Nat.inj_xO, ?pow_1_odd, ?pow_1_even;
    try reflexivity; try (simpl; lra); try (rewrite Rinv_1; reflexivity).
Qed.

Lemma powerRZ_negative_base (x : R) (n : Z) :
  x < 0 ->
  if Z.even n then 0 < powerRZ x n else powerRZ x n < 0.
Proof.
  intros Hx. replace x with (-1 * - x) by ring.
  rewrite powerRZ_mult, powerRZ_minus_one.
  assert (Hp : 0 < powerRZ (- x) n) by (apply powerRZ_lt; lra).
  destruct (Z.even n); lra.
Qed.

Lemma Rpower_pos (x y : R) : 0 < Rpower x y.
Proof. unfold Rpower. apply exp_pos. Qed.

Lemma has_sign_nonzero x s : has_sign x s -> x <> 0.
Proof. destruct s; simpl; lra. Qed.

Lemma sg_num_sound q s : sg_num q = Some s -> has_sign (Q2R q) s.
Proof.
  unfold sg_num. destruct (Qle_bool q 0) eqn:E1.
  - destruct (Qle_bool 0 q) eqn:E2; [discriminate|]. intros [= <-]. simpl.
    rewrite <- RMicromega.Q2R_0. apply Qlt_Rlt. apply Qnot_le_lt. intros H.
    apply Qle_bool_iff in H. congruence.
  - intros [= <-]. simpl.
    rewrite <- RMicromega.Q2R_0. apply Qlt_Rlt. apply Qnot_le_lt. intros H.
    apply Qle_bool_iff in H. congruence.
Qed.

Lemma sg_mul_sound x y a b :
  has_sign x a -> has_sign y b -> has_sign (x * y) (sg_mul a b).
Proof. destruct a, b; simpl; nra. Qed.

Lemma sign_of_sound rho e s :
  domain rho -> sign_of e = Some s -> has_sign (eval rho e) s.
Proof.
  intros (Hx & Hz & Hv). revert s.
  induction e as [q|q|t|a IHa b IHb|a IHa b IHb|a IHa b IHb|f a IHa|a _ x _|a _ x _];
    intros s; cbn [sign_of eval].
  - apply sg_num_sound.
  - apply sg_num_sound.
  - destruct (String.eqb_spec t "p_x") as [->|_]; [now intros [= <-]|].
    destruct (String.eqb_spec t "p_z") as [->|_]; [now intros [= <-]|].
    destruct (String.eqb_spec t "varphi(r)") as [->|_]; [now intros [= <-]|].
    discriminate.
  - destruct (sign_of a) as [[]|]; try discriminate;
      destruct (sign_of b) as [[]|]; try discriminate; intros [= <-];
      specialize (IHa _ eq_refl); specialize (IHb _ eq_refl); simpl in *; lra.
  - destruct (sign_of a) as [x|]; [|discriminate].
    destruct (sign_of b) as [y|]; [|discriminate]. intros [= <-].
    now apply sg_mul_sound; [apply IHa|apply IHb].
  - unfold rpow. destruct (int_exp b) as [n|].
    + destruct (sign_of a) as [[]|]; try discriminate; intros [= <-].
      * apply powerRZ_lt. exact (IHa _ eq_refl).
      * pose proof (powerRZ_negative_base _ n (IHa _ eq_refl)) as H.
        destruct (Z.even n); exact H.
    + destruct (sign_of a) as [[]|]; try discriminate; intros [= <-].
      apply Rpower_pos.
  - destruct f; try discriminate; cbn [eval_func].
    + intros [= <-]. apply exp_pos.
    + destruct (sign_of a) as [x|]; [|discriminate]. intros [= <-].
      apply Rabs_pos_lt. exact (has_sign_nonzero _ _ (IHa _ eq_refl)).
    + intros H. specialize (IHa _ H). unfold sgn.
      destruct s; simpl in *.
      * destruct (Rlt_dec 0 (eval rho a)); lra.
      * destruct (Rlt_dec 0 (eval rho a)); [lra|].
        destruct (Rlt_dec (eval rho a) 0); lra.
  - discriminate.
  - discriminate.
Qed.

Lemma wd_on_domain_sound rho e :
  domain rho -> wd_on_domain e = true -> wd rho e.
Proof.
  intros Hd.
  induction e as [q|q|t|a IHa b IHb|a IHa b IHb|a IHa b IHb|f a IHa|a _ x _|a _ x _];
    cbn [wd_on_domain wd]; try (intros _; exact I); try discriminate.
  - intros H. apply andb_prop in H as [Ha Hb]. split; auto.
  - intros H. apply andb_prop in H as [Ha Hb]. split; auto.
  - intros H. apply andb_prop in H as [H Hc]. apply andb_prop in H as [Ha Hb].
    split; [auto|]. split; [auto|].
    destruct (int_exp b) as [n|].
    + destruct (sign_of a) as [x|] eqn:E; [|discriminate].
      exact (has_sign_nonzero _ _ (sign_of_sound rho a x Hd E)).
    + destruct (sign_of a) as [[]|] eqn:E; try discriminate.
      exact (sign_of_sound rho a Positive Hd E).
  - intros H. apply andb_prop in H as [Ha Hf]. split; [auto|].
    destruct f; try exact I; try discriminate.
    + destruct (sign_of a) as [[]|] eqn:E; try discriminate.
      exact (sign_of_sound rho a Positive Hd E).
    + destruct (sign_of a) as [x|] eqn:E; [|discriminate].
      exact (has_sign_nonzero _ _ (sign_of_sound rho a x Hd E)).
    + destruct (sign_of a) as [x|] eqn:E; [|discriminate].
      exact (has_sign_nonzero _ _ (sign_of_sound rho a x Hd E)).
Qed.

(** The domain is open in each slowness component. *)
Lemma domain_upd_px rho v : domain rho -> 0 < v -> domain (upd rho "p_x" v).
Proof. intros (Hx & Hz & Hv) H. unfold domain, upd. simpl. tauto. Qed.

Lemma domain_upd_pz rho v : domain rho -> v < 0 -> domain (upd rho "p_z" v).
Proof. intros (Hx & Hz & Hv) H. unfold domain, upd. simpl. tauto. Qed.

Lemma domain_unit_point : domain unit_point.
Proof. unfold domain, unit_point. simpl. lra. Qed.

(** * The Hamiltonian and the ray velocities *)


Lemma wd_mul rho a b : wd rho a -> wd rho b -> wd rho (mul a b).
Proof.
  intros Ha Hb. unfold mul.
  destruct a, b; cbn [wd] in *;
    repeat match goal with
           | |- context [if ?c then _ else _] => destruct c
           end; cbn [wd]; tauto.
Qed.

Lemma wd_add rho a b : wd rho a -> wd rho b -> wd rho (add a b).
Proof.
  intros Ha Hb. unfold add.
  destruct a, b; cbn [wd] in *;
    repeat match goal with
           | |- context [if ?c then _ else _] => destruct c
           end; cbn [wd]; tauto.
Qed.

Lemma wd_pow_int rho a q n :
  is_int q = Some n -> wd rho a -> eval rho a <> 0 -> wd rho (pow a (Num q)).
Proof.
  intros Hq Ha Hne. unfold pow.
  destruct (Qeq_bool q 0); [exact I|].
  destruct (Qeq_bool q 1); [exact Ha|].
  rewrite Hq.
  destruct a; cbn [wd int_exp] in *; rewrite ?Hq;
    repeat match goal with
           | |- context [if ?c then _ else _] => destruct c
           end; cbn [wd int_exp]; rewrite ?Hq; tauto.
Qed.

Lemma wd_half_square rho e :
  wd rho e -> eval rho e <> 0 -> wd rho (div (pow e (Num 2)) (Num 2)).
Proof.
  intros He Hne. unfold div. apply wd_mul; [|exact I].
  now apply (wd_pow_int rho e 2 2).
Qed.

Lemma eval_half_square rho e :
  eval rho (div (pow e (Num 2)) (Num 2)) = (eval rho e)² / 2.
Proof.
  rewrite eval_div, eval_sq. cbn [eval].
  replace (Q2R 2) with 2 by (unfold Q2R; simpl; lra). reflexivity.
Qed.

Section Hamiltonian.

Context {cas : SymPy} {sound : SymPySound cas}.

Lemma eval_hamiltonian rho F :
  wd rho (rhs F) -> eval rho (rhs F) <> 0 ->
  eval rho (hamiltonian F) = (eval rho (rhs F))² / 2
  /\ wd rho (hamiltonian F).
Proof.
  intros Hw Hne. unfold hamiltonian.
  pose proof (wd_half_square rho _ Hw Hne) as W.
  split; [|now apply simplify_wd].
  rewrite simplify_sound by exact W. apply eval_half_square.
Qed.

(** The stored velocity component along a slowness component is the
    derivative of the stored Hamiltonian in it. *)
Lemma velocity_is_derivative rho F (k : string) :
  wd rho (hamiltonian F) ->
  wd rho (D k (hamiltonian F)) ->
  derivable_pt_lim (fun v => eval (upd rho k v) (hamiltonian F)) (rho k)
    (eval rho (simplify (D k (hamiltonian F)))).
Proof.
  intros Hw Hd. rewrite simplify_sound by exact Hd. now apply D_sound.
Qed.

(** C3: run on a state that holds the fundamental function [F*] (and
    the two other equations they read), the Hamiltonian and ray-velocity
    stages return; [H_eqn] is stored as [H = simplify(F*^2 / 2)], whose
    right-hand side denotes [F*^2 / 2] wherever [F*] is defined and not
    zero; and there the right-hand sides of the stored [rdotx_pxpz_eqn]
    and [rdotz_pxpz_eqn] denote the partial derivatives of that
    Hamiltonian in [p_x] and in [p_z] (at every point where the
    derivative expressions are defined). *)
Theorem hamiltonian_and_ray_velocities s F q_varphi q_tb :
  attrs s !! "Fstar_eqn" = Some (VEq F) ->
  attrs s !! "varphi_rx_eqn" = Some (VEq q_varphi) ->
  attrs s !! "px_pz_tanbeta_eqn" = Some (VEq q_tb) ->
  exists s' vx vz,
    (define_H_eqns;; define_rdot_eqns) s = (Ret tt, s')
    /\ attrs s' !! "H_eqn" = Some (VEq (Eq H (hamiltonian F)))
    /\ attrs s' !! "rdotx_pxpz_eqn" = Some (VEq vx)
    /\ attrs s' !! "rdotz_pxpz_eqn" = Some (VEq vz)
    /\ forall rho,
         wd rho (rhs F) -> eval rho (rhs F) <> 0 ->
         eval rho (hamiltonian F) = (eval rho (rhs F))² / 2
         /\ (wd rho (diff (hamiltonian F) px) ->
             derivable_pt_lim
               (fun v => eval (upd rho "p_x" v) (hamiltonian F))
               (rho "p_x") (eval rho (rhs vx)))
         /\ (wd rho (diff (hamiltonian F) pz) ->
             derivable_pt_lim
               (fun v => eval (upd rho "p_z" v) (hamiltonian F))
               (rho "p_z") (eval rho (rhs vz))).
Proof.
  intros HF Hv Ht. unfold define_H_eqns, define_rdot_eqns. cbv zeta.
  run_fwd.
  eexists _, _, _. split; [reflexivity|].
  split; [lookup_store; reflexivity|].
  split; [lookup_store; reflexivity|].
  split; [lookup_store; reflexivity|].
  intros rho Hw Hne. destruct (eval_hamiltonian rho F Hw Hne) as [He Hwd].
  split; [exact He|]. cbn [simplify_eq rhs].
  split; intros Hd; now apply velocity_is_derivative.
Qed.

End Hamiltonian.

(** C3 on the reference instance: the fundamental function that the
    default construction derives, at the point [p_x = 1], [p_z = -1]. *)
Lemma hamiltonian_and_ray_velocities_example :
  exists s' vx,
    (@define_H_eqns reference_cas;; @define_rdot_eqns reference_cas)
      fundamental_state = (Ret tt, s')
    /\ attrs s' !! "rdotx_pxpz_eqn" = Some (VEq vx)
    /\ derivable_pt_lim
         (fun v => eval (upd unit_point "p_x" v)
                     (@hamiltonian reference_cas reference_Fstar_eqn))
         1 (eval unit_point (rhs vx)).
Proof.
  destruct (@hamiltonian_and_ray_velocities reference_cas reference_cas_sound
              fundamental_state reference_Fstar_eqn
              varphi_model_ramp_eqn
              (Eq px (Mul (Mul (Num (-1)) pz) (tan beta)))
              eq_refl eq_refl eq_refl)
    as (s' & vx & vz & Hrun & _ & Hvx & _ & Hsem).
  exists s', vx. split; [exact Hrun|]. split; [exact Hvx|].
  destruct (Hsem unit_point) as (_ & Hdx & _).
  - apply wd_on_domain_sound; [exact domain_unit_point|].
    vm_compute. reflexivity.
  - apply (has_sign_nonzero _ Positive).
    apply sign_of_sound; [exact domain_unit_point|].
    vm_compute. reflexivity.
  - apply Hdx.
    apply wd_on_domain_sound; [exact domain_unit_point|].
    vm_compute. reflexivity.
Defined.

(** * The normalization of the ray velocity *)


(** A derivative depends on the function near the point only. *)
Lemma derivable_pt_lim_local (f g : R -> R) (x l : R) (d : posreal) :
  (forall h, Rabs h < d -> f (x + h) = g (x + h)) ->
  derivable_pt_lim f x l -> derivable_pt_lim g x l.
Proof.
  intros E Hf eps Heps. destruct (Hf eps Heps) as [d1 Hd1].
  assert (Hmin : 0 < Rmin d1 d).
  { apply Rmin_pos; [apply cond_pos|apply cond_pos]. }
  exists (mkposreal _ Hmin). intros h Hh Hlt. simpl in Hlt.
  assert (H1 : Rabs h < d1) by (eapply Rlt_le_trans; [exact Hlt|apply Rmin_l]).
  assert (H2 : Rabs h < d) by (eapply Rlt_le_trans; [exact Hlt|apply Rmin_r]).
  rewrite <- (E h H2).
  assert (H0 : f x = g x).
  { pose proof (E 0) as E0. rewrite Rplus_0_r in E0. apply E0.
    rewrite Rabs_R0. apply cond_pos. }
  rewrite <- H0. now apply Hd1.
Qed.

Lemma rpow_pos x b y : 0 < x -> 0 < rpow x b y.
Proof.
  intros Hx. unfold rpow. destruct (int_exp b).
  - now apply powerRZ_lt.
  - apply Rpower_pos.
Qed.

Lemma wd_Pow_pos rho a b :
  wd rho a -> wd rho b -> 0 < eval rho a -> wd rho (Pow a b).
Proof.
  intros Ha Hb Hpos. cbn [wd]. split; [exact Ha|]. split; [exact Hb|].
  destruct (int_exp b); lra.
Qed.

Section Normalization.

Context {cas : SymPy} {sound : SymPySound cas}.
Variable self : config.

Lemma norm2_pos rho :
  domain rho -> 0 < eval rho (Add (Pow px (Num 2)) (Pow pz (Num 2))).
Proof.
  intros (Hx & Hz & Hv). cbn [eval px pz]. unfold rpow.
  change (int_exp (Num 2)) with (Some 2%Z). simpl. nra.
Qed.

Lemma Fstar_model_wd rho :
  domain rho ->
  wd rho (Fstar_model self) /\ 0 < eval rho (Fstar_model self).
Proof.
  intros Hd. pose proof (norm2_pos rho Hd) as Hn.
  destruct Hd as (Hx & Hz & Hv).
  assert (Wn : wd rho (Add (Pow px (Num 2)) (Pow pz (Num 2)))).
  { split; (split; [exact I|split; [exact I|]]);
      change (int_exp (Num 2)) with (Some 2%Z); cbn [eval px pz]; lra. }
  assert (Hm : 0 < eval rho (Mul (Num (-1)) pz)).
  { cbn [eval pz]. replace (Q2R (-1)) with (-1) by (unfold Q2R; simpl; lra).
    lra. }
  unfold Fstar_model. destruct (String.eqb (beta_type self) "sin").
  - split.
    + split; [split|exact I].
      * apply wd_Pow_pos; [exact I|exact I|exact Hx].
      * apply wd_Pow_pos; [exact Wn|exact I|exact Hn].
    + cbn [eval]. repeat apply Rmult_lt_0_compat; try exact Hv;
        apply rpow_pos; [exact Hx|exact Hn].
  - split.
    + split; [split; [split|]|exact I].
      * apply wd_Pow_pos; [exact I|exact I|exact Hx].
      * apply wd_Pow_pos; [split; exact I|exact I|exact Hm].
      * apply wd_Pow_pos; [exact Wn|exact I|exact Hn].
    + cbn [eval]. repeat apply Rmult_lt_0_compat; try exact Hv;
        apply rpow_pos; [exact Hx|exact Hm|exact Hn].
Qed.

Ltac eval_derivative :=
  unfold px, pz, varphi_r in *; cbn [D];
  repeat rewrite ?eval_mul, ?eval_add, ?eval_inv;
  change (String.eqb "p_x" "p_x") with true;
  change (String.eqb "p_x" "p_z") with false;
  change (String.eqb "p_z" "p_x") with false;
  change (String.eqb "p_z" "p_z") with true;
  change (String.eqb "p_x" "varphi(r)") with false;
  change (String.eqb "p_z" "varphi(r)") with false;
  cbn [eval eval_func];
  rewrite ?Q2R_0, ?Q2R_1, ?Q2R_opp, ?Q2R_minus, ?Q2R_mult;
  replace (Q2R 2) with 2 by (unfold Q2R; simpl; lra);
  replace (Q2R (1 # 2)) with (/ 2) by (unfold Q2R; simpl; lra);
  replace (Q2R (-1)) with (-1) by (unfold Q2R; simpl; lra).

Lemma rpow_2 x y : rpow x (Num 2) y = x * x.
Proof. unfold rpow. change (int_exp (Num 2)) with (Some 2%Z). simpl. ring. Qed.

Lemma Fstar_model_euler rho :
  domain rho ->
  rho "p_x" * eval rho (D "p_x" (Fstar_model self))
  + rho "p_z" * eval rho (D "p_z" (Fstar_model self))
  = eval rho (Fstar_model self).
Proof.
  intros Hd. pose proof (norm2_pos rho Hd) as Hn.
  destruct Hd as (Hx & Hz & Hv).
  unfold Fstar_model. destruct (String.eqb (beta_type self) "sin").
  - eval_derivative. cbn [eval] in Hn. rewrite !rpow_2 in *.
    generalize dependent (rpow (rho "p_x") (Num (cfg_eta self))
                            (Q2R (cfg_eta self))).
    generalize dependent (rpow (rho "p_x" * rho "p_x" + rho "p_z" * rho "p_z")
                            (Num ((1 # 2) - cfg_eta self * (1 # 2)))
                            (/ 2 - Q2R (cfg_eta self) * / 2)).
    intros B A. field. split; lra.
  - eval_derivative. cbn [eval] in Hn. rewrite !rpow_2 in *.
    generalize dependent (rpow (rho "p_x") (Num (cfg_eta self))
                            (Q2R (cfg_eta self))).
    generalize dependent (rpow (-1 * rho "p_z") (Num (- cfg_eta self))
                            (- Q2R (cfg_eta self))).
    generalize dependent (rpow (rho "p_x" * rho "p_x" + rho "p_z" * rho "p_z")
                            (Num (1 # 2)) (/ 2)).
    intros C B A. field. repeat split; lra.
Qed.

(** The derivative of [F^2 / 2] along a slowness component. *)
Lemma half_square_model_derivative rho (k : string) :
  domain rho ->
  derivable_pt_lim
    (fun v => (eval (upd rho k v) (Fstar_model self))² / 2) (rho k)
    (eval rho (Fstar_model self) * eval rho (D k (Fstar_model self))).
Proof.
  intros Hd. destruct (Fstar_model_wd rho Hd) as [Hw _].
  pose proof (D_sound k _ rho Hw) as HD.
  pose proof (derivable_pt_lim_mult _ _ _ _ _ HD HD) as H2.
  pose proof (derivable_pt_lim_scal _ (/ 2) _ _ H2) as H3.
  unfold mult_fct, mult_real_fct in H3. rewrite eval_upd_same in H3.
  eapply derivable_pt_lim_value; [|eapply derivable_pt_lim_ext; [|exact H3]].
  - field.
  - intros v. cbv beta. unfold Rsqr. field.
Qed.

(** The velocity components that the Hamiltonian of a fundamental
    function denoting the model's gives, at a point of the domain. *)
Lemma velocity_of_model rho F (k : string) (d : posreal) :
  (forall rho', domain rho' ->
     wd rho' (rhs F) /\ eval rho' (rhs F) = eval rho' (Fstar_model self)) ->
  domain rho ->
  (forall h, Rabs h < d -> domain (upd rho k (rho k + h))) ->
  wd rho (D k (hamiltonian F)) ->
  eval rho (simplify (D k (hamiltonian F)))
  = eval rho (Fstar_model self) * eval rho (D k (Fstar_model self)).
Proof.
  intros HF Hd Hopen HwD.
  assert (Hnz : forall rho', domain rho' -> eval rho' (rhs F) <> 0).
  { intros rho' Hd'. destruct (HF rho' Hd') as [_ ->].
    destruct (Fstar_model_wd rho' Hd'). lra. }
  destruct (HF rho Hd) as [HwF HeF].
  destruct (eval_hamiltonian rho F HwF (Hnz rho Hd)) as [_ HwH].
  pose proof (velocity_is_derivative rho F k HwH HwD) as H1.
  pose proof (half_square_model_derivative rho k Hd) as H2.
  eapply uniqueness_limite; [exact H1|].
  eapply derivable_pt_lim_local; [|exact H2].
  intros h Hh. cbv beta. specialize (Hopen h Hh).
  destruct (HF _ Hopen) as [HwF' HeF'].
  destruct (eval_hamiltonian _ F HwF' (Hnz _ Hopen)) as [-> _].
  now rewrite HeF'.
Qed.

(** C2: run on a state whose fundamental function [F*] denotes the
    erosion model's on the slowness domain ([p_x > 0], [p_z < 0],
    [varphi > 0]), the Hamiltonian and ray-velocity stages return, store
    the normalization equation [v^x p_x + v^z p_z = 1], and at every
    point of the domain that satisfies the closure [F* = 1] (and where
    the two derivative expressions are defined) the stored velocity
    components satisfy it: [p_x v^x + p_z v^z = 1]. *)
Theorem ray_velocity_normalization s F q_varphi q_tb :
  attrs s !! "Fstar_eqn" = Some (VEq F) ->
  attrs s !! "varphi_rx_eqn" = Some (VEq q_varphi) ->
  attrs s !! "px_pz_tanbeta_eqn" = Some (VEq q_tb) ->
  (forall rho, domain rho ->
     wd rho (rhs F) /\ eval rho (rhs F) = eval rho (Fstar_model self)) ->
  exists s' vx vz,
    (define_H_eqns;; define_rdot_eqns) s = (Ret tt, s')
    /\ attrs s' !! "rdotx_pxpz_eqn" = Some (VEq vx)
    /\ attrs s' !! "rdotz_pxpz_eqn" = Some (VEq vz)
    /\ attrs s' !! "rdot_p_unity_eqn"
       = Some (VEq (Eq (add (mul rdotx px) (mul rdotz pz)) (Num 1)))
    /\ forall rho,
         domain rho ->
         eval rho (Fstar_model self) = 1 ->
         wd rho (diff (hamiltonian F) px) ->
         wd rho (diff (hamiltonian F) pz) ->
         rho "p_x" * eval rho (rhs vx) + rho "p_z" * eval rho (rhs vz) = 1.
Proof.
  intros HF Hv Ht Hmodel. unfold define_H_eqns, define_rdot_eqns. cbv zeta.
  run_fwd.
  eexists _, _, _. split; [reflexivity|].
  split; [lookup_store; reflexivity|].
  split; [lookup_store; reflexivity|].
  split; [lookup_store; reflexivity|].
  intros rho Hd Hclosure Hwx Hwz. cbn [simplify_eq rhs].
  change (diff (hamiltonian F) px) with (D "p_x" (hamiltonian F)) in *.
  change (diff (hamiltonian F) pz) with (D "p_z" (hamiltonian F)) in *.
  assert (Hpx : 0 < rho "p_x") by apply Hd.
  assert (Hpz : 0 < - rho "p_z") by (destruct Hd as (_ & ? & _); lra).
  rewrite (velocity_of_model rho F "p_x" (mkposreal _ Hpx) Hmodel Hd).
  - rewrite (velocity_of_model rho F "p_z" (mkposreal _ Hpz) Hmodel Hd).
    + pose proof (Fstar_model_euler rho Hd) as HE.
      rewrite Hclosure in *. lra.
    + intros h Hh. simpl in Hh. apply domain_upd_pz; [exact Hd|].
      unfold Rabs in Hh. destruct (Rcase_abs h); lra.
    + exact Hwz.
  - intros h Hh. simpl in Hh. apply domain_upd_px; [exact Hd|].
    unfold Rabs in Hh. destruct (Rcase_abs h); lra.
  - exact Hwx.
Qed.

End Normalization.


(** The fundamental function derived on the reference instance denotes
    the model's. *)
Lemma reference_Fstar_denotes_model rho :
  domain rho ->
  wd rho (rhs reference_Fstar_eqn)
  /\ eval rho (rhs reference_Fstar_eqn) = eval rho (Fstar_model default_config).
Proof.
  intros Hd.
  split; [apply wd_on_domain_sound; [exact Hd|vm_compute; reflexivity]|].
  pose proof (norm2_pos rho Hd) as Hn. destruct Hd as (Hx & Hz & Hv).
  unfold reference_Fstar_eqn, Fstar_model.
  change (String.eqb (beta_type default_config) "sin") with true.
  cbv iota. unfold px, pz, varphi_r in *.
  cbn [rhs eval eval_func cfg_eta default_config] in *.
  rewrite !rpow_2 in *. unfold rpow.
  change (int_exp (Num (-1))) with (Some (-1)%Z).
  change (int_exp (Num (1 # 2))) with (@None Z).
  change (int_exp (Num (3 # 2))) with (@None Z).
  change (int_exp (Num ((1 # 2) - (3 # 2) * (1 # 2)))) with (@None Z).
  cbv iota.
  set (S := rho "p_x" * rho "p_x" + rho "p_z" * rho "p_z") in *.
  rewrite Q2R_minus, Q2R_mult.
  replace (Q2R (1 # 2)) with (/ 2) by (unfold Q2R; simpl; lra).
  replace (Q2R (3 # 2)) with (3 / 2) by (unfold Q2R; simpl; lra).
  replace (/ 2 - 3 / 2 * / 2) with (- / 2 * (3 / 2) + / 2) by lra.
  assert (HN : 0 < Rpower S (/ 2)) by apply Rpower_pos.
  assert (HT : 0 < rho "p_x" * / Rpower S (/ 2)).
  { apply Rmult_lt_0_compat; [exact Hx|now apply Rinv_0_lt_compat]. }
  assert (HE : 0 < Rpower (rho "p_x" * / Rpower S (/ 2)) (3 / 2))
    by apply Rpower_pos.
  replace (powerRZ (Rpower S (/ 2)) (-1)) with (/ Rpower S (/ 2))
    by (simpl; now rewrite Rmult_1_r).
  rewrite (Rabs_pos_eq _ (Rlt_le _ _ HT)).
  rewrite Rpower_plus, <- Rpower_mult, Rpower_Ropp.
  rewrite <- (Rpower_mult_distr (rho "p_x") (/ Rpower S (/ 2)) (3 / 2));
    [|exact Hx|now apply Rinv_0_lt_compat].
  simpl powerRZ. field.
  repeat split; try lra; apply Rgt_not_eq; apply Rpower_pos.
Qed.

(** C2 on the reference instance: the fundamental function that the
    default construction derives (sine tilt, [eta = 3/2]). *)
Lemma ray_velocity_normalization_example :
  exists s' vx vz,
    (@define_H_eqns reference_cas;; @define_rdot_eqns reference_cas)
      fundamental_state = (Ret tt, s')
    /\ attrs s' !! "rdotx_pxpz_eqn" = Some (VEq vx)
    /\ attrs s' !! "rdotz_pxpz_eqn" = Some (VEq vz)
    /\ forall rho,
         domain rho ->
         eval rho (Fstar_model default_config) = 1 ->
         rho "p_x" * eval rho (rhs vx) + rho "p_z" * eval rho (rhs vz) = 1.
Proof.
  destruct (@ray_velocity_normalization reference_cas reference_cas_sound
              default_config fundamental_state reference_Fstar_eqn
              varphi_model_ramp_eqn
              (Eq px (Mul (Mul (Num (-1)) pz) (tan beta)))
              eq_refl eq_refl eq_refl reference_Fstar_denotes_model)
    as (s' & vx & vz & Hrun & Hvx & Hvz & _ & Hsem).
  exists s', vx, vz. split; [exact Hrun|]. split; [exact Hvx|].
  split; [exact Hvz|].
  intros rho Hd Hc. apply (Hsem rho Hd Hc);
    (apply wd_on_domain_sound; [exact Hd|vm_compute; reflexivity]).
Defined.

Close Scope R_scope.

(** * Further properties of the stages *)

Section Stages.

Context {cas : SymPy}.
Variable self : config.

(** ** What the later stages leave alone *)

(** The stages after the metric stage (indicatrix, geodesic, polynomial,
    boundary conditions) never change an attribute that the derivation up
    to the metric stage has assigned: whether they return, skip or raise,
    each result of the first fifteen stages is in the final state what it
    was before them. *)
Theorem later_stages_keep_derivation parameters do_idtx do_geodesic s r s' k :
  In k derivation_writes ->
  later_stages self parameters do_idtx do_geodesic s = (r, s') ->
  attrs s' !! k = attrs s !! k.
Proof.
  intros Hk Hrun.
  assert (Hall : forallb (fun k => not_among k later_writes) derivation_writes
                 = true) by (vm_compute; reflexivity).
  rewrite List.forallb_forall in Hall. specialize (Hall k Hk).
  exact (keeps_run k _ _ _ _
           (keeps_later_stages self k parameters do_idtx do_geodesic Hall) Hrun).
Qed.

(** ** The geodesic stages in the case they skip *)

(** For [eta >= 1] with the sine tilt, the two geodesic stages in
    sequence return from any state and for any [parameters] ([None]
    included): each prints the notice, all their sixteen outputs are
    [None], and no other attribute is changed. *)
Theorem geodesic_stages_skip parameters s :
  (1 <= cfg_eta self)%Q -> beta_type self = "sin" ->
  exists s',
    (prep_geodesic_eqns self parameters;; define_geodesic_eqns self parameters) s
    = (Ret tt, s')
    /\ stdout s' = (stdout s ++ [notice_geodesic; notice_geodesic])%list
    /\ Forall (unavailable s')
         (writes_prep_geodesic_eqns ++ writes_define_geodesic_eqns)
    /\ forall k,
         not_among k (writes_prep_geodesic_eqns ++ writes_define_geodesic_eqns)
         = true ->
         attrs s' !! k = attrs s !! k.
Proof.
  intros Heta Hsin.
  assert (Hg : Qleb 1 (cfg_eta self) && String.eqb (beta_type self) "sin" = true).
  { unfold Qleb. rewrite Hsin. apply andb_true_intro. split; [|reflexivity].
    now apply Qle_bool_iff. }
  destruct (prep_geodesic_eqns_skip self parameters s Hg) as (s1 & H1 & O1 & N1).
  destruct (define_geodesic_eqns_skip self parameters s1 Hg)
    as (s2 & H2 & O2 & N2).
  exists s2. split; [now rewrite (bind_Ret_l _ _ _ _ _ H1)|].
  split; [rewrite O2, O1, <- app_assoc; reflexivity|].
  split.
  - apply Forall_app. split; [|exact N2].
    unfold writes_prep_geodesic_eqns in *. unfold unavailable in *.
    repeat match goal with
           | H : Forall _ (_ :: _) |- _ => apply Forall_cons in H as [? H]
           end.
    repeat (apply Forall_cons; split; [frame_back; assumption|]).
    apply Forall_nil_2.
  - intros k Hk. apply not_among_app in Hk as [Hk1 Hk2].
    rewrite (keeps_run k _ _ _ _ (keeps_define_geodesic_eqns self k _ Hk2) H2).
    apply (keeps_run k _ _ _ _ (keeps_prep_geodesic_eqns self k _ Hk1) H1).
Qed.

(** ** An unknown boundary profile *)

Lemma assoc_boundary_None {A : Type} (k : string) (a b c : A) :
  ~ In k boundary_profiles ->
  assoc k [("planar", a); ("convex-up", b); ("concave-up", c)] = None.
Proof.
  intros H. cbn [assoc].
  destruct (String.eqb_spec k "planar") as [->|_];
    [exfalso; apply H; simpl; tauto|].
  destruct (String.eqb_spec k "convex-up") as [->|_];
    [exfalso; apply H; simpl; tauto|].
  destruct (String.eqb_spec k "concave-up") as [->|_];
    [exfalso; apply H; simpl; tauto|].
  reflexivity.
Qed.

Lemma ibc_stages_unknown_profile s :
  ~ In (ibc_type self) boundary_profiles ->
  exists s',
    (define_ibc_eqns;; set_ibc_eqns self) s
    = (Raise (KeyError (ibc_type self)), s')
    /\ stdout s' = stdout s
    /\ forall k, k <> "boundary_eqns" -> attrs s' !! k = attrs s !! k.
Proof.
  intros H. unfold define_ibc_eqns, set_ibc_eqns. cbv zeta. run_fwd.
  rewrite bind_unfold. unfold item, boundary_h. cbn [map].
  rewrite (assoc_boundary_None _ _ _ _ H).
  eexists. split; [reflexivity|]. split; [reflexivity|].
  intros k Hk. cbn [attrs]. apply lookup_insert_ne. congruence.
Qed.

(** A boundary profile other than ['planar'], ['convex-up'] and
    ['concave-up'] is a missing key of [boundary_eqns]: the
    boundary-condition stages raise [KeyError] with the profile name,
    having assigned nothing but [boundary_eqns]; as they are the last
    stages, the construction fails there, after every other stage has
    run. *)
Theorem unknown_boundary_profile :
  ~ In (ibc_type self) boundary_profiles ->
  (forall s, exists s',
     (define_ibc_eqns;; set_ibc_eqns self) s
     = (Raise (KeyError (ibc_type self)), s')
     /\ stdout s' = stdout s
     /\ forall k, k <> "boundary_eqns" -> attrs s' !! k = attrs s !! k)
  /\ forall parameters do_idtx do_geodesic,
       (Equations self parameters do_idtx do_geodesic false).1 <> Ret tt.
Proof.
  intros H. split; [intros s; now apply ibc_stages_unknown_profile|].
  intros parameters do_idtx do_geodesic Hret.
  apply run_Ret_eta in Hret. unfold Equations in Hret.
  apply init_Ret_parts in Hret as (s1 & s2 & s3 & _ & _ & _ & Hl).
  unfold later_stages in Hl.
  apply bind_Ret_inv in Hl as ([] & s4 & _ & Hl).
  apply bind_Ret_inv in Hl as ([] & s5 & _ & Hl).
  apply bind_Ret_inv in Hl as ([] & s6 & _ & Hl).
  apply bind_Ret_inv in Hl as ([] & s7 & _ & Hl).
  destruct (ibc_stages_unknown_profile s7 H) as (s' & Hraise & _).
  rewrite Hl in Hraise. discriminate.
Qed.

(** ** The inversion without an admissible root *)

Lemma filter_none {A : Type} (f : A -> bool) l :
  Forall (fun r => f r = false) l -> List.filter f l = [].
Proof.
  induction 1 as [|r l Hr _ IH]; simpl; [reflexivity|now rewrite Hr].
Qed.

(** Outside the degenerate case, when every root that the solver lists
    for [tan(beta)] has a non-zero imaginary part at each of the three
    probes [tan(alpha) = 0], [0.01], [1] (in particular when the solver
    lists no root), the angle stage raises [IndexError] and
    [tanbeta_alpha_eqn] is left [None]. *)
Theorem tanbeta_no_admissible_root b s q :
  let im_at (probe root : expr) : expr :=
    im (subs [(eta, Num (cfg_eta self))] (subs [(ta, probe)] root)) in
  ~ (cfg_eta self == 1 /\ beta_type self = "sin") ->
  attrs s !! "tanalpha_beta_eqn" = Some (VEq q) ->
  Forall (fun root =>
            expr_eqb (im_at (Num 0) root) (Num 0) = false
            /\ expr_eqb (im_at (Flt (1 # 100)) root) (Num 0) = false
            /\ expr_eqb (im_at (Num 1) root) (Num 0) = false)
    (solve (subs_eq [(tan alpha, ta)] q) (tan beta)) ->
  exists s',
    define_tanbeta_eqns self b s = (Raise IndexError, s')
    /\ unavailable s' "tanbeta_alpha_eqn".
Proof.
  intros im_at Hg Hq Hall.
  assert (Hnone : List.filter (real_at_probe self)
                    (solve (subs_eq [(tan alpha, ta)] q) (tan beta)) = []).
  { apply filter_none. eapply Forall_impl; [exact Hall|].
    intros root (H0 & H1 & H2). unfold real_at_probe, eta_sub.
    subst im_at. cbv beta in *. now rewrite H0, H1, H2. }
  assert (Hg' : Qeqb (cfg_eta self) 1 && String.eqb (beta_type self) "sin"
                = false).
  { apply not_true_is_false. intros H. apply Hg.
    apply andb_prop in H as [H1 H2]. split.
    - now apply Qeq_bool_iff.
    - now apply String.eqb_eq. }
  unfold define_tanbeta_eqns. rewrite Hg'. cbv zeta. run_fwd.
  destruct b.
  - run_fwd. set (extrema := map simplify _).
    destruct (List.filter (real_positive self) extrema) as [|e1 l1];
      [destruct extrema as [|e2 l2]|];
      run_fwd; rewrite Hnone, bind_index_None by reflexivity;
      (eexists; split; [reflexivity|unfold unavailable; lookup_store; reflexivity]).
  - run_fwd. rewrite Hnone, bind_index_None by reflexivity.
    eexists; split; [reflexivity|unfold unavailable; lookup_store; reflexivity].
Qed.

(** ** The stationary point that is real and positive *)

(** The stationary-point candidates are the simplified roots, in the
    solver's order.  A candidate counts when, with the configured [eta]
    substituted, its imaginary part is zero and it is greater than zero.
    The first candidate that counts is recorded as
    [beta_at_alpha_extremum], with its floating rendering as the
    numerical equation, and no warning is printed: in the final state,
    whatever the outcome of the inversion that follows. *)
Theorem extremum_first_real_positive s q before extremum after :
  let at_eta (root : expr) : expr := subs [(eta, Num (cfg_eta self))] root in
  attrs s !! "tanalpha_beta_eqn" = Some (VEq q) ->
  map simplify (solve (Eq (diff (rhs q) beta) (Num 0)) beta)
  = (before ++ extremum :: after)%list ->
  Forall (fun root =>
            expr_eqb (im (at_eta root)) (Num 0) = false
            \/ is_gt (at_eta root) (Num 0) = false) before ->
  expr_eqb (im (at_eta extremum)) (Num 0) = true ->
  is_gt (at_eta extremum) (Num 0) = true ->
  let out := (define_tanbeta_eqns self true s).2 in
  attrs out !! "beta_at_alpha_extremum_eqn"
  = Some (VEq (Eq beta_at_alpha_extremum extremum))
  /\ attrs out !! "beta_at_alpha_extremum_numerical_eqn"
     = Some (VEq (Eq beta_at_alpha_extremum (float (N (at_eta extremum)))))
  /\ stdout out
     = (stdout s
        ++ (if Qeqb (cfg_eta self) 1 && String.eqb (beta_type self) "sin"
            then [notice_beta] else []))%list.
Proof.
  intros at_eta Hq Hsolve Hbefore Him Hgt.
  assert (Hb : Forall (fun r => real_positive self r = false) before).
  { eapply Forall_impl; [exact Hbefore|].
    intros root H. unfold real_positive, eta_sub. subst at_eta. cbv beta in *.
    destruct H as [H|H]; rewrite H; [reflexivity|apply andb_false_r]. }
  assert (He : real_positive self extremum = true).
  { unfold real_positive, eta_sub. subst at_eta. cbv beta in *.
    now rewrite Him, Hgt. }
  subst at_eta. cbv zeta. unfold define_tanbeta_eqns. cbv zeta.
  run_fwd. rewrite Hsolve, (filter_first _ _ _ _ Hb He).
  set (guard := Qeqb (cfg_eta self) 1 && String.eqb (beta_type self) "sin").
  destruct guard; run_fwd;
    try match goal with
        | |- context [index ?l 0] =>
            destruct (nth_error l 0) eqn:En;
            [erewrite bind_index by exact En
            |erewrite bind_index_None by exact En]
        end;
    unfold print, setattr; cbn [snd attrs stdout];
    (split; [lookup_store; reflexivity|];
     split; [lookup_store; reflexivity
            |rewrite <- ?app_assoc, ?app_nil_r; reflexivity]).
Qed.

(** ** A stage called before its input exists *)

(** A stage reads attributes that earlier stages assign.  Called on an
    instance where the first attribute it reads has not been assigned (a
    [do_nothing] instance, say), each of these stages raises
    [AttributeError] naming that attribute and leaves the instance as it
    was. *)
Theorem stage_without_its_input s :
  (attrs s !! "xi_varphi_beta_eqn" = None ->
   define_xi_related_eqns self s
   = (Raise (AttributeError "xi_varphi_beta_eqn"), s))
  /\ (attrs s !! "p_norm_pxpz_eqn" = None ->
      define_Fstar_eqns s = (Raise (AttributeError "p_norm_pxpz_eqn"), s))
  /\ (attrs s !! "Fstar_eqn" = None ->
      define_H_eqns s = (Raise (AttributeError "Fstar_eqn"), s))
  /\ (attrs s !! "H_varphi_rx_eqn" = None ->
      define_pdot_eqns s = (Raise (AttributeError "H_varphi_rx_eqn"), s))
  /\ (attrs s !! "px_xiv_varphi_eqn" = None ->
      forall eta_choice,
        define_px_poly_eqn self eta_choice s
        = (Raise (AttributeError "px_xiv_varphi_eqn"), s))
  /\ (attrs s !! "boundary_eqns" = None ->
      set_ibc_eqns self s = (Raise (AttributeError "boundary_eqns"), s)).
Proof.
  assert (Heq : forall {B : Type} k (f : eqn -> M B),
            attrs s !! k = None ->
            (self_eq k ≫= f) s = (Raise (AttributeError k), s)).
  { intros B k f H. unfold self_eq. rewrite bind_assoc, bind_unfold.
    unfold getattr. now rewrite H. }
  repeat split.
  - intros H. unfold define_xi_related_eqns. cbv zeta. now apply Heq.
  - intros H. unfold define_Fstar_eqns. cbv zeta. now apply Heq.
  - intros H. unfold define_H_eqns. cbv zeta. now apply Heq.
  - intros H. unfold define_pdot_eqns. cbv zeta. now apply Heq.
  - intros H eta_choice. unfold define_px_poly_eqn. cbv zeta. now apply Heq.
  - intros H. unfold set_ibc_eqns. cbv zeta. unfold self_dict.
    rewrite bind_assoc, bind_unfold. unfold getattr. now rewrite H.
Qed.

End Stages.

(** * How the stages end *)

Lemma outcome_Ret failures (post : state -> Prop) s :
  post s -> outcome failures post (Ret tt, s).
Proof. intros H. exact H. Qed.

Lemma outcome_Raise (failures : exn -> Prop) post e s :
  failures e -> outcome failures post (Raise e, s).
Proof. intros H. exact H. Qed.

Lemma outcome_mono (f1 f2 : exn -> Prop) (p1 p2 : state -> Prop) r :
  (forall e, f1 e -> f2 e) -> (forall s, p1 s -> p2 s) ->
  outcome f1 p1 r -> outcome f2 p2 r.
Proof.
  intros Hf Hp. unfold outcome. destruct r as [[[]|e] s]; cbn; auto.
Qed.

Lemma outcome_bind failures (post post' : state -> Prop)
    (m : M unit) (f : unit -> M unit) s :
  outcome failures post (m s) ->
  (forall s1, m s = (Ret tt, s1) -> post s1 -> outcome failures post' (f tt s1)) ->
  outcome failures post' ((m ≫= f) s).
Proof.
  intros Hm Hf. rewrite bind_unfold. unfold outcome in Hm.
  destruct (m s) as [[[]|e] s1]; cbn in Hm; [now apply Hf|exact Hm].
Qed.

Lemma outcome_run failures (post post' : state -> Prop) (m : M unit) s :
  outcome failures post (m s) ->
  (forall s1, m s = (Ret tt, s1) -> post s1 -> post' s1) ->
  outcome failures post' (m s).
Proof.
  intros Hm Hf. unfold outcome in *.
  destruct (m s) as [[[]|e] s1]; cbn in *; [now apply Hf|exact Hm].
Qed.

Lemma outcome_inv failures post (r : res unit) s :
  outcome failures post (r, s) ->
  match r with Ret _ => post s | Raise e => failures e end.
Proof. intros H. exact H. Qed.

(** Runs a stage to its end, branching where a list is indexed. *)
Ltac run_index :=
  match goal with
  | |- context [index ?l 0] =>
      let E := fresh "E" in
      destruct l as [|? ?] eqn:E;
      [ rewrite bind_index_None by reflexivity
      | erewrite bind_index by reflexivity ]
  end.

Ltac has_eqs :=
  cbv beta in *;
  repeat match goal with
         | H : has_eq _ _ |- _ => destruct H as [? H]
         end.

Ltac post_holds :=
  apply outcome_Ret;
  repeat match goal with
         | |- _ /\ _ => split
         | |- has_eq _ _ => eexists; lookup_store; reflexivity
         | |- attrs _ !! _ = _ => lookup_store; reflexivity
         end.

Ltac no_root_found :=
  apply outcome_Raise; split; [reflexivity|eexists _, _; eassumption].

Ltac run_total :=
  cbv zeta; run_fwd;
  repeat (run_index; [no_root_found|run_fwd]);
  post_holds.

(** Carries the known attributes over the run [R] of a stage. *)
Ltac transport R :=
  match type of R with
  | ?m ?s = (_, ?s') =>
      repeat match goal with
             | H : attrs s !! ?k = _ |- _ =>
                 rewrite <- (keeps_run k m s _ s' ltac:(keeps_stage_lemma) R)
                   in H
             end
  end.

(** The next stage of a sequence, by its outcome lemma. *)
Ltac classify Hfail :=
  first [ exact Hfail | left; exact Hfail | right; exact Hfail ].

Ltac widen_with classify lem :=
  eapply outcome_mono;
  [ | | apply lem; try first [ eassumption | eexists; eassumption ] ];
  [ intros ? Hfail; classify Hfail
  | intros ? Hpost; exact Hpost ].

Ltac widen lem := widen_with classify lem.

Ltac stage lem := eapply outcome_bind; [ widen lem | ].

Ltac last_stage lem := eapply outcome_run; [ widen lem | ].

Section Progress.

Context {cas : SymPy}.
Variable self : config.

Lemma define_p_eqns_outcome s :
  outcome no_root
    (fun s' =>
       attrs s' !! "p_covec_eqn" = Some (VMatEq pcovec (transpose [[px]; [pz]]))
       /\ has_eq s' "pz_p_beta_eqn" /\ has_eq s' "p_norm_pxpz_eqn"
       /\ has_eq s' "tanbeta_pxpz_eqn" /\ has_eq s' "sinbeta_pxpz_eqn"
       /\ has_eq s' "cosbeta_pxpz_eqn" /\ has_eq s' "pz_px_tanbeta_eqn"
       /\ has_eq s' "px_pz_tanbeta_eqn" /\ has_eq s' "p_pz_cosbeta_eqn")
    (define_p_eqns s).
Proof. unfold define_p_eqns. run_total. Qed.

Lemma define_r_eqns_outcome s :
  outcome no_root (fun s' => True) (define_r_eqns s).
Proof. unfold define_r_eqns. run_total. exact I. Qed.

Lemma define_xi_eqns_outcome s :
  outcome no_root
    (fun s' => has_eq s' "xi_p_eqn" /\ has_eq s' "p_xi_eqn"
               /\ has_eq s' "pz_xiv_eqn")
    (define_xi_eqns s).
Proof. unfold define_xi_eqns. run_total. Qed.

Lemma define_xi_model_eqn_outcome s :
  outcome no_root (fun s' => has_eq s' "xi_varphi_beta_eqn")
    (define_xi_model_eqn self s).
Proof.
  unfold define_xi_model_eqn. cbv zeta.
  destruct (do_raw self); apply outcome_Ret; eexists; lookup_store; reflexivity.
Qed.

Lemma define_xi_related_eqns_outcome s :
  has_eq s "xi_varphi_beta_eqn" -> has_eq s "tanbeta_pxpz_eqn" ->
  has_eq s "cosbeta_pxpz_eqn" -> has_eq s "sinbeta_pxpz_eqn" ->
  has_eq s "pz_xiv_eqn" ->
  outcome no_root
    (fun s' => has_eq s' "px_xiv_varphi_eqn"
               /\ exists n, attrs s' !! "eta_dbldenom" = Some (VInt n))
    (define_xi_related_eqns self s).
Proof.
  intros. has_eqs. unfold define_xi_related_eqns. cbv zeta. run_fwd.
  apply outcome_Ret. split; eexists; lookup_store; reflexivity.
Qed.

Lemma define_varphi_model_eqn_outcome s :
  outcome
    (unknown_flow_model self)
    (fun s' => has_eq s' "varphi_rx_eqn")
    (define_varphi_model_eqn self s).
Proof.
  rewrite define_varphi_model_eqn_run. cbv zeta.
  destruct (String.eqb_spec (varphi_type self) "ramp") as [|N1];
    [post_holds|].
  destruct (String.eqb_spec (varphi_type self) "ramp-flat") as [|N2];
    [destruct (Qeqb (cfg_mu self) (1 # 2)); post_holds|].
  apply outcome_Raise. split; [reflexivity|].
  intros [H|[H|[]]]; congruence.
Qed.

Lemma define_varphi_related_eqns_outcome s :
  has_eq s "p_xi_eqn" -> has_eq s "xi_varphi_beta_eqn" ->
  has_eq s "tanbeta_pxpz_eqn" -> has_eq s "sinbeta_pxpz_eqn" ->
  has_eq s "p_norm_pxpz_eqn" -> has_eq s "varphi_rx_eqn" ->
  has_eq s "pz_px_tanbeta_eqn" -> has_eq s "xi_p_eqn" ->
  has_eq s "p_pz_cosbeta_eqn" ->
  outcome no_root
    (fun s' => has_eq s' "p_varphi_beta_eqn" /\ has_eq s' "p_varphi_pxpz_eqn")
    (define_varphi_related_eqns s).
Proof. intros. has_eqs. unfold define_varphi_related_eqns. run_total. Qed.

Lemma define_Fstar_eqns_outcome s :
  has_eq s "p_norm_pxpz_eqn" -> has_eq s "p_varphi_pxpz_eqn" ->
  outcome no_root (fun s' => has_eq s' "Fstar_eqn") (define_Fstar_eqns s).
Proof. intros. has_eqs. unfold define_Fstar_eqns. run_total. Qed.

Lemma define_H_eqns_outcome s :
  has_eq s "Fstar_eqn" -> has_eq s "varphi_rx_eqn" ->
  outcome no_root
    (fun s' => has_eq s' "H_eqn" /\ has_eq s' "H_varphi_rx_eqn")
    (define_H_eqns s).
Proof. intros. has_eqs. unfold define_H_eqns. run_total. Qed.

Lemma define_rdot_eqns_outcome s :
  has_eq s "H_eqn" -> has_eq s "px_pz_tanbeta_eqn" ->
  outcome no_root
    (fun s' =>
       (exists qx qz,
          attrs s' !! "rdotx_pxpz_eqn" = Some (VEq qx)
          /\ attrs s' !! "rdotz_pxpz_eqn" = Some (VEq qz)
          /\ attrs s' !! "rdot_vec_eqn"
             = Some (VMatEq rdotvec [[rhs qx]; [rhs qz]]))
       /\ has_eq s' "rdot_p_unity_eqn"
       /\ has_eq s' "rdotx_rdot_alpha_eqn" /\ has_eq s' "rdotz_rdot_alpha_eqn"
       /\ has_eq s' "rdotz_on_rdotx_eqn"
       /\ has_eq s' "rdotz_on_rdotx_tanbeta_eqn")
    (define_rdot_eqns s).
Proof.
  intros. has_eqs. unfold define_rdot_eqns. cbv zeta. run_fwd.
  apply outcome_Ret.
  split; [eexists _, _; repeat split; lookup_store; reflexivity|].
  repeat split; eexists; lookup_store; reflexivity.
Qed.

Lemma define_pdot_eqns_outcome s :
  has_eq s "H_varphi_rx_eqn" -> has_eq s "varphi_rx_eqn" ->
  has_eq s "tanbeta_pxpz_eqn" -> has_eq s "H_eqn" ->
  outcome no_root
    (fun s' => has_eq s' "pdotx_pxpz_eqn" /\ has_eq s' "pdotz_pxpz_eqn")
    (define_pdot_eqns s).
Proof. intros. has_eqs. unfold define_pdot_eqns. run_total. Qed.

Lemma define_Hamiltons_eqns_outcome s :
  has_eq s "varphi_rx_eqn" -> has_eq s "rdotx_pxpz_eqn" ->
  has_eq s "rdotz_pxpz_eqn" -> has_eq s "pdotx_pxpz_eqn" ->
  has_eq s "pdotz_pxpz_eqn" ->
  outcome no_root (fun s' => True) (define_Hamiltons_eqns s).
Proof.
  intros. has_eqs. unfold define_Hamiltons_eqns. cbv zeta. run_fwd.
  apply outcome_Ret. exact I.
Qed.

Lemma define_tanalpha_eqns_outcome s :
  has_eq s "rdotz_rdot_alpha_eqn" -> has_eq s "rdotx_rdot_alpha_eqn" ->
  has_eq s "rdotz_on_rdotx_eqn" -> has_eq s "rdotz_on_rdotx_tanbeta_eqn" ->
  outcome no_root (fun s' => has_eq s' "tanalpha_beta_eqn")
    (define_tanalpha_eqns s).
Proof. intros. has_eqs. unfold define_tanalpha_eqns. run_total. Qed.

Lemma derivation_before_outcome s :
  outcome (fun e => no_root e \/ unknown_flow_model self e) derived
    (derivation_before self s).
Proof.
  unfold derivation_before.
  stage define_p_eqns_outcome.
  intros s1 R1 (Apc & A1 & A2 & A3 & A4 & A5 & A6 & A7 & A8). has_eqs.
  stage define_r_eqns_outcome. intros s2 R2 _. transport R2.
  stage define_xi_eqns_outcome.
  intros s3 R3 (B1 & B2 & B3). has_eqs. transport R3.
  stage (define_xi_model_eqn_outcome s3).
  intros s4 R4 C1. has_eqs. transport R4.
  stage (define_xi_related_eqns_outcome s4).
  intros s5 R5 (D1 & n & D2). has_eqs. transport R5.
  stage (define_varphi_model_eqn_outcome s5).
  intros s6 R6 E1. has_eqs. transport R6.
  stage (define_varphi_related_eqns_outcome s6).
  intros s7 R7 (F1 & F2). has_eqs. transport R7.
  stage (define_Fstar_eqns_outcome s7).
  intros s8 R8 G1. has_eqs. transport R8.
  stage (define_H_eqns_outcome s8).
  intros s9 R9 (H1 & H2). has_eqs. transport R9.
  stage (define_rdot_eqns_outcome s9).
  intros s10 R10 ((qx & qz & I1 & I2 & I3) & I4 & I5 & I6 & I7 & I8).
  has_eqs. transport R10.
  stage (define_pdot_eqns_outcome s10).
  intros s11 R11 (J1 & J2). has_eqs. transport R11.
  stage (define_Hamiltons_eqns_outcome s11).
  intros s12 R12 _. transport R12.
  last_stage (define_tanalpha_eqns_outcome s12).
  intros s13 R13 K1. has_eqs. transport R13.
  split; [exact Apc|]. split; [exists n; exact D2|].
  split; [exists qx, qz; repeat split; assumption|].
  repeat (apply Forall_cons; split; [eexists; eassumption|]).
  apply Forall_nil_2.
Qed.

End Progress.

(** * How construction ends *)




Section Later.

Context {cas : SymPy}.
Variable self : config.









End Later.

(** * The ways construction can fail *)





Section Construction.

Context {cas : SymPy}.
Variable self : config.

(** The derivation up to the ray-angle relations fails in two ways only:
    with [IndexError] when the solver lists no root for one of the
    equations it is given, with [ValueError('Unknown flow model')] when
    the flow model is neither ['ramp'] nor ['ramp-flat'].  It never fails
    for an attribute that is missing: every equation a stage reads has
    been assigned by a stage before it, whatever state the derivation is
    run from.  When it returns, the attributes the stages after it read
    are assigned. *)
Theorem derivation_outcomes s :
  match (derivation_before self s).1 with
  | Ret _ => derived (derivation_before self s).2
  | Raise e =>
      (e = IndexError /\ exists q t, solve q t = [])
      \/ (e = ValueError "Unknown flow model"
          /\ ~ In (varphi_type self) flow_models)
  end.
Proof. exact (derivation_before_outcome self s). Qed.


End Construction.

(** * The further properties on instances *)

(** After a default construction, the later stages run once more, with
    the indicatrix stage, leave the Hamiltonian where it was. *)
Lemma later_stages_keep_derivation_example :
  let s := (@Equations reference_cas default_config None false false false).2 in
  attrs (@later_stages reference_cas default_config None true false s).2
    !! "H_eqn"
  = attrs s !! "H_eqn".
Proof.
  cbv zeta.
  apply (@later_stages_keep_derivation reference_cas default_config
           None true false _
           (@later_stages reference_cas default_config None true false
              (@Equations reference_cas default_config
                 None false false false).2).1).
  - vm_compute. tauto.
  - apply surjective_pairing.
Defined.

(** The default configuration, [eta = 3/2] with the sine tilt: the
    geodesic stages without parameters, on a new instance. *)
Lemma geodesic_stages_skip_example :
  exists s',
    ((@prep_geodesic_eqns reference_cas default_config None)
     ≫= (fun _ => define_geodesic_eqns default_config None))
      fresh
    = (Ret tt, s')
    /\ stdout s' = [notice_geodesic; notice_geodesic]
    /\ unavailable s' "geodesic_eqns".
Proof.
  destruct (@geodesic_stages_skip reference_cas default_config None fresh)
    as (s' & Hrun & Hout & Hnone & _).
  - vm_compute. discriminate.
  - reflexivity.
  - exists s'. split; [exact Hrun|]. split; [exact Hout|].
    unfold writes_prep_geodesic_eqns, writes_define_geodesic_eqns in Hnone.
    cbn [app] in Hnone.
    do 13 (apply Forall_cons in Hnone as [_ Hnone]).
    apply Forall_cons in Hnone as [Hnone _]. exact Hnone.
Defined.

(** A boundary profile that the engine does not know. *)
Lemma unknown_boundary_profile_example :
  (@Equations reference_cas (with_ibc_type "flat" default_config)
     None false false false).1 <> Ret tt
  /\ (@Equations reference_cas (with_ibc_type "flat" default_config)
        None false false false).1 = Raise (KeyError "flat").
Proof.
  split; [|vm_compute; reflexivity].
  apply (@unknown_boundary_profile reference_cas
           (with_ibc_type "flat" default_config)).
  vm_compute. intros [H|[H|[H|[]]]]; discriminate H.
Defined.

(** A list with the one root that is complex at every probe. *)
Lemma tanbeta_no_admissible_root_example :
  exists s',
    @define_tanbeta_eqns (listing_cas (tan beta) [complex_root])
      default_config false (documented_angle_state default_config)
    = (Raise IndexError, s')
    /\ unavailable s' "tanbeta_alpha_eqn".
Proof.
  apply (@tanbeta_no_admissible_root (listing_cas (tan beta) [complex_root])
           default_config false (documented_angle_state default_config)
           (documented_tanalpha_beta_eqn default_config)).
  - intros [H _]. vm_compute in H. discriminate H.
  - reflexivity.
  - apply Forall_cons. split; [|apply Forall_nil_2].
    repeat split; vm_compute; reflexivity.
Defined.

(** The two stationary points of the documented relation: the negative
    one is passed over, [atan(sqrt(3/2))] is recorded. *)
Lemma extremum_first_real_positive_example :
  let out :=
    (@define_tanbeta_eqns (listing_cas beta documented_extrema)
       default_config true (documented_angle_state default_config)).2 in
  attrs out !! "beta_at_alpha_extremum_eqn"
  = Some (VEq (Eq beta_at_alpha_extremum (atan (sqrt (Num (3 # 2))))))
  /\ stdout out = [].
Proof.
  destruct (@extremum_first_real_positive (listing_cas beta documented_extrema)
              default_config (documented_angle_state default_config)
              (documented_tanalpha_beta_eqn default_config)
              [neg (atan (sqrt (Num (3 # 2))))]
              (atan (sqrt (Num (3 # 2)))) [])
    as (A & _ & B).
  - reflexivity.
  - vm_compute. reflexivity.
  - apply Forall_cons. split; [|apply Forall_nil_2].
    right. vm_compute. reflexivity.
  - vm_compute. reflexivity.
  - vm_compute. reflexivity.
  - cbv zeta. split; [exact A|exact B].
Defined.

(** Each of the stages on a new instance. *)
Lemma stage_without_its_input_example :
  @define_H_eqns reference_cas fresh
  = (Raise (AttributeError "Fstar_eqn"), fresh)
  /\ @set_ibc_eqns reference_cas default_config fresh
     = (Raise (AttributeError "boundary_eqns"), fresh).
Proof.
  destruct (@stage_without_its_input reference_cas default_config fresh)
    as (_ & _ & H3 & _ & _ & H6).
  split; [apply H3|apply H6]; reflexivity.
Defined.

(** * What the erosion model and the Christoffel coefficients denote *)

Open Scope R_scope.

Lemma rpow_Rpower (x : R) (q : Q) :
  0 < x -> rpow x (Num q) (Q2R q) = Rpower x (Q2R q).
Proof.
  intros Hx. unfold rpow. cbn [int_exp].
  destruct (is_int q) as [n|] eqn:Hq; [|reflexivity].
  rewrite (is_int_Q2R q n Hq). now apply powerRZ_Rpower.
Qed.

Section Meaning.

Context {cas : SymPy}.
Variable self : config.

(** The erosion model that [define_xi_model_eqn] stores is
    [xi = varphi(r) |sin(beta)|^eta] for the sine tilt and
    [xi = varphi(r) |tan(beta)|^eta] for any other tilt type, as a
    function on the reals wherever the tilt function is not zero; the
    exponent is the configured rational [eta], or with [do_raw] the
    value of the symbol [eta], which then stays in the equation. *)
Theorem erosion_model_meaning s rho :
  let tilt :=
    if String.eqb (beta_type self) "sin" then Rtrigo_def.sin (rho "beta")
    else Rtrigo1.tan (rho "beta") in
  tilt <> 0 ->
  exists q,
    define_xi_model_eqn self s
    = (Ret tt,
       mkState (<["xi_varphi_beta_eqn" := VEq q]> (attrs s)) (stdout s))
    /\ lhs q = xi
    /\ eval rho (rhs q)
       = rho "varphi(r)"
         * Rpower (Rabs tilt)
             (if do_raw self then rho "eta" else Q2R (cfg_eta self)).
Proof.
  intros tilt Htilt. unfold define_xi_model_eqn. cbv zeta.
  assert (Hpos : 0 < Rabs tilt) by now apply Rabs_pos_lt.
  assert (Hsub : forall f,
            subs (eta_sub self) (mul varphi_r (pow (Abs (App f beta)) eta))
            = mul varphi_r (pow (Abs (App f beta)) (Num (cfg_eta self)))).
  { intros f. reflexivity. }
  subst tilt.
  destruct (do_raw self), (String.eqb (beta_type self) "sin");
    eexists; (split; [reflexivity|]); (split; [reflexivity|]);
    cbn [rhs]; unfold sin, tan in *; rewrite ?Hsub;
    rewrite ?eval_mul, ?eval_pow; cbn [eval eval_func];
    rewrite ?rpow_Rpower by exact Hpos; reflexivity.
Qed.

End Meaning.

(** The Christoffel coefficient is symmetric in its lower indices where
    the derivatives of the metric are: when each matrix of metric
    derivatives denotes a symmetric matrix, the coefficients for [(i, j)]
    and for [(j, i)] denote the same number, so that twice the one is
    the sum of the two, which is how [geodesic_eqns] abbreviates the
    mixed terms. *)
Theorem christoffel_symmetric rho gstar_ij_mat dg_rk_ij_mat i j k e1 e2 :
  (forall r plane m a b x y,
     nth_error dg_rk_ij_mat r = Some plane -> nth_error plane 0 = Some m ->
     mget m a b = Some x -> mget m b a = Some y ->
     eval rho x = eval rho y) ->
  christoffel_ij_k_rx_rdot gstar_ij_mat dg_rk_ij_mat i j k = Some e1 ->
  christoffel_ij_k_rx_rdot gstar_ij_mat dg_rk_ij_mat j i k = Some e2 ->
  eval rho e1 = eval rho e2
  /\ eval rho (mul (Num 2) e1) = eval rho e1 + eval rho e2.
Proof.
  intros Hsym H1 H2.
  assert (Heq : eval rho e1 = eval rho e2).
  { unfold christoffel_ij_k_rx_rdot in H1, H2.
    repeat match goal with
           | H : _ ≫= _ = Some _ |- _ =>
               apply bind_Some in H as (? & ? & H)
           end.
    injection H1 as <-. injection H2 as <-.
    repeat match goal with
           | H : Some _ = Some _ |- _ => injection H as <-
           end.
    rewrite !eval_add, !eval_mul, !eval_sub, !eval_add.
    repeat match goal with
           | Ha : ?o = Some ?u, Hb : ?o = Some ?v |- _ =>
               rewrite Ha in Hb; injection Hb as <-
           end.
    repeat match goal with
           | Hp : nth_error dg_rk_ij_mat _ = Some ?pl,
             Hm : nth_error ?pl 0 = Some ?m,
             Ha : mget ?m i j = Some _,
             Hb : mget ?m j i = Some _ |- _ =>
               rewrite (Hsym _ _ _ _ _ _ _ Hp Hm Ha Hb); clear Ha
           end.
    ring. }
  split; [exact Heq|].
  rewrite eval_mul, <- Heq. cbn [eval].
  replace (Q2R 2) with 2 by (unfold Q2R; simpl; lra). lra.
Qed.

(** The default configuration at [beta = pi/2], where [sin(beta) = 1]. *)
Lemma erosion_model_meaning_example :
  exists q,
    define_xi_model_eqn default_config fresh
    = (Ret tt,
       mkState (<["xi_varphi_beta_eqn" := VEq q]> (attrs fresh)) (stdout fresh))
    /\ lhs q = xi
    /\ eval quarter_turn_point (rhs q)
       = quarter_turn_point "varphi(r)"
         * Rpower (Rabs (Rtrigo_def.sin (quarter_turn_point "beta")))
             (Q2R (3 # 2)).
Proof.
  apply (erosion_model_meaning default_config fresh quarter_turn_point).
  change (Rtrigo_def.sin (PI / 2) <> 0). rewrite sin_PI2. lra.
Defined.

(** The coefficients of a symmetric metric, at the point where every
    symbol is [1]. *)
Lemma christoffel_symmetric_example :
  exists e1 e2,
    christoffel_ij_k_rx_rdot sample_metric sample_metric_derivatives 0 1 0
    = Some e1
    /\ christoffel_ij_k_rx_rdot sample_metric sample_metric_derivatives 1 0 0
       = Some e2
    /\ eval (fun _ => 1) e1 = eval (fun _ => 1) e2.
Proof.
  eexists _, _. split; [reflexivity|]. split; [reflexivity|].
  apply (christoffel_symmetric (fun _ => 1) sample_metric
           sample_metric_derivatives 0 1 0 _ _).
  - intros r plane m a b u v Hr Hp Ha Hb.
    destruct r as [|[|r]];
      [| |destruct r; discriminate Hr];
      injection Hr as <-; injection Hp as <-;
      (destruct a as [|[|a]]; [| |destruct a; discriminate Ha]);
      (destruct b as [|[|b]]; [| |destruct b; discriminate Hb]);
      vm_compute in Ha, Hb; injection Ha as <-; injection Hb as <-;
      reflexivity.
  - reflexivity.
  - reflexivity.
Defined.

Close Scope R_scope.

(** * The geodesic stages with parameters *)

Lemma christoffel_defined gs dg0 dg1 i j k :
  is_2x2 gs -> is_2x2 dg0 -> is_2x2 dg1 ->
  (i < 2)%nat -> (j < 2)%nat -> (k < 2)%nat ->
  exists e, christoffel_ij_k_rx_rdot gs [[dg0]; [dg1]] i j k = Some e.
Proof.
  intros (a & b & c & d & ->) (a0 & b0 & c0 & d0 & ->)
         (a1 & b1 & c1 & d1 & ->) Hi Hj Hk.
  destruct i as [|[|i]]; [| |lia];
    (destruct j as [|[|j]]; [| |lia]);
    (destruct k as [|[|k]]; [| |lia]);
    eexists; reflexivity.
Qed.

Lemma is_2x2_mat_map f m : is_2x2 m -> is_2x2 (mat_map f m).
Proof. intros (a & b & c & d & ->). eexists _, _, _, _. reflexivity. Qed.

Section Geodesic.

Context {cas : SymPy}.
Variable self : config.

(** Outside the case they skip, given a mapping of parameters, the four
    equations they read, a root of the polynomial in [tan(beta)] and an
    inverse of the dual metric that is again a two by two matrix, the two
    geodesic stages return.  They store the metric and its dual as
    matrices, the same matrices as the bodies of the lambdified
    functions, and the four first-order geodesic equations: the first two
    are [rdot^x = v^x] and [rdot^z = v^z], the last two give [vdot^x] and
    [vdot^z], whose right-hand sides are the bodies of the two lambdified
    accelerations. *)
Theorem geodesic_stages_with_parameters l s qH qp qt qv :
  geodesic_skipped self = false ->
  attrs s !! "H_eqn" = Some (VEq qH) ->
  attrs s !! "px_pz_tanbeta_eqn" = Some (VEq qp) ->
  attrs s !! "tanalpha_beta_eqn" = Some (VEq qt) ->
  attrs s !! "varphi_rx_eqn" = Some (VEq qv) ->
  (let qt' := subs_eq (mu_eta_sub self) qt in
   solve
     (subs_eq [(tan alpha, ta)]
        (Eq (sub (numer (rhs qt')) (mul (lhs qt') (denom (rhs qt'))))
            (Num 0)))
     (tan beta) <> []) ->
  (forall m, is_2x2 m -> is_2x2 (inverse m)) ->
  exists s' g gstar_ ax az,
    (prep_geodesic_eqns self (Some l)
     ≫= fun _ => define_geodesic_eqns self (Some l)) s = (Ret tt, s')
    /\ stdout s' = stdout s
    /\ attrs s' !! "g_ij_mat" = Some (VMat g)
    /\ attrs s' !! "gstar_ij_mat" = Some (VMat gstar_)
    /\ attrs s' !! "g_ij_mat_lambdified" = Some (VLambdaMat lambdify_args g)
    /\ attrs s' !! "gstar_ij_mat_lambdified"
       = Some (VLambdaMat lambdify_args gstar_)
    /\ attrs s' !! "geodesic_eqns"
       = Some (VEqs [Eq rdotx_true rdotx; Eq rdotz_true rdotz;
                     Eq vdotx ax; Eq vdotz az])
    /\ attrs s' !! "vdotx_lambdified" = Some (VLambda lambdify_args ax)
    /\ attrs s' !! "vdotz_lambdified" = Some (VLambda lambdify_args az).
Proof.
  intros Hskip HH Hp Ht Hv Hroot Hinv. cbv zeta in Hroot.
  unfold prep_geodesic_eqns, define_geodesic_eqns. cbv zeta.
  fold (geodesic_skipped self). rewrite Hskip.
  run_fwd.
  match goal with
  | |- context [index ?l 0] =>
      destruct l as [|t1 ts] eqn:E; [now destruct Hroot|];
      erewrite bind_index by reflexivity
  end.
  run_fwd. unfold subs_parameters. run_fwd.
  match goal with
  | |- context [inverse ?m] =>
      destruct (Hinv m) as (ia & ib & ic & id & Hi);
      [eexists _, _, _, _; reflexivity|]; rewrite Hi
  end.
  cbn [mat_map subs_mat diff_mat map].
  match goal with
  | |- context [lift_index (christoffel_ij_k_rx_rdot ?gs ?dg 0 0 0)%nat] =>
      assert (Hdef : forall i j k, (i < 2)%nat -> (j < 2)%nat -> (k < 2)%nat ->
                exists e, christoffel_ij_k_rx_rdot gs dg i j k = Some e)
        by (intros i j k; apply christoffel_defined;
            eexists _, _, _, _; reflexivity);
      set (gamma := christoffel_ij_k_rx_rdot gs dg) in *
  end.
  clearbody gamma.
  destruct (Hdef 0 0 0)%nat as [g000 E000]; [lia..|].
  destruct (Hdef 1 0 0)%nat as [g100 E100]; [lia..|].
  destruct (Hdef 0 1 0)%nat as [g010 E010]; [lia..|].
  destruct (Hdef 1 1 0)%nat as [g110 E110]; [lia..|].
  destruct (Hdef 0 0 1)%nat as [g001 E001]; [lia..|].
  destruct (Hdef 1 0 1)%nat as [g101 E101]; [lia..|].
  destruct (Hdef 0 1 1)%nat as [g011 E011]; [lia..|].
  destruct (Hdef 1 1 1)%nat as [g111 E111]; [lia..|].
  match goal with
  | |- context [lift_index (mapM ?f ?ks)] =>
      assert (Hmap : mapM f ks
                     = Some [[[g000; g100]; [g010; g110]];
                             [[g001; g101]; [g011; g111]]])
        by (cbn [mapM]; rewrite E000, E100, E010, E110, E001, E101, E011, E111;
            reflexivity);
      rewrite Hmap
  end.
  erewrite bind_lift_index by reflexivity. run_fwd.
  erewrite bind_index by reflexivity. run_fwd.
  erewrite bind_index by reflexivity. run_fwd.
  eexists _, _, _, _, _. split; [reflexivity|]. split; [reflexivity|].
  repeat split; lookup_store; reflexivity.
Qed.

End Geodesic.
(** The reference instance at [eta = 1/2] with three parameters given:
    the stages return and the geodesic equations are stored. *)
Lemma geodesic_stages_with_parameters_example :
  let self := with_eta (1 # 2) default_config in
  let l := [(varphi_0, Num 1); (x_1, Num 1); (varepsilon, Num (1 # 100))] in
  exists s' ax az,
    (@prep_geodesic_eqns reference_cas self (Some l)
     ≫= fun _ => define_geodesic_eqns self (Some l)) geodesic_state
    = (Ret tt, s')
    /\ attrs s' !! "geodesic_eqns"
       = Some (VEqs [Eq rdotx_true rdotx; Eq rdotz_true rdotz;
                     Eq vdotx ax; Eq vdotz az]).
Proof.
  cbv zeta.
  destruct (@geodesic_stages_with_parameters reference_cas
              (with_eta (1 # 2) default_config)
              [(varphi_0, Num 1); (x_1, Num 1); (varepsilon, Num (1 # 100))]
              geodesic_state
              (Eq H (@hamiltonian reference_cas reference_Fstar_eqn))
              (Eq px (Mul (Mul (Num (-1)) pz) (tan beta)))
              (documented_tanalpha_beta_eqn (with_eta (1 # 2) default_config))
              varphi_model_ramp_eqn)
    as (s' & g & gstar_ & ax & az & Hrun & _ & _ & _ & _ & _ & Heqs & _).
  - vm_compute. reflexivity.
  - reflexivity.
  - reflexivity.
  - reflexivity.
  - reflexivity.
  - vm_compute. discriminate.
  - intros m Hm. exact Hm.
  - exists s', ax, az. split; [exact Hrun|exact Heqs].
Defined.
